(** * compare_rouge_l.py: result extraction, statistics and differential comparison

    A shallow embedding of [extract_results], [print_statistics],
    [compare_results] and the report part of [main] of
    [compare_rouge_l.py], with the properties its specification states.

    Conventions of the embedding.
    - A Python [str] is a [string]; a character is the code point it
      denotes, so the development covers text over U+0000..U+00FF.  In that
      range the decimal digits are "0".."9" and [str.isspace] holds of the
      twelve code points listed in [is_space].
    - Python [int] is [Z]; [len] and counters are [nat].
    - The scores of a record are Python [float]s, embedded as the binary64
      primitive floats of the kernel ([PrimFloat]); [float(s)] is correctly
      rounded.
    - The elapsed-time samples handed to [print_statistics] are embedded
      twice.  Module [Statistics] takes them as exact rationals [Q]; this
      is the model of [print_statistics] and of the performance summary,
      used where the lines that are printed or the sign of a comparison
      matter.  Module [Binary64] takes them as binary64 floats, with the
      rounding and the overflow of the interpreter ([statistics.mean] sums
      exactly and rounds once, [statistics.median] averages in float
      arithmetic); the bounds on the reported statistics are proved there.
      The rounding to the printed two decimals is not part of either.
    - [print] appends to an output log of structured events, one constructor
      per message of the source; number formatting is not modelled, an event
      carries the value that is formatted.
    - A Python exception is a [Raise] outcome. *)

From Stdlib Require Import ZArith QArith Qpower Floats String Ascii List Lia Lqa.
From stdpp Require Import base option list sorting gmap strings.

Set Default Proof Using "Type".
Local Open Scope string_scope.
Local Open Scope Z_scope.

(* ===================================================================== *)
(** * Exceptions and outcomes *)

Inductive exn : Type :=
| IndexError
| ValueError
| TypeError
| ZeroDivisionError
| StatisticsError
| FileNotFoundError
| OverflowError.

Inductive result (A : Type) : Type :=
| Ok (a : A)
| Raise (e : exn).
Arguments Ok {A} a.
Arguments Raise {A} e.

#[global] Instance result_ret : MRet result := fun A a => Ok a.
#[global] Instance result_bind : MBind result := fun A B f m =>
  match m with
  | Ok a => f a
  | Raise e => Raise e
  end.

Definition is_ok {A} (r : result A) : bool :=
  match r with Ok _ => true | Raise _ => false end.

(** [l[i]]: indexing a Python list with a non-negative index. *)
Definition py_index {A} (l : list A) (i : nat) : result A :=
  match l !! i with
  | Some x => Ok x
  | None => Raise IndexError
  end.

(** The loop [for x in xs: st = body(st, x)], stopping at the first
    exception. *)
Fixpoint for_each {S A} (body : S -> A -> result S) (st : S) (xs : list A)
  : result S :=
  match xs with
  | [] => Ok st
  | x :: xs' => st' ← body st x; for_each body st' xs'
  end.

(* ===================================================================== *)
(** * Python string primitives *)

Module Str.

Definition is_digit (c : ascii) : bool :=
  let n := nat_of_ascii c in (48 <=? n)%nat && (n <=? 57)%nat.

(** [str.isspace] on U+0000..U+00FF: TAB, LF, VT, FF, CR, FS, GS, RS, US,
    SPACE, NEL and NBSP. *)
Definition is_space (c : ascii) : bool :=
  let n := nat_of_ascii c in
  ((9 <=? n)%nat && (n <=? 13)%nat) || ((28 <=? n)%nat && (n <=? 32)%nat)
  || (n =? 133)%nat || (n =? 160)%nat.

Definition newline : ascii := ascii_of_nat 10.

(** [s.lstrip(chars)], with the stripped characters given as a predicate. *)
Fixpoint lstrip_by (p : ascii -> bool) (s : string) : string :=
  match s with
  | EmptyString => EmptyString
  | String c s' => if p c then lstrip_by p s' else s
  end.

(** [s.rstrip(chars)]. *)
Fixpoint rstrip_by (p : ascii -> bool) (s : string) : string :=
  match s with
  | EmptyString => EmptyString
  | String c s' =>
      match rstrip_by p s' with
      | EmptyString => if p c then EmptyString else String c EmptyString
      | r => String c r
      end
  end.

(** [s.strip()] *)
Definition strip (s : string) : string := rstrip_by is_space (lstrip_by is_space s).

(** [s.rstrip(':')] *)
Definition rstrip_colon (s : string) : string := rstrip_by (Ascii.eqb ":") s.

(** The rest of [s] after the prefix [p], when [s] starts with [p]. *)
Fixpoint strip_prefix (p s : string) : option string :=
  match p, s with
  | EmptyString, _ => Some s
  | String a p', String b s' => if Ascii.eqb a b then strip_prefix p' s' else None
  | String _ _, EmptyString => None
  end.

(** [s.startswith(p)] *)
Definition startswith (s p : string) : bool :=
  match strip_prefix p s with Some _ => true | None => false end.

(** [p in s] *)
Fixpoint contains (p s : string) : bool :=
  startswith s p ||
  match s with
  | EmptyString => false
  | String _ s' => contains p s'
  end.

(** [s.split(sep)] for a one-character separator. *)
Fixpoint split_on (sep : ascii) (s : string) : list string :=
  match s with
  | EmptyString => [EmptyString]
  | String c s' =>
      if Ascii.eqb c sep then EmptyString :: split_on sep s'
      else match split_on sep s' with
           | l :: ls => String c l :: ls
           | [] => [String c EmptyString]
           end
  end.

(** [s.split(sep, 1)] for a non-empty [sep]: one piece when [sep] does not
    occur, otherwise the text before and the text after its first
    occurrence. *)
Fixpoint split1 (sep s : string) : list string :=
  match strip_prefix sep s with
  | Some rest => [EmptyString; rest]
  | None =>
      match s with
      | EmptyString => [EmptyString]
      | String c s' =>
          match split1 sep s' with
          | h :: t => String c h :: t
          | [] => []
          end
      end
  end.

(** [s.split()]: the maximal runs of non-whitespace characters. *)
Fixpoint split_ws (s : string) : list string :=
  match s with
  | EmptyString => []
  | String c s' =>
      if is_space c then split_ws s'
      else match s' with
           | EmptyString => [String c EmptyString]
           | String c' _ =>
               if is_space c' then String c EmptyString :: split_ws s'
               else match split_ws s' with
                    | t :: ts => String c t :: ts
                    | [] => [String c EmptyString]
                    end
           end
  end.

(** The longest prefix whose characters satisfy [p], and the rest. *)
Fixpoint span (p : ascii -> bool) (s : string) : string * string :=
  match s with
  | EmptyString => (EmptyString, EmptyString)
  | String c s' =>
      if p c then let '(a, b) := span p s' in (String c a, b)
      else (EmptyString, s)
  end.

Definition nonempty (s : string) : bool :=
  match s with EmptyString => false | String _ _ => true end.

(** [s[:n] + "..." if len(s) > n else s] *)
Definition preview (n : nat) (s : string) : string :=
  if (n <? String.length s)%nat then String.substring 0 n s ++ "..." else s.

End Str.

(* ===================================================================== *)
(** * The two regular expressions of the extractor *)

Module Regex.
Import Str.

(** [Level (\d+): (.+)] anchored at the start of [s]: the digit run is
    greedy and what follows it must be ": ", so only the maximal run can
    match; [.] matches everything but a newline.  The result is
    [(group 1, group 2)]. *)
Definition match_level_at (s : string) : option (string * string) :=
  r ← strip_prefix "Level " s;
  let '(ds, r1) := span is_digit r in
  if nonempty ds then
    r2 ← strip_prefix ": " r1;
    let '(name, _) := span (fun c => negb (Ascii.eqb c newline)) r2 in
    if nonempty name then Some (ds, name) else None
  else None.

(** [re.search(r'Level (\d+): (.+)', s)]: the leftmost position where the
    pattern matches. *)
Fixpoint search_level (s : string) : option (string * string) :=
  match match_level_at s with
  | Some m => Some m
  | None =>
      match s with
      | EmptyString => None
      | String _ s' => search_level s'
      end
  end.

(** [\d+\.\d+] anchored at the start of [s]: the matched text. *)
Definition match_decimal_at (s : string) : option string :=
  let '(ip, r) := span is_digit s in
  if nonempty ip then
    match r with
    | String "." r' =>
        let '(fp, _) := span is_digit r' in
        if nonempty fp then Some (ip ++ "." ++ fp) else None
    | _ => None
    end
  else None.

(** The scan of [re.findall]: positions are tried from left to right, and
    the [skip] characters covered by the previous match are passed over, so
    that matches do not overlap. *)
Fixpoint findall_from (skip : nat) (s : string) : list string :=
  match s with
  | EmptyString => []
  | String _ s' =>
      match skip with
      | S k => findall_from k s'
      | O =>
          match match_decimal_at s with
          | Some m => m :: findall_from (String.length m - 1) s'
          | None => findall_from 0 s'
          end
      end
  end.

(** [re.findall(r'\d+\.\d+', s)] *)
Definition findall_decimal (s : string) : list string := findall_from 0 s.

End Regex.

(* ===================================================================== *)
(** * Conversions: [int(s)] and [float(s)] *)

Module Conv.
Import Str.

Definition digit_value (c : ascii) : Z := Z.of_nat (nat_of_ascii c) - 48.

(** The digits of an integer literal: decimal digits, with single
    underscores allowed between two digits.  [prev] tells whether the
    previous character was a digit. *)
Fixpoint int_digits (acc : Z) (prev : bool) (s : string) : option Z :=
  match s with
  | EmptyString => if prev then Some acc else None
  | String c s' =>
      if is_digit c then int_digits (10 * acc + digit_value c) true s'
      else if Ascii.eqb c "_" then (if prev then int_digits acc false s' else None)
      else None
  end.

Fixpoint count_digits (s : string) : nat :=
  match s with
  | EmptyString => O
  | String c s' => if is_digit c then S (count_digits s') else count_digits s'
  end.

(** The whitespace [int] skips around a literal: [str.isspace] without the
    four separators FS, GS, RS and US. *)
Definition is_int_space (c : ascii) : bool :=
  is_space c && negb ((28 <=? nat_of_ascii c)%nat && (nat_of_ascii c <=? 31)%nat).

Section Int.
(** The interpreter's limit on the number of digits [int] converts
    ([sys.get_int_max_str_digits()]: 4300 by default since CPython 3.11,
    [0] when there is no limit, as in earlier versions).  The interpreter
    never applies it to literals of 640 digits or fewer. *)
Variable max_str_digits : nat.

(** [int(s)]: surrounding whitespace, an optional sign, digits. *)
Definition py_int (s : string) : result Z :=
  let t := rstrip_by is_int_space (lstrip_by is_int_space s) in
  let '(neg, body) :=
    match t with
    | String "-" b => (true, b)
    | String "+" b => (false, b)
    | _ => (false, t)
    end in
  match int_digits 0 false body with
  | Some v =>
      if (640 <? count_digits body)%nat && (0 <? max_str_digits)%nat
         && (max_str_digits <? count_digits body)%nat
      then Raise ValueError
      else Ok (if neg then - v else v)
  | None => Raise ValueError
  end.
End Int.

(** The number a digit string denotes. *)
Fixpoint digits_N (acc : N) (s : string) : N :=
  match s with
  | EmptyString => acc
  | String c s' => digits_N (10 * acc + N.of_nat (nat_of_ascii c) - 48)%N s'
  end.

(** The binary64 float nearest to [n / d], ties to even: the division of the
    IEEE specification applied to the two integers, which rounds once. *)
Definition float_of_ratio (n : N) (d : positive) : float :=
  match n with
  | N0 => PrimFloat.zero
  | Npos p =>
      SF2Prim (SFdiv prec emax (S754_finite false p 0) (S754_finite false d 0))
  end.

(** [float(s)] on the literals this program converts, a digit run, a dot and
    a digit run (the matches of [\d+\.\d+]): the nearest binary64 float,
    [inf] when the number is too large.  Other literals that [float] accepts
    (exponents, signs, [inf], [nan]) never reach it and are not modelled:
    they are rejected here. *)
Definition py_float (s : string) : result float :=
  let '(ip, r) := span is_digit s in
  match r with
  | String "." fp =>
      if nonempty ip && nonempty fp && (snd (span is_digit fp) =? "")%string
      then Ok (float_of_ratio (digits_N 0 (ip ++ fp)) (10 ^ Pos.of_nat (String.length fp)))
      else Raise ValueError
  | _ => Raise ValueError
  end.

(** [a / b] on two non-negative Python ints: true division, correctly
    rounded. *)
Definition py_truediv (a b : nat) : result float :=
  match b with
  | O => Raise ZeroDivisionError
  | S _ => Ok (float_of_ratio (N.of_nat a) (Pos.of_nat b))
  end.

End Conv.

Import Str Regex Conv.

(* ===================================================================== *)
(** * Data model *)

(** One entry of the list [extract_results] returns: the dictionary with
    the keys of the same names.  [None] is Python's [None]. *)
Record scenario_result : Type := {
  example_num : option Z;
  level : option Z;
  level_name : option string;
  candidate : option string;
  reference : option string;
  f_measure : float;
  precision : float;
  recall : float
}.

(** The local variables of [extract_results]. *)
Record extractor_state : Type := {
  current_example : option Z;
  current_level : option Z;
  current_level_name : option string;
  current_candidate : option string;
  current_reference : option string;
  results : list scenario_result
}.

Definition initial_state : extractor_state :=
  {| current_example := None; current_level := None;
     current_level_name := None; current_candidate := None;
     current_reference := None; results := [] |}.

Definition set_level (lv : Z) (name : string) (st : extractor_state) :=
  {| current_example := current_example st; current_level := Some lv;
     current_level_name := Some name;
     current_candidate := current_candidate st;
     current_reference := current_reference st; results := results st |}.

Definition set_example (n : Z) (st : extractor_state) :=
  {| current_example := Some n; current_level := current_level st;
     current_level_name := current_level_name st;
     current_candidate := current_candidate st;
     current_reference := current_reference st; results := results st |}.

Definition set_candidate (c : string) (st : extractor_state) :=
  {| current_example := current_example st; current_level := current_level st;
     current_level_name := current_level_name st;
     current_candidate := Some c;
     current_reference := current_reference st; results := results st |}.

Definition set_reference (r : string) (st : extractor_state) :=
  {| current_example := current_example st; current_level := current_level st;
     current_level_name := current_level_name st;
     current_candidate := current_candidate st;
     current_reference := Some r; results := results st |}.

(** The dictionary appended for a results line. *)
Definition new_result (st : extractor_state) (f p r : float) : scenario_result :=
  {| example_num := current_example st; level := current_level st;
     level_name := current_level_name st;
     candidate := current_candidate st; reference := current_reference st;
     f_measure := f; precision := p; recall := r |}.

(** [results.append(...)] followed by the reset of the two snippets. *)
Definition emit (rec : scenario_result) (st : extractor_state) :=
  {| current_example := current_example st; current_level := current_level st;
     current_level_name := current_level_name st;
     current_candidate := None; current_reference := None;
     results := results st ++ [rec] |}.

(* ===================================================================== *)
(** * The extractor: [extract_results] *)

(** The conditions of the [if]/[elif] chain, in the order they are tested. *)
Definition level_shaped (line : string) : bool :=
  contains "Level" line && contains ":" line.
Definition example_shaped (line : string) : bool :=
  startswith line "Example".
Definition candidate_shaped (line : string) : bool :=
  startswith (strip line) "Candidate:".
Definition reference_shaped (line : string) : bool :=
  startswith (strip line) "Reference:".
Definition has_results_label (line : string) : bool :=
  contains "Result:" line || contains "F-Measure:" line.

Section Extractor.
Variable max_str_digits : nat.

(** The body of the loop over the lines: the [if]/[elif] chain. *)
Definition scan_line (st : extractor_state) (line : string)
  : result extractor_state :=
  if level_shaped line then
    match search_level line with
    | Some (num, name) =>
        lv ← py_int max_str_digits num;
        Ok (set_level lv (strip name) st)
    | None => Ok st
    end
  else if example_shaped line then
    tok ← py_index (split_ws line) 1;
    n ← py_int max_str_digits (rstrip_colon tok);
    Ok (set_example n st)
  else if candidate_shaped line then
    rest ← py_index (split1 "Candidate:" line) 1;
    Ok (set_candidate (strip rest) st)
  else if reference_shaped line then
    rest ← py_index (split1 "Reference:" line) 1;
    Ok (set_reference (strip rest) st)
  else if has_results_label line then
    let numbers := findall_decimal line in
    if (3 <=? length numbers)%nat then
      f ← py_index numbers 0 ≫= py_float;
      p ← py_index numbers 1 ≫= py_float;
      r ← py_index numbers 2 ≫= py_float;
      Ok (emit (new_result st f p r) st)
    else Ok st
  else Ok st.

Definition scan_lines (st : extractor_state) (lines : list string)
  : result extractor_state :=
  for_each scan_line st lines.

(** [output.strip().split('\n')] *)
Definition lines_of (output : string) : list string :=
  split_on newline (strip output).

Definition extract_results (output : string) : result (list scenario_result) :=
  st ← scan_lines initial_state (lines_of output);
  Ok (results st).
End Extractor.

Definition nl : string := String newline EmptyString.

Definition sample_text : string :=
  "--- Level 1: Basic Text ---" ++ nl ++ "Example 1:" ++ nl ++
  "Candidate: the cat sat" ++ nl ++ "Reference: the cat sat on the mat" ++ nl ++
  "F-Measure: 0.6000, Precision: 1.0000, Recall: 0.4000".

(* ===================================================================== *)
(** * The [statistics] functions used on the elapsed times *)

(** The library functions on exact rationals: the arithmetic without
    rounding.  Module [Binary64] below has them on floats. *)
Module Statistics.
Local Open Scope Q_scope.

(** [x < y] *)
Definition Qltb (x y : Q) : bool :=
  match x ?= y with Lt => true | _ => false end.

(** [sum(xs)] *)
Definition sum (xs : list Q) : Q := fold_left Qplus xs 0.

(** [len(xs)] as a rational. *)
Definition len (xs : list Q) : Q := inject_Z (Z.of_nat (length xs)).

(** [statistics.mean] *)
Definition mean (xs : list Q) : result Q :=
  match xs with
  | [] => Raise StatisticsError
  | _ :: _ => Ok (sum xs / len xs)
  end.

(** [sorted(xs)]: a stable sort that compares with [<] only. *)
Fixpoint insert_sorted (x : Q) (l : list Q) : list Q :=
  match l with
  | [] => [x]
  | y :: l' => if Qltb y x then y :: insert_sorted x l' else x :: l
  end.

Definition sorted (xs : list Q) : list Q := fold_right insert_sorted [] xs.

(** [statistics.median]: the middle element of the sorted data, or the
    average of the two middle elements. *)
Definition median (xs : list Q) : result Q :=
  let data := sorted xs in
  let n := length data in
  if (n =? 0)%nat then Raise StatisticsError
  else if (n mod 2 =? 1)%nat then py_index data (n / 2)
  else
    let i := (n / 2)%nat in
    a ← py_index data (i - 1);
    b ← py_index data i;
    Ok ((a + b) / 2).

(** [min(xs)]: the first smallest element. *)
Definition py_min (xs : list Q) : result Q :=
  match xs with
  | [] => Raise ValueError
  | x :: xs' => Ok (fold_left (fun m y => if Qltb y m then y else m) xs' x)
  end.

(** [max(xs)]: the first largest element. *)
Definition py_max (xs : list Q) : result Q :=
  match xs with
  | [] => Raise ValueError
  | x :: xs' => Ok (fold_left (fun m y => if Qltb m y then y else m) xs' x)
  end.

(** [statistics.variance]: the sample variance; [statistics.stdev] is its
    square root. *)
Definition variance (xs : list Q) : result Q :=
  if (length xs <? 2)%nat then Raise StatisticsError
  else
    m ← mean xs;
    Ok (sum (map (fun x => (x - m) * (x - m)) xs) / (len xs - 1)).

(** [a / b] *)
Definition div (a b : Q) : result Q :=
  if Qeq_bool b 0 then Raise ZeroDivisionError else Ok (a / b).

End Statistics.

(* ===================================================================== *)
(** * Output *)

(** How a level is named in the summary: the name recorded for it, or the
    default ["Level {level}"]. *)
Inductive level_label : Type :=
| RecordedName (name : option string)
| DefaultName (lv : option Z).

(** The messages the program prints, one constructor per [print] (or group
    of adjacent [print]s), with the values that are formatted into it. *)
Inductive event : Type :=
(* print_statistics *)
| NoTimesRecorded (language : string)
    (* "No valid {language} execution times recorded." *)
| StatisticsHeader (language : string)
| SuccessfulRuns (n : nat)
| AverageTime (t : Q)
| MedianTime (t : Q)
| MinTime (t : Q)
| MaxTime (t : Q)
| StandardDeviation (variance : Q)
    (* "Standard deviation: {stdev}", the square root of [variance] *)
(* compare_results *)
| ComparingBanner            (* "=== COMPARING RESULTS WITH SCENARIOS ===" *)
| AccuracyHeader             (* "Accuracy Comparison by Scenario:" *)
| LevelHeader (lv : Z) (name : option string)
| ExampleHeader (i : nat)
| CandidateLine (text : string)
| ReferenceLine (text : string)
| JavaScores (f p r : float)
| RustScores (f p r : float)
| ResultsMatch               (* "Results match perfectly!" *)
| Differences (f_diff p_diff r_diff : float)
(* main *)
| FinalReportBanner
| PerformanceSummary (java_avg java_median rust_avg rust_median rust_warm_avg : Q)
| RustFaster (speedup : Q)
| JavaFaster (speedup : Q)
| ScenarioSummaryHeader
| LevelSummary (lv : option Z) (name : level_label) (examples : nat)
    (f_scores : list float) (match_rate : float) (matched : nat)
    (* "Average F-Measure" is the mean of [f_scores], [0.0] when empty *)
| OverallSummary (total_examples total_matched : nat) (match_rate : float)
| FMeasureStatistics (all_f_scores : list float)
    (* average, median, min and max of [all_f_scores] *)
| Notes.

(** A computation that prints and may raise: the output so far, and the
    outcome. *)
Definition io (A : Type) : Type := (list event * result A)%type.

#[global] Instance io_ret : MRet io := fun A a => ([], Ok a).
#[global] Instance io_bind : MBind io := fun A B f m =>
  match m with
  | (out, Ok a) => let '(out', r) := f a in ((out ++ out')%list, r)
  | (out, Raise e) => (out, Raise e)
  end.

Definition print (e : event) : io unit := ([e], Ok tt).
Definition lift {A} (r : result A) : io A := ([], r).
Definition output {A} (m : io A) : list event := fst m.
Definition outcome {A} (m : io A) : result A := snd m.

(* ===================================================================== *)
(** * The aggregator: [print_statistics] *)

Import Statistics.

Definition print_statistics (times : list Q) (language : string) : io unit :=
  match times with
  | [] => print (NoTimesRecorded language)
  | _ :: _ =>
      print (StatisticsHeader language);;
      print (SuccessfulRuns (length times));;
      avg ← lift (mean times); print (AverageTime avg);;
      med ← lift (median times); print (MedianTime med);;
      lo ← lift (py_min times); print (MinTime lo);;
      hi ← lift (py_max times); print (MaxTime hi);;
      if (1 <? length times)%nat
      then var ← lift (variance times); print (StandardDeviation var)
      else mret tt
  end.

(* ===================================================================== *)
(** * The comparator: [compare_results] *)

(** [abs(a - b)] *)
Definition abs_diff (a b : float) : float := PrimFloat.abs (PrimFloat.sub a b).

(** The literal [0.0001]: the binary64 float nearest to it. *)
Definition tolerance : float := 0x1.a36e2eb1c432dp-14%float.

(** [d < 0.0001] *)
Definition below_tolerance (d : float) : bool := PrimFloat.ltb d tolerance.

(** The test of line 222: all three differences are below the tolerance. *)
Definition results_match (j_res r_res : scenario_result) : bool :=
  below_tolerance (abs_diff (f_measure j_res) (f_measure r_res))
  && below_tolerance (abs_diff (precision j_res) (precision r_res))
  && below_tolerance (abs_diff (recall j_res) (recall r_res)).

(** [if res.get(key): print(preview)]: a snippet is shown when it is neither
    [None] nor empty, cut to 60 characters. *)
Definition snippet_line (mk : string -> event) (snippet : option string)
  : list event :=
  match snippet with
  | Some s => if nonempty s then [mk (preview 60 s)] else []
  | None => []
  end.

(** One iteration of the loop over the aligned pairs: what it prints. *)
Definition compare_pair (current_level : option Z) (i : nat)
    (j_res r_res : scenario_result) : list event :=
  (match level j_res with
   | Some lv =>
       if decide (level j_res ≠ current_level)
       then [LevelHeader lv (level_name j_res)] else []
   | None => []
   end ++
   [ExampleHeader i] ++
   snippet_line CandidateLine (candidate j_res) ++
   snippet_line ReferenceLine (reference j_res) ++
   [JavaScores (f_measure j_res) (precision j_res) (recall j_res);
    RustScores (f_measure r_res) (precision r_res) (recall r_res)] ++
   [if results_match j_res r_res then ResultsMatch
    else Differences (abs_diff (f_measure j_res) (f_measure r_res))
                     (abs_diff (precision j_res) (precision r_res))
                     (abs_diff (recall j_res) (recall r_res))])%list.

(** [current_level] after the iteration. *)
Definition next_level (current_level : option Z) (j_res : scenario_result)
  : option Z :=
  match level j_res with
  | Some lv => Some lv
  | None => current_level
  end.

(** The loop [for i, (j_res, r_res) in enumerate(zip(...), 1)]. *)
Fixpoint compare_pairs (current_level : option Z) (i : nat)
    (pairs : list (scenario_result * scenario_result)) : list event :=
  match pairs with
  | [] => []
  | (j_res, r_res) :: rest =>
      (compare_pair current_level i j_res r_res ++
       compare_pairs (next_level current_level j_res) (S i) rest)%list
  end.

(** Lines 194-230: the comparison of the two extracted sequences. *)
Definition accuracy_comparison (java_results rust_results : list scenario_result)
  : io (list scenario_result * list scenario_result) :=
  print AccuracyHeader;;
  if decide (length java_results = length rust_results) then
    (compare_pairs None 1 (zip java_results rust_results), Ok tt);;
    mret (java_results, rust_results)
  else mret ([], []).

Section Comparator.
Variable max_str_digits : nat.

(** [compare_results], given the output each program printed. *)
Definition compare_results (java_stdout rust_stdout : string)
  : io (list scenario_result * list scenario_result) :=
  print ComparingBanner;;
  java_results ← lift (extract_results max_str_digits java_stdout);
  rust_results ← lift (extract_results max_str_digits rust_stdout);
  accuracy_comparison java_results rust_results.
End Comparator.

(* ===================================================================== *)
(** * The report of [main] *)

(** The values of the dictionary [level_stats]. *)
Record level_stat : Type := {
  count : nat;
  f_scores : list float;
  matched : nat
}.

(** The factory of the [defaultdict]. *)
Definition new_level_stat : level_stat :=
  {| count := 0; f_scores := []; matched := 0 |}.

(** The body of the loop of lines 308-317. *)
Definition update_level_stats (level_stats : gmap (option Z) level_stat)
    (pair : scenario_result * scenario_result) : gmap (option Z) level_stat :=
  let '(j_res, r_res) := pair in
  let lv := level j_res in
  let s := default new_level_stat (level_stats !! lv) in
  let f_diff := abs_diff (f_measure j_res) (f_measure r_res) in
  <[lv := {| count := S (count s);
             f_scores := f_scores s ++ [f_measure j_res];
             matched := if below_tolerance f_diff then S (matched s)
                        else matched s |}]> level_stats.

Definition build_level_stats (java_results rust_results : list scenario_result)
  : gmap (option Z) level_stat :=
  fold_left update_level_stats (zip java_results rust_results) ∅.

(** The loop of lines 320-324: the first name seen for each non-zero
    level. *)
Definition update_level_names (level_names : gmap Z (option string))
    (j_res : scenario_result) : gmap Z (option string) :=
  match level j_res with
  | Some lv =>
      if decide (lv ≠ 0 ∧ level_names !! lv = None)
      then <[lv := level_name j_res]> level_names
      else level_names
  | None => level_names
  end.

Definition build_level_names (java_results : list scenario_result)
  : gmap Z (option string) :=
  fold_left update_level_names java_results ∅.

(** [level_names.get(level, f'Level {level}')] *)
Definition label_of (level_names : gmap Z (option string)) (lv : option Z)
  : level_label :=
  match lv ≫= fun z => level_names !! z with
  | Some name => RecordedName name
  | None => DefaultName lv
  end.

(** The order of the keys: [None] cannot be compared with an [int]. *)
Definition level_le (a b : option Z) : Prop :=
  match a, b with
  | Some x, Some y => x ≤ y
  | None, _ => True
  | Some _, None => False
  end.

#[global] Instance level_le_dec a b : Decision (level_le a b).
Proof. destruct a, b; simpl; apply _. Defined.

(** [sorted(level_stats.keys())]: a [TypeError] when [None] has to be
    compared with a number. *)
Definition sorted_levels (level_stats : gmap (option Z) level_stat)
  : result (list (option Z)) :=
  let keys := (map_to_list level_stats).*1 in
  if decide (None ∈ keys ∧ (2 ≤ length keys)%nat) then Raise TypeError
  else Ok (merge_sort level_le keys).

(** [(matched / count * 100) if count > 0 else 0.0] *)
Definition match_rate (matched count : nat) : float :=
  match py_truediv matched count with
  | Ok q => PrimFloat.mul q 100%float
  | Raise _ => PrimFloat.zero
  end.

(** [sum(s['matched'] for s in level_stats.values())] and the same for
    ['count']. *)
Definition total_matched (level_stats : gmap (option Z) level_stat) : nat :=
  map_fold (fun _ s acc => (matched s + acc)%nat) 0%nat level_stats.

Definition total_examples (level_stats : gmap (option Z) level_stat) : nat :=
  map_fold (fun _ s acc => (count s + acc)%nat) 0%nat level_stats.

Definition overall_match_rate (level_stats : gmap (option Z) level_stat) : float :=
  match_rate (total_matched level_stats) (total_examples level_stats).

Definition level_summary (level_stats : gmap (option Z) level_stat)
    (level_names : gmap Z (option string)) (lv : option Z) : list event :=
  match level_stats !! lv with
  | Some stats =>
      [LevelSummary lv (label_of level_names lv) (count stats) (f_scores stats)
         (match_rate (matched stats) (count stats)) (matched stats)]
  | None => []
  end.

(** Lines 303-350. *)
Definition scenario_summary (java_results rust_results : list scenario_result)
  : io unit :=
  match java_results, rust_results with
  | _ :: _, _ :: _ =>
      print ScenarioSummaryHeader;;
      let level_stats := build_level_stats java_results rust_results in
      let level_names := build_level_names java_results in
      levels ← lift (sorted_levels level_stats);
      (levels ≫= level_summary level_stats level_names, Ok tt);;
      print (OverallSummary (total_examples level_stats)
               (total_matched level_stats) (overall_match_rate level_stats));;
      print (FMeasureStatistics (f_measure <$> java_results))
  | _, _ => mret tt
  end.

(** Lines 279-300. *)
Definition performance_summary (java_times rust_times : list Q) : io unit :=
  match java_times, rust_times with
  | _ :: _, _ :: _ =>
      java_avg ← lift (mean java_times);
      rust_avg ← lift (mean rust_times);
      java_median ← lift (median java_times);
      rust_median ← lift (median rust_times);
      let rust_warm_times :=
        if (1 <? length rust_times)%nat then drop 1 rust_times else rust_times in
      rust_warm_avg ← lift (match rust_warm_times with
                            | [] => Ok rust_avg
                            | _ :: _ => mean rust_warm_times
                            end);
      print (PerformanceSummary java_avg java_median rust_avg rust_median
               rust_warm_avg);;
      if Qltb rust_warm_avg java_avg then
        speedup ← lift (div java_avg rust_warm_avg);
        print (RustFaster speedup)
      else
        speedup ← lift (div rust_warm_avg java_avg);
        print (JavaFaster speedup)
  | _, _ => mret tt
  end.

Section Main.
Variable max_str_digits : nat.

(** [main] from line 266 on.  The builds and the timed runs are external:
    they provide the elapsed times of the successful runs and, inside
    [compare_results], the output each program printed. *)
Definition main (java_times rust_times : list Q)
    (java_stdout rust_stdout : string) : io unit :=
  print_statistics java_times "Java";;
  print_statistics rust_times "Rust";;
  '(java_results, rust_results) ←
    compare_results max_str_digits java_stdout rust_stdout;
  print FinalReportBanner;;
  performance_summary java_times rust_times;;
  scenario_summary java_results rust_results;;
  print Notes.
End Main.


(* ===================================================================== *)
(** * Predicates and inputs used in the statements *)

(** The line reaches the last [elif]: it carries a results label and none
    of the four earlier conditions holds. *)
Definition is_results_line (line : string) : bool :=
  negb (level_shaped line) && negb (example_shaped line)
  && negb (candidate_shaped line) && negb (reference_shaped line)
  && has_results_label line.

(** The line updates the level: the first condition holds and the pattern
    is found. *)
Definition is_level_line (line : string) : bool :=
  level_shaped line && bool_decide (is_Some (search_level line)).

(** The line reaches the second condition. *)
Definition is_example_line (line : string) : bool :=
  negb (level_shaped line) && example_shaped line.

(** The two conversions of markers that can raise: the level number of a
    level line, and the ordinal of an example line, which has to be there
    and to be an integer. *)
Definition marker_ok (max_str_digits : nat) (line : string) : bool :=
  if level_shaped line then
    match search_level line with
    | Some (num, _) => is_ok (py_int max_str_digits num)
    | None => true
    end
  else if example_shaped line then
    match split_ws line with
    | _ :: tok :: _ => is_ok (py_int max_str_digits (rstrip_colon tok))
    | _ => false
    end
  else true.

(** A matched text of [\d+\.\d+]: digits, a dot, digits. *)
Definition is_decimal_literal (m : string) : Prop :=
  ∃ ip fp : string,
    m = ip ++ "." ++ fp ∧ nonempty ip = true ∧ nonempty fp = true
    ∧ span is_digit ip = (ip, "") ∧ span is_digit fp = (fp, "").

(** [rec] is a record that the results line [line] yields in the context
    [st]: the scores are the first three matches of the line, in textual
    order, and the level and example fields are the running context. *)
Definition record_of_line (st : extractor_state) (line : string)
    (rec : scenario_result) : Prop :=
  (∃ a b c rest,
      findall_decimal line = a :: b :: c :: rest
      ∧ py_float a = Ok (f_measure rec) ∧ py_float b = Ok (precision rec)
      ∧ py_float c = Ok (recall rec))
  ∧ example_num rec = current_example st
  ∧ level rec = current_level st
  ∧ level_name rec = current_level_name st.

(** The matched/unmatched verdicts printed by the comparison, in order. *)
Definition classification (out : list event) : list bool :=
  omap (fun e => match e with
                 | ResultsMatch => Some true
                 | Differences _ _ _ => Some false
                 | _ => None
                 end) out.

(** The effect of one line on the state, by the branch that was taken. *)
Inductive line_effect (st : extractor_state) (line : string)
  : extractor_state → Prop :=
| effect_none : line_effect st line st
| effect_level lv name :
    is_level_line line = true → line_effect st line (set_level lv name st)
| effect_example n :
    is_example_line line = true → line_effect st line (set_example n st)
| effect_candidate c : line_effect st line (set_candidate c st)
| effect_reference r : line_effect st line (set_reference r st)
| effect_result f p r :
    is_results_line line = true →
    line_effect st line (emit (new_result st f p r) st).

(** The test of line 316: the primary scores are within the tolerance. *)
Definition f_close (pair : scenario_result * scenario_result) : bool :=
  below_tolerance (abs_diff (f_measure pair.1) (f_measure pair.2)).

(** The sum of one field over the values of [level_stats]. *)
Definition total (g : level_stat → nat) (m : gmap (option Z) level_stat) : nat :=
  map_fold (fun _ s acc => (g s + acc)%nat) 0%nat m.

(** ** Inputs *)

(** One example whose scores are printed twice, by a [Result:] line and by
    an [F-Measure:] line. *)
Definition two_results_text : string :=
  "--- Level 1: Basic Text ---" ++ nl ++ "Example 1:" ++ nl ++
  "Candidate: the cat sat" ++ nl ++ "Reference: the cat sat on the mat" ++ nl ++
  "Result: 0.5000, 0.5000, 0.5000" ++ nl ++
  "F-Measure: 0.6000, Precision: 1.0000, Recall: 0.4000".


(** A candidate snippet that quotes a results label and three scores. *)
Definition labelled_snippet_line : string :=
  "Candidate: F-Measure: 0.5000, 0.2500, 1.0000".

(** The output of the sample with another precision. *)
Definition sample_text_b : string :=
  "--- Level 1: Basic Text ---" ++ nl ++ "Example 1:" ++ nl ++
  "Candidate: the cat sat" ++ nl ++ "Reference: the cat sat on the mat" ++ nl ++
  "F-Measure: 0.6000, Precision: 0.9000, Recall: 0.4000".


(* ===================================================================== *)
(** * The builds and the timed runs *)

(** What [subprocess.run(..., capture_output=True, text=True)] returns. *)
Record completed_process : Type := {
  returncode : Z;
  stdout : string;
  stderr : string
}.

(** One timed call: the two readings of [time.time()] around it, in
    seconds, and the process it ran. *)
Record timed_run : Type := {
  start : Q;
  finish : Q;
  process : completed_process
}.

(** The messages of [compile_java], [compile_rust], [run_java], [run_rust]
    and of the first lines of [main]. *)
Inductive runner_event : Type :=
| Title                                  (* the three title lines of [main] *)
| SourceNotFound (language : string)     (* "Error: {path} not found" *)
| Compiling (language : string)
| CompilationFailed (language : string) (stderr : string)
| CompilationSuccessful (language : string)
| FailedToCompile (language : string)    (* "Failed to compile {language}. Exiting." *)
| NotCompiled (language : string)        (* "... not found. Please compile first." *)
| Running (language : string) (iterations : nat)
| IterationTime (i : nat) (ms : Q)
| IterationFailed (i : nat) (stderr : string).

(** [compile_java] and [compile_rust], which differ in the names only:
    [source_exists] is the test on the source file or directory and [build]
    is what the compiler returns when it is run. *)
Definition compile (language : string) (source_exists : bool)
    (build : completed_process) : list runner_event * bool :=
  if source_exists then
    if decide (returncode build ≠ 0)
    then ([Compiling language; CompilationFailed language (stderr build)], false)
    else ([Compiling language; CompilationSuccessful language], true)
  else ([SourceNotFound language], false).

Definition compile_java := compile "Java".
Definition compile_rust := compile "Rust".

(** [(end - start) * 1000] *)
Definition elapsed_ms (r : timed_run) : Q := ((finish r - start r) * (1000 # 1))%Q.

(** The loop [for i in range(iterations)] of [run_java] and [run_rust],
    from iteration [i] on, with [n] iterations left: [runs i] is the [i]-th
    timed call. *)
Fixpoint run_iterations (runs : nat → timed_run) (i n : nat) (times : list Q)
  : list runner_event * list Q :=
  match n with
  | O => ([], times)
  | S n' =>
      let r := runs i in
      if decide (returncode (process r) = 0) then
        let '(out, ts) :=
          run_iterations runs (S i) n' (times ++ [elapsed_ms r])%list in
        (IterationTime (S i) (elapsed_ms r) :: out, ts)
      else
        let '(out, ts) := run_iterations runs (S i) n' times in
        (IterationFailed (S i) (stderr (process r)) :: out, ts)
  end.

(** [run_java] and [run_rust], which differ in the names only:
    [binary_exists] is the test on the class file or the binary. *)
Definition run (language : string) (iterations : nat) (binary_exists : bool)
    (runs : nat → timed_run) : list runner_event * list Q :=
  if binary_exists then
    let '(out, times) := run_iterations runs 0 iterations [] in
    (Running language iterations :: out, times)
  else ([NotCompiled language], []).

Definition run_java := run "Java".
Definition run_rust := run "Rust".

(** What the program meets outside: the files it tests, and the processes
    it starts with what they return.  The tools [javac], [cargo] and [java]
    are taken to be installed, so that their calls return; the Rust binary
    is a file of the project, which is there or not. *)
Record world : Type := {
  java_file_exists : bool;
  javac : completed_process;
  rust_dir_exists : bool;
  cargo_build : completed_process;
  java_class_exists : bool;
  java_runs : nat → timed_run;
  rust_binary_exists : bool;
  rust_runs : nat → timed_run;
  java_final : completed_process;     (* the run inside [compare_results] *)
  rust_final : completed_process
}.

(** The output of the whole program: the messages of the builds and runs,
    then those of the report. *)
Inductive program_event : Type :=
| Runner (e : runner_event)
| Report (e : event).

(** [subprocess.run] on a program file: the completed process, or
    [FileNotFoundError] when the file is not there. *)
Definition start_process (file_exists : bool) (p : completed_process)
  : result completed_process :=
  if file_exists then Ok p else Raise FileNotFoundError.

(** [main] from line 266 on, with the two processes that [compare_results]
    starts after its banner and before it extracts anything: [java], and
    then the Rust binary, which [compare_results] does not test for. *)
Definition main_with_runs (max_str_digits : nat) (java_times rust_times : list Q)
    (java_result rust_result : result completed_process) : io unit :=
  match java_result, rust_result with
  | Ok java_result, Ok rust_result =>
      main max_str_digits java_times rust_times
        (stdout java_result) (stdout rust_result)
  | Raise e, _ | Ok _, Raise e =>
      print_statistics java_times "Java";;
      print_statistics rust_times "Rust";;
      print ComparingBanner;;
      lift (Raise e)
  end.

(** [main] from its first line: the title, the two builds, the timed runs
    with [iterations = 10], and then [main] as above. *)
Definition main_from_start (max_str_digits : nat) (w : world)
  : list program_event * result unit :=
  let '(out_j, ok_j) := compile_java (java_file_exists w) (javac w) in
  if negb ok_j then
    (Runner <$> (Title :: out_j ++ [FailedToCompile "Java"])%list, Ok tt)
  else
    let '(out_r, ok_r) := compile_rust (rust_dir_exists w) (cargo_build w) in
    if negb ok_r then
      (Runner <$> (Title :: out_j ++ out_r ++ [FailedToCompile "Rust"])%list, Ok tt)
    else
      let '(out_rj, java_times) := run_java 10 (java_class_exists w) (java_runs w) in
      let '(out_rr, rust_times) := run_rust 10 (rust_binary_exists w) (rust_runs w) in
      let '(out_m, r) :=
        main_with_runs max_str_digits java_times rust_times
          (Ok (java_final w))
          (start_process (rust_binary_exists w) (rust_final w)) in
      (((Runner <$> (Title :: out_j ++ out_r ++ out_rj ++ out_rr))
          ++ (Report <$> out_m))%list, r).

(* ===================================================================== *)
(** * More predicates used in the statements *)

(** A results line that emits a record. *)
Definition numeric_results_line (line : string) : bool :=
  is_results_line line && (3 <=? length (findall_decimal line))%nat.

(** The line reaches the third, respectively the fourth condition. *)
Definition is_candidate_line (line : string) : bool :=
  negb (level_shaped line) && negb (example_shaped line)
  && candidate_shaped line.
Definition is_reference_line (line : string) : bool :=
  negb (level_shaped line) && negb (example_shaped line)
  && negb (candidate_shaped line) && reference_shaped line.

(** The numbers of the "Example {i}:" lines printed by the comparison. *)
Definition example_numbers (out : list event) : list nat :=
  omap (fun e => match e with ExampleHeader i => Some i | _ => None end) out.

(** The level headers printed by the comparison. *)
Definition level_headers (out : list event) : list (Z * option string) :=
  omap (fun e => match e with
                 | LevelHeader lv name => Some (lv, name)
                 | _ => None
                 end) out.




(** A float that is neither an infinity nor a NaN. *)
Definition finite_float (x : float) : bool :=
  match Prim2SF x with
  | S754_zero _ | S754_finite _ _ _ => true
  | S754_infinity _ | S754_nan => false
  end.

(** The pairs of [zip] whose Java record has the level [lv]. *)
Definition pairs_of_level (lv : option Z)
    (pairs : list (scenario_result * scenario_result))
  : list (scenario_result * scenario_result) :=
  filter (fun p => level p.1 = lv) pairs.

(** The shape of the snippets of the records appended over lines that set
    no snippet: the first record has the snippet that was pending, the
    later ones have none. *)
Definition snippet_once {A} (pending : option A) (proj : scenario_result → option A)
    (final : option A) (recs : list scenario_result) : Prop :=
  match recs with
  | [] => final = pending
  | r :: rs => proj r = pending ∧ Forall (fun r' => proj r' = None) rs
               ∧ final = None
  end.

(** The entry of [level_stats] after one more pair of its level. *)
Definition bump_level_stat (s : level_stat)
    (p : scenario_result * scenario_result) : level_stat :=
  {| count := S (count s);
     f_scores := f_scores s ++ [f_measure p.1];
     matched := if f_close p then S (matched s) else matched s |}.

(** The entry that a list of pairs of one level adds up to. *)
Definition stat_of_pairs (pairs : list (scenario_result * scenario_result))
  : level_stat :=
  {| count := length pairs;
     f_scores := (fun p => f_measure p.1) <$> pairs;
     matched := length (filter (fun p => f_close p = true) pairs) |}.

(** The Java records that are compared have a record without level and a
    record with one. *)
Definition mixed_levels (pairs : list (scenario_result * scenario_result)) : Prop :=
  (∃ p, p ∈ pairs ∧ level p.1 = None) ∧ (∃ p, p ∈ pairs ∧ level p.1 ≠ None).

(** The samples of Rust that count as warm: all but the first, or the only
    one. *)
Definition rust_warm_times (rust_times : list Q) : list Q :=
  if (1 <? length rust_times)%nat then drop 1 rust_times else rust_times.

(** The iteration exited with code 0. *)
Definition succeeded (r : timed_run) : Prop := returncode (process r) = 0.

(** The line printed for iteration [k] (counted from 0). *)
Definition iteration_event (runs : nat → timed_run) (k : nat) : runner_event :=
  if decide (succeeded (runs k))
  then IterationTime (S k) (elapsed_ms (runs k))
  else IterationFailed (S k) (stderr (process (runs k))).


(** No two headers that follow one another name the same level. *)
Definition adjacent_distinct (levels : list Z) : Prop :=
  ∀ k a b, levels !! k = Some a → levels !! S k = Some b → a ≠ b.

(* ===================================================================== *)
(** * The statistics on binary64 floats *)

Module Binary64.

(** [2 ** e] *)
Definition bpow (e : Z) : Q := (2 ^ e)%Q.

(** The number [m * 2 ** e]. *)
Definition F2Q (m e : Z) : Q := (inject_Z m * bpow e)%Q.

(** The number that a float denotes; the infinities and NaN denote none,
    and are given [0]. *)
Definition SF2Q (f : spec_float) : Q :=
  match f with
  | S754_finite s m e => F2Q (cond_Zopp s (Zpos m)) e
  | _ => 0%Q
  end.

(** [x.as_integer_ratio()], as a rational. *)
Definition exact (x : float) : Q := SF2Q (Prim2SF x).

(** The exponent of the last place of a number below [2 ** e]. *)
Definition fexp64 (e : Z) : Z := fexp prec emax e.

(** [g] is a number of the format, not necessarily in range: it is
    [m * 2 ** e] with [e] at or above the exponent of its last place. *)
Definition in_format (g : Q) : Prop :=
  ∃ m e : Z, (g == F2Q m e)%Q ∧ fexp64 (Zdigits2 m + e) ≤ e.

(** [t] lies in the unit interval that starts at [m], at the place [l]
    says. *)
Definition located (m : Z) (l : location) (t : Q) : Prop :=
  match l with
  | loc_Exact => (t == inject_Z m)%Q
  | loc_Inexact Lt => (inject_Z m < t ∧ t < inject_Z m + (1 # 2))%Q
  | loc_Inexact Eq => (t == inject_Z m + (1 # 2))%Q
  | loc_Inexact Gt => (inject_Z m + (1 # 2) < t ∧ t < inject_Z m + 1)%Q
  end.

(** A float that denotes a number: a zero or a finite float. *)
Definition SFfinite (f : spec_float) : bool :=
  match f with
  | S754_zero _ | S754_finite _ _ _ => true
  | S754_infinity _ | S754_nan => false
  end.

(** ** The statistics of the elapsed times, in the arithmetic of the
    interpreter *)

(** [float(q)] for a fraction [q] in the range of the floats:
    [numerator / denominator], correctly rounded; the sign is that of the
    numerator. *)
Definition float_of_Q (q : Q) : float :=
  match Qnum q with
  | Z0 => PrimFloat.zero
  | Zpos p => Conv.float_of_ratio (Npos p) (Qden q)
  | Zneg p => PrimFloat.opp (Conv.float_of_ratio (Npos p) (Qden q))
  end.

(** [float(n)] for a count. *)
Definition float_of_nat (n : nat) : float :=
  Conv.float_of_ratio (N.of_nat n) 1.

(** [statistics.mean] on floats.  The library adds the samples as exact
    fractions, divides by their number and converts the quotient to a
    float, which rounds once; a quotient too large for a float would raise
    [OverflowError].  When some samples are infinities or NaNs, it adds
    those alone, as floats, and divides the sum by the number of samples. *)
Definition mean (xs : list float) : result float :=
  match xs with
  | [] => Raise StatisticsError
  | _ :: _ =>
      match filter (fun x => finite_float x = false) xs with
      | [] =>
          q ← Statistics.mean (exact <$> xs);
          let r := float_of_Q q in
          if finite_float r then Ok r else Raise OverflowError
      | y :: ys =>
          Ok (fold_left PrimFloat.add ys y / float_of_nat (length xs))%float
      end
  end.

(** [sorted(xs)] on floats, none of which is a NaN: a stable sort that
    compares with [<] only.  (With NaNs among the data the order that
    [sorted] returns depends on its algorithm and is not modelled.) *)
Fixpoint insert_sorted (x : float) (l : list float) : list float :=
  match l with
  | [] => [x]
  | y :: l' => if (y <? x)%float then y :: insert_sorted x l' else x :: l
  end.

Definition sorted (xs : list float) : list float :=
  fold_right insert_sorted [] xs.

(** [statistics.median] on floats: the middle element of the sorted data,
    or [(a + b) / 2] for the two middle elements, in float arithmetic. *)
Definition median (xs : list float) : result float :=
  let data := sorted xs in
  let n := length data in
  if (n =? 0)%nat then Raise StatisticsError
  else if (n mod 2 =? 1)%nat then py_index data (n / 2)
  else
    let i := (n / 2)%nat in
    a ← py_index data (i - 1);
    b ← py_index data i;
    Ok ((a + b) / 2)%float.

(** [min(xs)] and [max(xs)]: the first smallest and the first largest
    element. *)
Definition py_min (xs : list float) : result float :=
  match xs with
  | [] => Raise ValueError
  | x :: xs' => Ok (fold_left (fun m y => if (y <? m)%float then y else m) xs' x)
  end.

Definition py_max (xs : list float) : result float :=
  match xs with
  | [] => Raise ValueError
  | x :: xs' => Ok (fold_left (fun m y => if (m <? y)%float then y else m) xs' x)
  end.

(** The lines that [print_statistics] prints up to line 243, with the
    floats that are formatted into them. *)
Inductive line : Type :=
| NoTimes (language : string)
| Header (language : string)
| Runs (n : nat)
| Average (t : float)
| Median (t : float)
| Min (t : float)
| Max (t : float).

(** [print(f"... {value}")], followed by the rest: the value is computed
    first, and an exception of it ends the function. *)
Definition print_value (mk : float → line) (value : result float)
    (rest : list line * result unit) : list line * result unit :=
  match value with
  | Ok t => (mk t :: rest.1, rest.2)
  | Raise e => ([], Raise e)
  end.

(** [print_statistics] on floats, lines 232 to 243: the no-data line, or
    the header, the count and the four statistics.  The standard deviation
    line, which follows for two samples or more, is left out. *)
Definition print_statistics_head (times : list float) (language : string)
  : list line * result unit :=
  match times with
  | [] => ([NoTimes language], Ok tt)
  | _ :: _ =>
      let '(out, r) :=
        print_value Average (mean times)
          (print_value Median (median times)
             (print_value Min (py_min times)
                (print_value Max (py_max times) ([], Ok tt)))) in
      (Header language :: Runs (length times) :: out, r)
  end.

(** The bound under which the sum of two samples cannot overflow:
    [abs(t) < 2.0 ** 1023]. *)
Definition below_half_max (t : float) : bool :=
  (PrimFloat.abs t <? 0x1p1023)%float.

End Binary64.

(* ===================================================================== *)
(** * Facts about the string primitives *)

Module StrFacts.








Lemma append_cons c (a b : string) : String c a ++ b = String c (a ++ b).
Proof. reflexivity. Qed.

Lemma span_eq f s a b : span f s = (a, b) → s = a ++ b.
Proof.
  revert a b. induction s as [|c s IH]; simpl; intros a b.
  - intros [= <- <-]. done.
  - destruct (f c).
    + destruct (span f s) as [a' b']. intros [= <- <-].
      rewrite append_cons. f_equal. by apply IH.
    + intros [= <- <-]. done.
Qed.

(** The prefix [span] returns is a run: spanning it again returns all of
    it. *)
Lemma span_fst_run f s a b : span f s = (a, b) → span f a = (a, "").
Proof.
  revert a b. induction s as [|c s IH]; simpl; intros a b.
  - intros [= <- <-]. done.
  - destruct (f c) eqn:Ec.
    + destruct (span f s) as [a' b'] eqn:E. intros [= <- <-].
      simpl. rewrite Ec, (IH _ _ eq_refl). done.
    + intros [= <- <-]. done.
Qed.

(** A run followed by a character outside the class is found again by
    [span]. *)
Lemma span_run_app f a c r :
  span f a = (a, "") → f c = false → span f (a ++ String c r) = (a, String c r).
Proof.
  induction a as [|d a IH]; intros H Hc.
  - simpl. by rewrite Hc.
  - rewrite append_cons. simpl in *. destruct (f d); [|done].
    destruct (span f a) as [a' b'] eqn:E. injection H as -> ->.
    rewrite (IH eq_refl Hc). done.
Qed.

End StrFacts.

(* ===================================================================== *)
(** * Facts about the patterns and the conversions *)

Module RegexFacts.
Import StrFacts.

Lemma match_decimal_at_literal s m :
  match_decimal_at s = Some m → is_decimal_literal m.
Proof.
  unfold match_decimal_at.
  destruct (span is_digit s) as [ip r] eqn:E1.
  destruct (nonempty ip) eqn:N1; [|done].
  destruct r as [|c r']; [done|].
  destruct (Ascii.eqb_spec c ".") as [->|Hc].
  - destruct (span is_digit r') as [fp r''] eqn:E2.
    destruct (nonempty fp) eqn:N2; [|done].
    intros [= <-]. exists ip, fp.
    repeat split; eauto using span_fst_run.
  - intros H. exfalso. revert H.
    destruct c as [[] [] [] [] [] [] [] []]; done.
Qed.

Lemma findall_from_literals k s :
  Forall is_decimal_literal (findall_from k s).
Proof.
  revert k. induction s as [|c s IH]; intros k; simpl; [constructor|].
  destruct k; [|apply IH].
  destruct (match_decimal_at (String c s)) eqn:E; [|apply IH].
  constructor; [|apply IH]. eapply match_decimal_at_literal, E.
Qed.

(** Every match of [re.findall(r'\d+\.\d+', s)] has the form digits, dot,
    digits. *)
Lemma findall_decimal_literals s :
  Forall is_decimal_literal (findall_decimal s).
Proof. apply findall_from_literals. Qed.

(** [float] succeeds on every such match. *)
Lemma py_float_literal m : is_decimal_literal m → ∃ x, py_float m = Ok x.
Proof.
  intros (ip & fp & -> & N1 & N2 & R1 & R2).
  unfold py_float. change ("." ++ fp) with (String "." fp).
  rewrite (span_run_app is_digit ip "." fp R1 eq_refl).
  rewrite N1, N2, R2. simpl. eauto.
Qed.

End RegexFacts.

(* ===================================================================== *)
(** * Facts about the extractor *)

Module ExtractorFacts.
Import StrFacts RegexFacts.


Lemma is_results_line_branches line :
  is_results_line line = true →
  level_shaped line = false ∧ example_shaped line = false
  ∧ candidate_shaped line = false ∧ reference_shaped line = false
  ∧ has_results_label line = true.
Proof.
  unfold is_results_line. rewrite !andb_true_iff, !negb_true_iff. tauto.
Qed.

Section WithLimit.
Variable max_str_digits : nat.

(** On a results line with three matches or more, the record is appended
    and the snippets are cleared. *)
Lemma scan_results_triple st line a b c rest :
  is_results_line line = true →
  findall_decimal line = a :: b :: c :: rest →
  ∃ f p r, py_float a = Ok f ∧ py_float b = Ok p ∧ py_float c = Ok r
           ∧ scan_line max_str_digits st line = Ok (emit (new_result st f p r) st).
Proof.
  intros (HL & HE & HC & HR & HF)%is_results_line_branches Hn.
  pose proof (findall_decimal_literals line) as Hlit. rewrite Hn in Hlit.
  inversion Hlit as [|? ? La Hlit1]; subst.
  inversion Hlit1 as [|? ? Lb Hlit2]; subst.
  inversion Hlit2 as [|? ? Lc _]; subst.
  destruct (py_float_literal _ La) as [f Hf].
  destruct (py_float_literal _ Lb) as [p Hp].
  destruct (py_float_literal _ Lc) as [r Hr].
  exists f, p, r. repeat split; try done.
  unfold scan_line. rewrite HL, HE, HC, HR, HF, Hn. simpl.
  rewrite Hf, Hp, Hr. done.
Qed.

(** On a results line with fewer than three matches nothing happens. *)
Lemma scan_results_short st line :
  is_results_line line = true →
  (length (findall_decimal line) < 3)%nat →
  scan_line max_str_digits st line = Ok st.
Proof.
  intros (HL & HE & HC & HR & HF)%is_results_line_branches Hn.
  unfold scan_line. rewrite HL, HE, HC, HR, HF.
  destruct (3 <=? length (findall_decimal line))%nat eqn:E; [|done].
  apply Nat.leb_le in E. lia.
Qed.




Lemma scan_line_effect st line st' :
  scan_line max_str_digits st line = Ok st' → line_effect st line st'.
Proof.
  unfold scan_line.
  destruct (level_shaped line) eqn:HL.
  { destruct (search_level line) as [[num name]|] eqn:Hs.
    - destruct (py_int max_str_digits num); simpl; intros [= <-].
      apply effect_level. unfold is_level_line. by rewrite HL, Hs.
    - intros [= <-]. constructor. }
  destruct (example_shaped line) eqn:HE.
  { destruct (py_index (split_ws line) 1); simpl; [|done].
    destruct (py_int max_str_digits (rstrip_colon a)); simpl; intros [= <-].
    apply effect_example. unfold is_example_line. by rewrite HL, HE. }
  destruct (candidate_shaped line) eqn:HC.
  { destruct (py_index (split1 "Candidate:" line) 1); simpl; intros [= <-].
    constructor. }
  destruct (reference_shaped line) eqn:HR.
  { destruct (py_index (split1 "Reference:" line) 1); simpl; intros [= <-].
    constructor. }
  destruct (has_results_label line) eqn:HF; [|intros [= <-]; constructor].
  destruct (3 <=? length (findall_decimal line))%nat;
    [|intros [= <-]; constructor].
  destruct (py_index (findall_decimal line) 0 ≫= py_float); simpl; [|done].
  destruct (py_index (findall_decimal line) 1 ≫= py_float); simpl; [|done].
  destruct (py_index (findall_decimal line) 2 ≫= py_float); simpl; [|done].
  intros [= <-]. apply effect_result. unfold is_results_line.
  by rewrite HL, HE, HC, HR, HF.
Qed.

(** An invariant of the state that every effect of the lines of [lines]
    preserves holds at the end of the scan. *)
Lemma scan_lines_invariant (I : extractor_state → Prop) lines :
  (∀ st line st', line ∈ lines → I st → line_effect st line st' → I st') →
  ∀ st st', I st → scan_lines max_str_digits st lines = Ok st' → I st'.
Proof.
  unfold scan_lines. induction lines as [|l ls IH]; intros Hstep st st' HI; simpl.
  - by intros [= <-].
  - destruct (scan_line max_str_digits st l) as [st1|] eqn:E; simpl; [|done].
    apply IH.
    + intros ? ? ? Hin. apply Hstep. by right.
    + eapply Hstep; [by left|done|]. by apply scan_line_effect.
Qed.

End WithLimit.
End ExtractorFacts.

(* ===================================================================== *)
(** * The extractor: properties *)

Import StrFacts RegexFacts ExtractorFacts.
Local Open Scope list_scope.

Example float_of_0_6000 : py_float "0.6000" = Ok 0x1.3333333333333p-1%float.
Proof. vm_compute. reflexivity. Qed.

Example findall_skips_integers :
  findall_decimal "Result: 1 0.5 12 0.25 1.2.3 7." = ["0.5"; "0.25"; "1.2"].
Proof. vm_compute. reflexivity. Qed.

(** C3, as the code has it.  On the five lines of the end-to-end scenario
    the extractor yields exactly one record, with level 1, example 1 and
    the scores 0.6, 1.0 and 0.4 (the nearest binary64 floats); the level
    name is the rest of the level line, ["Basic Text ---"], closing dashes
    included. *)
Theorem C3_sample_record (max_str_digits : nat) :
  extract_results max_str_digits sample_text
  = Ok [ {| example_num := Some 1; level := Some 1;
            level_name := Some "Basic Text ---";
            candidate := Some "the cat sat";
            reference := Some "the cat sat on the mat";
            f_measure := 0x1.3333333333333p-1%float;
            precision := 1%float;
            recall := 0x1.999999999999ap-2%float |} ].
Proof. vm_compute. reflexivity. Qed.

(** C3, counterexample: the level name of the record of the scenario is
    not ["Basic Text"]. *)
Lemma C3_level_name_keeps_dashes :
  ∃ rec, extract_results 4300 sample_text = Ok [rec]
         ∧ level_name rec = Some "Basic Text ---"
         ∧ level_name rec ≠ Some "Basic Text".
Proof. eexists. split; [vm_compute; reflexivity|]. split; [reflexivity|discriminate]. Qed.

Lemma record_of_line_new_result st line a b c rest f p r :
  findall_decimal line = a :: b :: c :: rest →
  py_float a = Ok f → py_float b = Ok p → py_float c = Ok r →
  record_of_line st line (new_result st f p r).
Proof. intros Hn Hf Hp Hr. split; [|done]. exists a, b, c, rest. done. Qed.





(** C10, as the code has it.  A line that reaches the results branch (it
    carries a [Result:] or [F-Measure:] label and is none of the earlier
    shapes: level, example, candidate, reference) emits a record
    exactly when it contains three matches or more of digits, dot, digits:
    the record has the first three, in textual order, as primary score,
    precision and recall; with fewer matches nothing is emitted.  Every
    match has a dot between two non-empty digit runs, so a number without a
    fractional part is no match. *)
Theorem C10_results_line_needs_three_decimals (max_str_digits : nat)
    (st : extractor_state) (line : string) :
  is_results_line line = true →
  Forall is_decimal_literal (findall_decimal line)
  ∧ ((3 ≤ length (findall_decimal line))%nat →
     ∃ rec, scan_line max_str_digits st line = Ok (emit rec st)
            ∧ record_of_line st line rec
            ∧ candidate rec = current_candidate st
            ∧ reference rec = current_reference st)
  ∧ ((length (findall_decimal line) < 3)%nat →
     scan_line max_str_digits st line = Ok st).
Proof.
  intros Hres. split; [apply findall_decimal_literals|]. split.
  - intros Hlen.
    destruct (findall_decimal line) as [|a [|b [|c rest]]] eqn:Hn;
      simpl in Hlen; try lia.
    destruct (scan_results_triple max_str_digits st line a b c rest Hres Hn)
      as (f & p & r & Hf & Hp & Hr & Hscan).
    exists (new_result st f p r). split; [done|].
    split; [by eapply record_of_line_new_result|done].
  - by apply scan_results_short.
Qed.

Lemma C10_results_line_needs_three_decimals_witness :
  is_results_line "Result: 1 0.5000 0.2500 2 0.1250 0.7500" = true
  ∧ Forall is_decimal_literal
      (findall_decimal "Result: 1 0.5000 0.2500 2 0.1250 0.7500")
  ∧ ((3 ≤ length (findall_decimal "Result: 1 0.5000 0.2500 2 0.1250 0.7500"))%nat →
     ∃ rec, scan_line 4300 initial_state "Result: 1 0.5000 0.2500 2 0.1250 0.7500"
            = Ok (emit rec initial_state)
            ∧ record_of_line initial_state
                "Result: 1 0.5000 0.2500 2 0.1250 0.7500" rec
            ∧ candidate rec = current_candidate initial_state
            ∧ reference rec = current_reference initial_state)
  ∧ ((length (findall_decimal "Result: 1 0.5000 0.2500 2 0.1250 0.7500") < 3)%nat →
     scan_line 4300 initial_state "Result: 1 0.5000 0.2500 2 0.1250 0.7500"
     = Ok initial_state).
Proof.
  split; [vm_compute; reflexivity|].
  apply C10_results_line_needs_three_decimals. vm_compute. reflexivity.
Defined.

(** C10, counterexample: a line that carries the label and three decimal
    numbers, but starts with "Candidate:", is taken as a snippet and emits
    no record. *)
Lemma C10_labelled_snippet_emits_nothing :
  has_results_label labelled_snippet_line = true
  ∧ length (findall_decimal labelled_snippet_line) = 3%nat
  ∧ scan_line 4300 initial_state labelled_snippet_line
    = Ok (set_candidate "F-Measure: 0.5000, 0.2500, 1.0000" initial_state)
  ∧ extract_results 4300 labelled_snippet_line = Ok [].
Proof. repeat split; vm_compute; reflexivity. Qed.










(** A line that starts with "Example" and also holds "Level" and a colon
    never reaches the example branch: the level branch takes it, finds no
    level pattern in it and leaves the state as it is. *)
Example example_level_line_raises_nothing :
  is_example_line "Example Level: oops" = false
  ∧ marker_ok 4300 "Example Level: oops" = true
  ∧ extract_results 4300 "Example Level: oops" = Ok [].
Proof. repeat split; vm_compute; reflexivity. Qed.

(* ===================================================================== *)
(** * Facts about the statistics *)

Module StatisticsFacts.
Local Open Scope Q_scope.

Lemma Qltb_true x y : Qltb x y = true → x < y.
Proof.
  unfold Qltb. destruct (x ?= y) eqn:E; [done| |done].
  intros _. by apply Qlt_alt.
Qed.

Lemma Qltb_false x y : Qltb x y = false → y <= x.
Proof.
  unfold Qltb. destruct (x ?= y) eqn:E; [|done|]; intros _.
  - apply Qeq_alt in E. rewrite E. apply Qle_refl.
  - apply Qgt_alt in E. by apply Qlt_le_weak.
Qed.

Lemma fold_left_Qplus xs a : fold_left Qplus xs a == a + fold_left Qplus xs 0.
Proof.
  revert a. induction xs as [|x xs IH]; intros a; simpl.
  - ring.
  - rewrite (IH (a + x)), (IH (0 + x)). ring.
Qed.

Lemma sum_cons x xs : sum (x :: xs) == x + sum xs.
Proof. unfold sum. simpl. rewrite fold_left_Qplus. ring. Qed.

Lemma len_cons x xs : len (x :: xs) == 1 + len xs.
Proof.
  unfold len. simpl length.
  rewrite Nat2Z.inj_succ, <- Z.add_1_l, inject_Z_plus. reflexivity.
Qed.

Lemma len_nonneg xs : 0 <= len xs.
Proof. unfold len. change 0 with (inject_Z 0). rewrite <- Zle_Qle. lia. Qed.

Lemma len_pos x xs : 0 < len (x :: xs).
Proof. rewrite len_cons. pose proof (len_nonneg xs). lra. Qed.

Lemma sum_lower lo xs :
  Forall (fun y => lo <= y) xs → len xs * lo <= sum xs.
Proof.
  induction 1 as [|x xs Hx _ IH].
  - change (0 * lo <= 0). lra.
  - rewrite len_cons, sum_cons. lra.
Qed.

Lemma sum_upper hi xs :
  Forall (fun y => y <= hi) xs → sum xs <= len xs * hi.
Proof.
  induction 1 as [|x xs Hx _ IH].
  - change (0 <= 0 * hi). lra.
  - rewrite len_cons, sum_cons. lra.
Qed.

(** The mean of a non-empty list lies between any two bounds of its
    elements. *)
Lemma mean_bounds lo hi x xs :
  Forall (fun y => lo <= y) (x :: xs) → Forall (fun y => y <= hi) (x :: xs) →
  ∃ avg, mean (x :: xs) = Ok avg ∧ lo <= avg ∧ avg <= hi.
Proof.
  intros Hlo Hhi. eexists. split; [reflexivity|].
  pose proof (len_pos x xs) as Hpos.
  apply sum_lower in Hlo. apply sum_upper in Hhi. split.
  - apply Qle_shift_div_l; [done|]. by rewrite Qmult_comm.
  - apply Qle_shift_div_r; [done|]. by rewrite Qmult_comm.
Qed.

Lemma fold_min_spec xs m :
  let lo := fold_left (fun m y => if Qltb y m then y else m) xs m in
  lo <= m ∧ Forall (fun y => lo <= y) xs.
Proof.
  revert m. induction xs as [|y xs IH]; intros m; simpl.
  - split; [apply Qle_refl|constructor].
  - destruct (IH (if Qltb y m then y else m)) as [H1 H2].
    destruct (Qltb y m) eqn:E.
    + apply Qltb_true in E. split; [lra|]. by constructor.
    + apply Qltb_false in E. split; [done|]. constructor; [lra|done].
Qed.

Lemma fold_max_spec xs m :
  let hi := fold_left (fun m y => if Qltb m y then y else m) xs m in
  m <= hi ∧ Forall (fun y => y <= hi) xs.
Proof.
  revert m. induction xs as [|y xs IH]; intros m; simpl.
  - split; [apply Qle_refl|constructor].
  - destruct (IH (if Qltb m y then y else m)) as [H1 H2].
    destruct (Qltb m y) eqn:E.
    + apply Qltb_true in E. split; [lra|]. by constructor.
    + apply Qltb_false in E. split; [done|]. constructor; [lra|done].
Qed.

Lemma py_min_lower x xs :
  ∃ lo, py_min (x :: xs) = Ok lo ∧ Forall (fun y => lo <= y) (x :: xs).
Proof.
  eexists. split; [reflexivity|].
  destruct (fold_min_spec xs x). by constructor.
Qed.

Lemma py_max_upper x xs :
  ∃ hi, py_max (x :: xs) = Ok hi ∧ Forall (fun y => y <= hi) (x :: xs).
Proof.
  eexists. split; [reflexivity|].
  destruct (fold_max_spec xs x). by constructor.
Qed.

Lemma elem_of_insert_sorted x y l : y ∈ insert_sorted x l → y = x ∨ y ∈ l.
Proof.
  induction l as [|z l IH]; simpl.
  - intros ->%list_elem_of_singleton. by left.
  - destruct (Qltb z x).
    + intros [->|H]%elem_of_cons; [right; by left|].
      destruct (IH H); [by left|right; by right].
    + intros [->|H]%elem_of_cons; [by left|by right].
Qed.

Lemma elem_of_sorted y xs : y ∈ sorted xs → y ∈ xs.
Proof.
  induction xs as [|x xs IH]; simpl; [done|].
  intros [->|H]%elem_of_insert_sorted; [by left|right; by apply IH].
Qed.

Lemma length_insert_sorted x l : length (insert_sorted x l) = S (length l).
Proof.
  induction l as [|z l IH]; simpl; [done|].
  destruct (Qltb z x); simpl; by rewrite ?IH.
Qed.

Lemma length_sorted xs : length (sorted xs) = length xs.
Proof.
  induction xs as [|x xs IH]; simpl; [done|].
  by rewrite length_insert_sorted, IH.
Qed.

(** The median of a non-empty list lies between any two bounds of its
    elements. *)
Lemma median_bounds lo hi x xs :
  Forall (fun y => lo <= y) (x :: xs) → Forall (fun y => y <= hi) (x :: xs) →
  ∃ med, median (x :: xs) = Ok med ∧ lo <= med ∧ med <= hi.
Proof.
  intros Hlo Hhi. unfold median.
  set (data := sorted (x :: xs)).
  assert (Hn : length data = S (length xs)) by apply length_sorted.
  assert (Hb : ∀ k a, data !! k = Some a → lo <= a ∧ a <= hi).
  { intros k a Hk. apply list_elem_of_lookup_2, elem_of_sorted in Hk.
    rewrite Forall_forall in Hlo, Hhi. split; [by apply Hlo|by apply Hhi]. }
  set (n := length data) in *.
  assert (n ≠ 0)%nat as Hn0 by lia.
  destruct (n =? 0)%nat eqn:E0; [apply Nat.eqb_eq in E0; lia|].
  destruct (n mod 2 =? 1)%nat eqn:E1.
  - destruct (lookup_lt_is_Some_2 data (n / 2)%nat) as [a Ha].
    { apply Nat.div_lt; lia. }
    exists a. unfold py_index. rewrite Ha. split; [done|]. by eapply Hb.
  - apply Nat.eqb_neq in E1.
    assert (n mod 2 = 0)%nat as Heven.
    { pose proof (Nat.mod_upper_bound n 2). lia. }
    pose proof (Nat.div_mod_eq n 2) as Hdiv.
    destruct (lookup_lt_is_Some_2 data (n / 2 - 1)%nat) as [a Ha]; [lia|].
    destruct (lookup_lt_is_Some_2 data (n / 2)%nat) as [b Hb']; [lia|].
    exists ((a + b) / 2). unfold py_index. rewrite Ha, Hb'. simpl.
    split; [done|].
    destruct (Hb _ _ Ha), (Hb _ _ Hb'). split.
    + apply Qle_shift_div_l; [lra|lra].
    + apply Qle_shift_div_r; [lra|lra].
Qed.

Lemma variance_ok x y xs : ∃ var, variance (x :: y :: xs) = Ok var.
Proof. eexists. reflexivity. Qed.

End StatisticsFacts.

(* ===================================================================== *)
(** * Facts about binary64 rounding *)

Module RoundingFacts.
Import Binary64.
Local Open Scope Q_scope.

Lemma two_not_0 : ¬ (2 == 0)%Q.
Proof. intros H. discriminate H. Qed.

Lemma bpow_pos e : 0 < bpow e.
Proof. apply Qpower_0_lt. reflexivity. Qed.

Lemma bpow_plus a b : bpow (a + b) == bpow a * bpow b.
Proof. apply Qpower_plus, two_not_0. Qed.

Lemma bpow_0 : bpow 0 == 1.
Proof. reflexivity. Qed.

Lemma bpow_1 : bpow 1 == 2.
Proof. reflexivity. Qed.

Lemma bpow_succ e : bpow (e + 1) == 2 * bpow e.
Proof. rewrite bpow_plus, bpow_1. ring. Qed.

Lemma bpow_opp e : bpow (- e) * bpow e == 1.
Proof. rewrite <- bpow_plus, Z.add_opp_diag_l. reflexivity. Qed.

Lemma bpow_le a b : (a ≤ b)%Z → bpow a <= bpow b.
Proof. intros H. apply Qpower_le_compat_l; [done|]. discriminate. Qed.

Lemma bpow_lt a b : (a < b)%Z → bpow a < bpow b.
Proof. intros H. apply Qpower_lt_compat_l; [done|]. reflexivity. Qed.

Lemma bpow_lt_inv a b : bpow a < bpow b → (a < b)%Z.
Proof. intros H. eapply Qpower_lt_compat_l_inv; [exact H|reflexivity]. Qed.

Lemma bpow_Z n : (0 ≤ n)%Z → bpow n == inject_Z (2 ^ n).
Proof. intros H. unfold bpow. by rewrite Zpower_Qpower. Qed.

Lemma F2Q_0 e : F2Q 0 e == 0.
Proof. unfold F2Q. ring. Qed.

Lemma F2Q_opp m e : F2Q (- m) e == - F2Q m e.
Proof. unfold F2Q. rewrite inject_Z_opp. ring. Qed.

Lemma F2Q_le m1 m2 e : (m1 ≤ m2)%Z → F2Q m1 e <= F2Q m2 e.
Proof.
  intros H. unfold F2Q. apply Qmult_le_compat_r.
  - by rewrite <- Zle_Qle.
  - apply Qlt_le_weak, bpow_pos.
Qed.

Lemma F2Q_lt m1 m2 e : (m1 < m2)%Z → F2Q m1 e < F2Q m2 e.
Proof.
  intros H. unfold F2Q. apply Qmult_lt_compat_r; [apply bpow_pos|].
  by rewrite <- Zlt_Qlt.
Qed.

Lemma F2Q_lt_inv m1 m2 e : F2Q m1 e < F2Q m2 e → (m1 < m2)%Z.
Proof.
  intros H. destruct (Z.lt_ge_cases m1 m2) as [|Hge]; [done|].
  apply (F2Q_le _ _ e) in Hge. lra.
Qed.

Lemma F2Q_le_inv m1 m2 e : F2Q m1 e <= F2Q m2 e → (m1 ≤ m2)%Z.
Proof.
  intros H. destruct (Z.le_gt_cases m1 m2) as [|Hgt]; [done|].
  apply (F2Q_lt _ _ e) in Hgt. lra.
Qed.

Lemma F2Q_shift m e k : (0 ≤ k)%Z → F2Q (m * 2 ^ k) e == F2Q m (e + k).
Proof.
  intros H. unfold F2Q. rewrite inject_Z_mult, bpow_plus, <- bpow_Z by done.
  ring.
Qed.

Lemma F2Q_nonneg m e : (0 ≤ m)%Z → 0 <= F2Q m e.
Proof. intros H. rewrite <- (F2Q_0 e). by apply F2Q_le. Qed.

Lemma F2Q_pos m e : (0 < m)%Z → 0 < F2Q m e.
Proof. intros H. rewrite <- (F2Q_0 e). by apply F2Q_lt. Qed.

(** ** The number of binary digits *)

Lemma digits2_size p : digits2_pos p = Pos.size p.
Proof. induction p; simpl; congruence. Qed.

Lemma Zdigits2_nonneg m : (0 ≤ Zdigits2 m)%Z.
Proof. destruct m; simpl; lia. Qed.

Lemma Zdigits2_pos m : (0 < m)%Z → (0 < Zdigits2 m)%Z.
Proof. destruct m; simpl; lia. Qed.

Lemma Zdigits2_bounds m :
  (0 < m)%Z → (2 ^ (Zdigits2 m - 1) ≤ m < 2 ^ Zdigits2 m)%Z.
Proof.
  destruct m as [|p|p]; [lia| |lia]. intros _. simpl Zdigits2.
  rewrite digits2_size.
  pose proof (Pos.size_gt p) as Hgt. pose proof (Pos.size_le p) as Hle.
  apply Pos2Z.pos_lt_pos in Hgt. apply Pos2Z.pos_le_pos in Hle.
  rewrite Pos2Z.inj_pow in Hgt, Hle.
  split; [|exact Hgt].
  assert (2 ^ Z.pos (Pos.size p) = 2 * 2 ^ (Z.pos (Pos.size p) - 1))%Z as E.
  { rewrite <- Z.pow_succ_r by lia. f_equal. lia. }
  rewrite E in Hle. change (Z.pos p~0) with (2 * Z.pos p)%Z in Hle. lia.
Qed.

Lemma Zdigits2_unique m d :
  (0 < m)%Z → (2 ^ (d - 1) ≤ m < 2 ^ d)%Z → Zdigits2 m = d.
Proof.
  intros Hm [H1 H2]. pose proof (Zdigits2_bounds m Hm) as [B1 B2].
  pose proof (Zdigits2_pos m Hm) as Hd.
  assert (0 < d)%Z as Hd'.
  { destruct (Z.lt_ge_cases 0%Z d) as [|Hle]; [done|].
    assert (2 ^ d ≤ 2 ^ 0)%Z by (apply Z.pow_le_mono_r; lia).
    change (2 ^ 0)%Z with 1%Z in *. lia. }
  destruct (Z.lt_trichotomy (Zdigits2 m) d) as [Hlt|[->|Hgt]]; [|done|].
  - assert (2 ^ Zdigits2 m ≤ 2 ^ (d - 1))%Z by (apply Z.pow_le_mono_r; lia). lia.
  - assert (2 ^ d ≤ 2 ^ (Zdigits2 m - 1))%Z by (apply Z.pow_le_mono_r; lia). lia.
Qed.

Lemma Zdigits2_mul_pow2 m k :
  (0 < m)%Z → (0 ≤ k)%Z → Zdigits2 (m * 2 ^ k) = (Zdigits2 m + k)%Z.
Proof.
  intros Hm Hk. pose proof (Zdigits2_bounds m Hm) as [B1 B2].
  pose proof (Zdigits2_pos m Hm) as Hd.
  assert (0 < 2 ^ k)%Z as Hp by (apply Z.pow_pos_nonneg; lia).
  apply Zdigits2_unique; [nia|].
  replace (Zdigits2 m + k - 1)%Z with ((Zdigits2 m - 1) + k)%Z by lia.
  rewrite !Z.pow_add_r by lia. nia.
Qed.

Lemma Zdigits2_div_pow2 m n :
  (0 < m)%Z → (0 ≤ n < Zdigits2 m)%Z →
  (0 < m / 2 ^ n)%Z ∧ Zdigits2 (m / 2 ^ n) = (Zdigits2 m - n)%Z.
Proof.
  intros Hm [Hn Hlt]. pose proof (Zdigits2_bounds m Hm) as [B1 B2].
  assert (0 < 2 ^ n)%Z as Hp by (apply Z.pow_pos_nonneg; lia).
  assert (2 ^ (Zdigits2 m - 1) = 2 ^ (Zdigits2 m - n - 1) * 2 ^ n)%Z as E1.
  { rewrite <- Z.pow_add_r by lia. f_equal. lia. }
  assert (2 ^ Zdigits2 m = 2 ^ (Zdigits2 m - n) * 2 ^ n)%Z as E2.
  { rewrite <- Z.pow_add_r by lia. f_equal. lia. }
  assert (2 ^ (Zdigits2 m - n - 1) ≤ m / 2 ^ n)%Z as L.
  { apply Z.div_le_lower_bound; [done|]. lia. }
  assert (m / 2 ^ n < 2 ^ (Zdigits2 m - n))%Z as U.
  { apply Z.div_lt_upper_bound; [done|]. lia. }
  assert (0 < 2 ^ (Zdigits2 m - n - 1))%Z by (apply Z.pow_pos_nonneg; lia).
  split; [lia|]. apply Zdigits2_unique; [lia|]. split; [|done].
  replace (Zdigits2 m - n - 1)%Z with (Zdigits2 m - n - 1)%Z in L by lia. done.
Qed.

Lemma Zdigits2_div_small m n :
  (0 ≤ m)%Z → (Zdigits2 m ≤ n)%Z → (m / 2 ^ n = 0)%Z.
Proof.
  intros Hm Hn. destruct (Z.eq_dec m 0%Z) as [->|Hne].
  { apply Z.div_0_l. simpl in Hn. apply Z.pow_nonzero; lia. }
  pose proof (Zdigits2_bounds m ltac:(lia)) as [B1 B2].
  pose proof (Zdigits2_nonneg m).
  apply Z.div_small. split; [done|].
  assert (2 ^ Zdigits2 m ≤ 2 ^ n)%Z by (apply Z.pow_le_mono_r; lia). lia.
Qed.

Lemma F2Q_bounds m e :
  (0 < m)%Z → bpow (Zdigits2 m + e - 1) <= F2Q m e ∧ F2Q m e < bpow (Zdigits2 m + e).
Proof.
  intros Hm. pose proof (Zdigits2_bounds m Hm) as [B1 B2].
  pose proof (Zdigits2_pos m Hm) as Hd. unfold F2Q.
  replace (Zdigits2 m + e - 1)%Z with ((Zdigits2 m - 1) + e)%Z by lia.
  rewrite !bpow_plus, (bpow_Z (Zdigits2 m - 1)), (bpow_Z (Zdigits2 m)) by lia.
  pose proof (bpow_pos e). split.
  - apply Qmult_le_compat_r; [|lra]. by rewrite <- Zle_Qle.
  - apply Qmult_lt_compat_r; [done|]. by rewrite <- Zlt_Qlt.
Qed.

(** ** Locations and right shifts *)

Lemma fexp64_eq e : fexp64 e = Z.max (e - 53) (-1074).
Proof. reflexivity. Qed.

Ltac norm_inject :=
  change (inject_Z 0) with 0 in *; change (inject_Z 1) with 1 in *;
  change (inject_Z 2) with 2 in *.

Lemma located_proper m l t t' : t == t' → located m l t → located m l t'.
Proof. intros E. destruct l as [|[]]; simpl; rewrite E; done. Qed.

Lemma located_range m l t :
  located m l t → inject_Z m <= t ∧ t < inject_Z m + 1.
Proof. destruct l as [|[]]; simpl; lra. Qed.

Lemma located_of_loc m l t :
  located m l t →
  located (shr_m (shr_record_of_loc m l))
    (loc_of_shr_record (shr_record_of_loc m l)) t.
Proof. destruct l as [|[]]; simpl; done. Qed.

Lemma shr_m_of_loc m l : shr_m (shr_record_of_loc m l) = m.
Proof. destruct l as [|[]]; reflexivity. Qed.

Lemma shr_1_spec mrs t :
  (0 ≤ shr_m mrs)%Z →
  located (shr_m mrs) (loc_of_shr_record mrs) t →
  shr_m (shr_1 mrs) = (shr_m mrs / 2)%Z
  ∧ located (shr_m (shr_1 mrs)) (loc_of_shr_record (shr_1 mrs)) (t * (1 # 2)).
Proof.
  destruct mrs as [m r s]. cbn [shr_m]. intros Hm Hloc.
  destruct m as [|[p|p|]|p]; [| | | |lia].
  - split; [reflexivity|].
    destruct r, s; cbn [located loc_of_shr_record shr_1 shr_m orb] in Hloc |- *;
      norm_inject; lra.
  - split.
    { cbn. apply (Z.div_unique _ 2 _ 1); lia. }
    destruct r, s; cbn [located loc_of_shr_record shr_1 shr_m orb] in Hloc |- *;
      rewrite (Pos2Z.inj_xI p), inject_Z_plus, inject_Z_mult in Hloc;
      norm_inject; lra.
  - split.
    { cbn. apply (Z.div_unique _ 2 _ 0); lia. }
    destruct r, s; cbn [located loc_of_shr_record shr_1 shr_m orb] in Hloc |- *;
      rewrite (Pos2Z.inj_xO p), inject_Z_mult in Hloc;
      norm_inject; lra.
  - split; [reflexivity|].
    destruct r, s; cbn [located loc_of_shr_record shr_1 shr_m orb] in Hloc |- *;
      norm_inject; lra.
Qed.

Lemma shr_1_nonneg mrs : (0 ≤ shr_m mrs)%Z → (0 ≤ shr_m (shr_1 mrs))%Z.
Proof.
  intros H. destruct mrs as [m r s]. simpl in H.
  destruct m as [|[p|p|]|p]; simpl; lia.
Qed.

Lemma iter_shr_spec p : ∀ mrs t,
  (0 ≤ shr_m mrs)%Z →
  located (shr_m mrs) (loc_of_shr_record mrs) t →
  (0 ≤ shr_m (SpecFloat.iter_pos shr_1 p mrs))%Z
  ∧ shr_m (SpecFloat.iter_pos shr_1 p mrs) = (shr_m mrs / 2 ^ Z.pos p)%Z
  ∧ located (shr_m (SpecFloat.iter_pos shr_1 p mrs))
      (loc_of_shr_record (SpecFloat.iter_pos shr_1 p mrs)) (t * bpow (- Z.pos p)).
Proof.
  assert (Hhalf : bpow (-1) == 1 # 2) by reflexivity.
  induction p as [p IH|p IH|]; intros mrs t Hm Hloc; simpl SpecFloat.iter_pos.
  - destruct (shr_1_spec mrs t Hm Hloc) as [E1 L1].
    pose proof (shr_1_nonneg mrs Hm) as N1.
    destruct (IH _ _ N1 L1) as (N2 & E2 & L2).
    destruct (IH _ _ N2 L2) as (N3 & E3 & L3).
    split; [done|]. split.
    + rewrite E3, E2, E1, !Z.div_div by lia. f_equal.
      rewrite (Pos2Z.inj_xI p).
      replace (2 * Z.pos p + 1)%Z with (1 + Z.pos p + Z.pos p)%Z by lia.
      rewrite !Z.pow_add_r by lia. change (2 ^ 1)%Z with 2%Z. ring.
    + eapply located_proper; [|exact L3].
      rewrite (Pos2Z.inj_xI p).
      replace (- (2 * Z.pos p + 1))%Z with (-1 + (- Z.pos p + - Z.pos p))%Z by lia.
      rewrite !bpow_plus, Hhalf. ring.
  - destruct (IH _ _ Hm Hloc) as (N2 & E2 & L2).
    destruct (IH _ _ N2 L2) as (N3 & E3 & L3).
    split; [done|]. split.
    + rewrite E3, E2, !Z.div_div by lia. f_equal.
      rewrite (Pos2Z.inj_xO p).
      replace (2 * Z.pos p)%Z with (Z.pos p + Z.pos p)%Z by lia.
      rewrite !Z.pow_add_r by lia. ring.
    + eapply located_proper; [|exact L3].
      rewrite (Pos2Z.inj_xO p).
      replace (- (2 * Z.pos p))%Z with (- Z.pos p + - Z.pos p)%Z by lia.
      rewrite !bpow_plus. ring.
  - destruct (shr_1_spec mrs t Hm Hloc) as [E1 L1].
    split; [by apply shr_1_nonneg|]. split; [done|].
    eapply located_proper; [|exact L1]. reflexivity.
Qed.

(** [shr] by [n] places, in terms of the number [x] that is located. *)
Lemma shr_spec mrs e n x :
  (0 ≤ shr_m mrs)%Z → (0 ≤ n)%Z →
  located (shr_m mrs) (loc_of_shr_record mrs) (x * bpow (- e)) →
  ∃ mrs', shr mrs e n = (mrs', (e + n)%Z)
    ∧ shr_m mrs' = (shr_m mrs / 2 ^ n)%Z
    ∧ located (shr_m mrs') (loc_of_shr_record mrs') (x * bpow (- (e + n))).
Proof.
  intros Hm Hn Hloc. destruct n as [|p|p]; [| |lia].
  - exists mrs. rewrite Z.add_0_r. split; [reflexivity|].
    split; [|done]. by rewrite Z.div_1_r.
  - destruct (iter_shr_spec p mrs _ Hm Hloc) as (N & E & L).
    eexists. split; [reflexivity|]. split; [done|].
    eapply located_proper; [|exact L].
    rewrite Z.opp_add_distr, bpow_plus. ring.
Qed.

(** ** The numbers of the format around a number *)

Lemma fexp64_mono a b : (a ≤ b)%Z → (fexp64 a ≤ fexp64 b)%Z.
Proof. rewrite !fexp64_eq. lia. Qed.

Lemma in_format_nonneg g :
  in_format g → 0 <= g →
  ∃ m e, (0 ≤ m)%Z ∧ g == F2Q m e ∧ (fexp64 (Zdigits2 m + e) ≤ e)%Z.
Proof.
  intros (m & e & E & H) Hg. exists m, e. split; [|done].
  destruct (Z.lt_ge_cases m 0%Z) as [Hneg|]; [|done].
  apply (F2Q_lt _ _ e) in Hneg. rewrite F2Q_0 in Hneg. lra.
Qed.

Lemma in_format_opp g : in_format g → in_format (- g).
Proof.
  intros (m & e & E & H). exists (- m)%Z, e. split.
  - by rewrite F2Q_opp, E.
  - by destruct m.
Qed.

Lemma F2Q_pow2 d e : (0 ≤ d)%Z → F2Q (2 ^ d) e == bpow (d + e).
Proof. intros H. unfold F2Q. rewrite bpow_plus, (bpow_Z d) by done. reflexivity. Qed.

(** No number of the format lies strictly between two neighbours of the
    grid of a canonical exponent. *)
Lemma format_grid g m' e' :
  in_format g → 0 <= g → (0 ≤ m')%Z → fexp64 (Zdigits2 m' + e') = e' →
  g <= F2Q m' e' ∨ F2Q (m' + 1) e' <= g.
Proof.
  intros Hf Hg Hm' Hc.
  destruct (in_format_nonneg g Hf Hg) as (mg & eg & Hmg & Eg & Hfg).
  destruct (Z.eq_dec mg 0%Z) as [->|Hne].
  { left. rewrite Eg, F2Q_0. by apply F2Q_nonneg. }
  assert (0 < mg)%Z as Hpos by lia.
  destruct (F2Q_bounds mg eg Hpos) as [Lg Ug].
  rewrite !fexp64_eq in Hfg, Hc.
  destruct (Z.eq_dec m' 0%Z) as [->|Hne'].
  { right. simpl Zdigits2 in Hc. rewrite Eg.
    apply Qle_trans with (F2Q 1 eg).
    - unfold F2Q. norm_inject. rewrite !Qmult_1_l. apply bpow_le. lia.
    - apply F2Q_le. lia. }
  assert (0 < m')%Z as Hpos' by lia.
  destruct (F2Q_bounds m' e' Hpos') as [L' U'].
  pose proof (Zdigits2_bounds m' Hpos') as [_ B'].
  pose proof (Zdigits2_pos m' Hpos') as Hd'.
  destruct (Z.lt_trichotomy (Zdigits2 mg + eg) (Zdigits2 m' + e'))
    as [Hlt|[Heq|Hgt]].
  - left. rewrite Eg. apply Qlt_le_weak.
    eapply Qlt_le_trans; [exact Ug|]. eapply Qle_trans; [|exact L'].
    apply bpow_le. lia.
  - assert (e' ≤ eg)%Z as Hle by lia.
    assert (g == F2Q (mg * 2 ^ (eg - e')) e') as Eg'.
    { rewrite Eg, F2Q_shift by lia.
      replace (e' + (eg - e'))%Z with eg by lia. reflexivity. }
    destruct (Z.le_gt_cases (mg * 2 ^ (eg - e')) m').
    + left. rewrite Eg'. by apply F2Q_le.
    + right. rewrite Eg'. apply F2Q_le. lia.
  - right. rewrite Eg. eapply Qle_trans; [|exact Lg].
    apply Qle_trans with (bpow (Zdigits2 m' + e')).
    + rewrite <- F2Q_pow2 by lia. apply F2Q_le. lia.
    + apply bpow_le. lia.
Qed.

(** ** The two shifts of the rounding *)

Lemma located_bounds m l x e :
  located m l (x * bpow (- e)) →
  F2Q m e <= x ∧ x < F2Q (m + 1) e.
Proof.
  intros H. apply located_range in H as [H1 H2].
  pose proof (bpow_pos e) as Hp. pose proof (bpow_opp e) as Ho.
  assert (x == x * bpow (- e) * bpow e) as Ex.
  { rewrite <- Qmult_assoc, Ho. ring. }
  unfold F2Q. rewrite inject_Z_plus. norm_inject. split.
  - rewrite Ex. apply Qmult_le_compat_r; [done|lra].
  - rewrite Ex at 1. apply Qmult_lt_compat_r; done.
Qed.

Lemma shr_fexp_spec m e l x :
  (0 ≤ m)%Z → located m l (x * bpow (- e)) →
  (e ≤ fexp64 (Zdigits2 m + e))%Z →
  ∃ mrs' e', shr_fexp prec emax m e l = (mrs', e')
    ∧ (0 ≤ shr_m mrs')%Z
    ∧ located (shr_m mrs') (loc_of_shr_record mrs') (x * bpow (- e'))
    ∧ fexp64 (Zdigits2 (shr_m mrs') + e') = e'.
Proof.
  intros Hm Hloc He. unfold shr_fexp.
  change (fexp prec emax (Zdigits2 m + e)) with (fexp64 (Zdigits2 m + e)).
  set (n := (fexp64 (Zdigits2 m + e) - e)%Z).
  destruct (shr_spec (shr_record_of_loc m l) e n x) as (mrs' & E & Em & L).
  { by rewrite shr_m_of_loc. }
  { lia. }
  { by apply located_of_loc. }
  exists mrs', (e + n)%Z. split; [done|]. rewrite shr_m_of_loc in Em.
  assert (0 < 2 ^ n)%Z by (apply Z.pow_pos_nonneg; lia).
  split; [rewrite Em; apply Z.div_pos; lia|]. split; [done|].
  destruct (Z.lt_ge_cases n (Zdigits2 m)) as [Hlt|Hge].
  - assert (0 < m)%Z as Hpos.
    { destruct (Z.eq_dec m 0%Z) as [->|]; [simpl in Hlt; lia|lia]. }
    destruct (Zdigits2_div_pow2 m n Hpos) as [_ Ed]; [lia|].
    rewrite Em, Ed. replace (Zdigits2 m - n + (e + n))%Z with (Zdigits2 m + e)%Z by lia.
    lia.
  - rewrite Em, Zdigits2_div_small by lia. simpl Zdigits2.
    subst n. rewrite !fexp64_eq in *. lia.
Qed.

Lemma round_nearest_even_cases m l t :
  located m l t →
  round_nearest_even m l = m
  ∨ (round_nearest_even m l = (m + 1)%Z ∧ inject_Z m < t).
Proof.
  destruct l as [|[]]; simpl; intros H; [by left| |by left|].
  - destruct (Z.even m); [by left|]. right. split; [done|lra].
  - right. split; [done|lra].
Qed.

Lemma Zdigits2_succ m :
  (0 ≤ m)%Z →
  Zdigits2 (m + 1) = Zdigits2 m
  ∨ ((m + 1 = 2 ^ Zdigits2 m)%Z ∧ Zdigits2 (m + 1) = (Zdigits2 m + 1)%Z).
Proof.
  intros Hm. destruct (Z.eq_dec m 0%Z) as [->|Hne]; [right; done|].
  assert (0 < m)%Z as Hpos by lia.
  pose proof (Zdigits2_bounds m Hpos) as [B1 B2].
  pose proof (Zdigits2_pos m Hpos) as Hd.
  destruct (Z.eq_dec (m + 1)%Z (2 ^ Zdigits2 m)%Z) as [E|Hlt].
  - right. split; [done|]. apply Zdigits2_unique; [lia|].
    replace (Zdigits2 m + 1 - 1)%Z with (Zdigits2 m) by lia.
    rewrite Z.pow_add_r by lia. change (2 ^ 1)%Z with 2%Z. lia.
  - left. apply Zdigits2_unique; lia.
Qed.

Lemma renorm_spec m' e' m1 :
  (0 ≤ m')%Z → fexp64 (Zdigits2 m' + e') = e' →
  m1 = m' ∨ m1 = (m' + 1)%Z →
  ∃ mrs'' e'', shr_fexp prec emax m1 e' loc_Exact = (mrs'', e'')
    ∧ (0 ≤ shr_m mrs'')%Z
    ∧ F2Q (shr_m mrs'') e'' == F2Q m1 e'
    ∧ fexp64 (Zdigits2 (shr_m mrs'') + e'') = e''.
Proof.
  intros Hm' Hc Hm1.
  assert (0 ≤ m1)%Z as Hm1' by (destruct Hm1; lia).
  assert (fexp64 (Zdigits2 m1 + e') = e'
          ∨ (fexp64 (Zdigits2 m1 + e') = e' + 1
             ∧ m1 = 2 ^ Zdigits2 m' ∧ 0 < Zdigits2 m'
             ∧ Zdigits2 m1 = Zdigits2 m' + 1))%Z as Hcases.
  { destruct Hm1 as [->| ->]; [by left|].
    destruct (Zdigits2_succ m' Hm') as [->|[E Ed]]; [by left|].
    rewrite Ed. pose proof (Zdigits2_nonneg m'). rewrite !fexp64_eq in *.
    destruct (Z.le_gt_cases (-1074) (Zdigits2 m' + e' - 53)).
    - right. lia.
    - left. lia. }
  unfold shr_fexp.
  change (fexp prec emax (Zdigits2 m1 + e')) with (fexp64 (Zdigits2 m1 + e')).
  destruct Hcases as [E0|(E1 & Em1 & Hd & Ed)].
  - rewrite E0, Z.sub_diag. eexists _, _. split; [reflexivity|].
    cbn [shr_record_of_loc shr_m]. done.
  - rewrite E1. replace (e' + 1 - e')%Z with 1%Z by lia.
    eexists _, _. split; [reflexivity|].
    cbn [shr_record_of_loc SpecFloat.iter_pos].
    destruct (shr_1_spec {| shr_m := m1; shr_r := false; shr_s := false |}
                (inject_Z m1)) as [Eh _]; [done|reflexivity|].
    cbn [shr_m] in Eh. rewrite Eh.
    assert (m1 = 2 * 2 ^ (Zdigits2 m' - 1))%Z as Em2.
    { rewrite Em1. rewrite <- Z.pow_succ_r by lia. f_equal. lia. }
    assert (m1 / 2 = 2 ^ (Zdigits2 m' - 1))%Z as Eh2.
    { rewrite Em2 at 1. rewrite Z.mul_comm. by apply Z.div_mul. }
    assert (0 < 2 ^ (Zdigits2 m' - 1))%Z by (apply Z.pow_pos_nonneg; lia).
    split; [lia|]. split.
    + rewrite <- (F2Q_shift (m1 / 2) e' 1) by lia.
      unfold F2Q. rewrite Eh2. change (2 ^ 1)%Z with 2%Z.
      rewrite Z.mul_comm, <- Em2. reflexivity.
    + rewrite Eh2.
      rewrite (Zdigits2_unique (2 ^ (Zdigits2 m' - 1)) (Zdigits2 m')); [|lia|].
      * replace (Zdigits2 m' + (e' + 1))%Z with (Zdigits2 m' + 1 + e')%Z by lia.
        by rewrite <- Ed.
      * split; [lia|]. apply Z.pow_lt_mono_r; lia.
Qed.

(** The rounding of a number [x] that is located at the exponent [e]: the
    neighbours [m'] and [m' + 1] of [x] on the grid of the canonical
    exponent [e'], and the mantissa and exponent of the result, which is
    one of the two. *)
Lemma binary_round_aux_spec s m e l x :
  (0 ≤ m)%Z → located m l (x * bpow (- e)) →
  (e ≤ fexp64 (Zdigits2 m + e))%Z →
  ∃ m' e' m'' e'',
    (0 ≤ m')%Z ∧ fexp64 (Zdigits2 m' + e') = e'
    ∧ F2Q m' e' <= x ∧ x < F2Q (m' + 1) e'
    ∧ (0 ≤ m'')%Z ∧ fexp64 (Zdigits2 m'' + e'') = e''
    ∧ (F2Q m'' e'' == F2Q m' e'
       ∨ (F2Q m'' e'' == F2Q (m' + 1) e' ∧ F2Q m' e' < x))
    ∧ binary_round_aux prec emax s m e l
      = match m'' with
        | Z0 => S754_zero s
        | Zpos p => if (e'' <=? emax - prec)%Z then S754_finite s p e''
                    else S754_infinity s
        | Zneg _ => S754_nan
        end.
Proof.
  intros Hm Hloc He.
  destruct (shr_fexp_spec m e l x Hm Hloc He) as (mrs' & e' & E1 & N1 & L1 & C1).
  destruct (round_nearest_even_cases _ _ _ L1) as [R|[R Hlt]].
  - destruct (renorm_spec (shr_m mrs') e' _ N1 C1 (or_introl R))
      as (mrs'' & e'' & E2 & N2 & V2 & C2).
    destruct (located_bounds _ _ _ _ L1) as [B1 B2].
    exists (shr_m mrs'), e', (shr_m mrs''), e''.
    repeat (split; [done|]). split.
    { left. by rewrite V2, R. }
    unfold binary_round_aux. rewrite E1, E2. reflexivity.
  - destruct (renorm_spec (shr_m mrs') e' _ N1 C1 (or_intror R))
      as (mrs'' & e'' & E2 & N2 & V2 & C2).
    destruct (located_bounds _ _ _ _ L1) as [B1 B2].
    exists (shr_m mrs'), e', (shr_m mrs''), e''.
    repeat (split; [done|]). split.
    { right. split; [by rewrite V2, R|].
      pose proof (bpow_pos e') as Hp. pose proof (bpow_opp e') as Ho.
      assert (x == x * bpow (- e') * bpow e') as Ex.
      { rewrite <- Qmult_assoc, Ho. ring. }
      rewrite Ex. unfold F2Q. by apply Qmult_lt_compat_r. }
    unfold binary_round_aux. rewrite E1, E2. reflexivity.
Qed.

(** ** The rounded number and the numbers of the format *)

Lemma canonical_digits m e :
  (0 < m)%Z → fexp64 (Zdigits2 m + e) = e →
  (Zdigits2 m ≤ 53 ∧ -1074 ≤ e ∧ (-1074 < e → Zdigits2 m = 53))%Z.
Proof. rewrite fexp64_eq. lia. Qed.

Lemma bpow_1024_le m e :
  (0 < m)%Z → fexp64 (Zdigits2 m + e) = e → (971 < e)%Z →
  bpow 1024 <= F2Q m e.
Proof.
  intros Hm Hc He. destruct (canonical_digits m e Hm Hc) as (_ & _ & Hd).
  destruct (F2Q_bounds m e Hm) as [L _].
  eapply Qle_trans; [|exact L]. apply bpow_le. lia.
Qed.

Lemma SF2Q_abs_zero s : SF2Q (SFabs (S754_zero s)) = 0.
Proof. reflexivity. Qed.

Lemma SF2Q_abs_finite s p e : SF2Q (SFabs (S754_finite s p e)) = F2Q (Z.pos p) e.
Proof. reflexivity. Qed.

(** The result does not pass a number of the format that is above [x],
    and it is finite when there is one in range. *)
Lemma binary_round_aux_upper s m e l x g :
  (0 ≤ m)%Z → located m l (x * bpow (- e)) →
  (e ≤ fexp64 (Zdigits2 m + e))%Z →
  in_format g → x <= g → g < bpow 1024 →
  valid_binary (binary_round_aux prec emax s m e l) = true
  ∧ (binary_round_aux prec emax s m e l = S754_zero s
     ∨ ∃ p e', binary_round_aux prec emax s m e l = S754_finite s p e')
  ∧ SF2Q (SFabs (binary_round_aux prec emax s m e l)) <= g.
Proof.
  intros Hm Hloc He Hg Hxg Hgmax.
  destruct (binary_round_aux_spec s m e l x Hm Hloc He)
    as (m' & e' & m'' & e'' & N1 & C1 & B1 & B2 & N2 & C2 & V & ->).
  pose proof (F2Q_nonneg m' e' N1) as Hn.
  assert (F2Q m'' e'' <= g) as HV.
  { destruct V as [->|[-> Hlt]]; [lra|].
    destruct (format_grid g m' e' Hg ltac:(lra) N1 C1); [lra|done]. }
  destruct m'' as [|p|p]; [| |lia].
  - split; [done|]. split; [by left|]. rewrite SF2Q_abs_zero. lra.
  - assert (e'' ≤ 971)%Z as He''.
    { destruct (Z.le_gt_cases e'' 971) as [|Hgt]; [done|].
      pose proof (bpow_1024_le (Z.pos p) e'' ltac:(lia) C2 ltac:(lia)). lra. }
    change (emax - prec)%Z with 971%Z.
    rewrite (proj2 (Z.leb_le e'' 971) He'').
    split; [|split; [right; eauto|by rewrite SF2Q_abs_finite]].
    cbn [valid_binary]. unfold bounded, canonical_mantissa.
    change (fexp prec emax (Z.pos (digits2_pos p) + e''))
      with (fexp64 (Zdigits2 (Z.pos p) + e'')).
    rewrite C2, Z.eqb_refl. change (emax - prec)%Z with 971%Z.
    by rewrite (proj2 (Z.leb_le e'' 971) He'').
Qed.

(** The result, when it is finite, is not below a number of the format
    that is below [x]. *)
Lemma binary_round_aux_lower s m e l x g :
  (0 ≤ m)%Z → located m l (x * bpow (- e)) →
  (e ≤ fexp64 (Zdigits2 m + e))%Z →
  in_format g → 0 <= g → g <= x →
  SFfinite (binary_round_aux prec emax s m e l) = true →
  g <= SF2Q (SFabs (binary_round_aux prec emax s m e l)).
Proof.
  intros Hm Hloc He Hg Hg0 Hgx.
  destruct (binary_round_aux_spec s m e l x Hm Hloc He)
    as (m' & e' & m'' & e'' & N1 & C1 & B1 & B2 & N2 & C2 & V & ->).
  assert (g <= F2Q m'' e'') as HV.
  { assert (g <= F2Q m' e') as Hle.
    { destruct (format_grid g m' e' Hg Hg0 N1 C1); [done|lra]. }
    destruct V as [->|[-> Hlt]]; [done|].
    pose proof (F2Q_le m' (m' + 1) e' ltac:(lia)). lra. }
  destruct m'' as [|p|p]; [| |lia].
  - intros _. rewrite SF2Q_abs_zero. rewrite F2Q_0 in HV. done.
  - destruct (e'' <=? emax - prec)%Z; [|done]. intros _.
    by rewrite SF2Q_abs_finite.
Qed.

Lemma SF2Q_signed (s : bool) r :
  r = S754_zero s ∨ (∃ p e', r = S754_finite s p e') →
  SF2Q r == (if s then - SF2Q (SFabs r) else SF2Q (SFabs r)).
Proof.
  intros [->|(p & e' & ->)].
  - simpl. destruct s; reflexivity.
  - destruct s; simpl; [|reflexivity].
    change (Z.neg p) with (- Z.pos p)%Z. apply F2Q_opp.
Qed.

Lemma SFfinite_form s r :
  r = S754_zero s ∨ (∃ p e', r = S754_finite s p e') → SFfinite r = true.
Proof. by intros [->|(p & e' & ->)]. Qed.

(** The rounding of the number [x], taken with the sign [s], lies between
    any two numbers of the format, in range, that enclose it; so it is
    finite. *)
Lemma binary_round_aux_sandwich (s : bool) m e l (x : Q) glo ghi :
  (0 ≤ m)%Z → located m l (x * bpow (- e)) →
  (e ≤ fexp64 (Zdigits2 m + e))%Z →
  in_format glo → in_format ghi → - bpow 1024 < glo → ghi < bpow 1024 →
  glo <= (if s then - x else x) → (if s then - x else x) <= ghi →
  valid_binary (binary_round_aux prec emax s m e l) = true
  ∧ SFfinite (binary_round_aux prec emax s m e l) = true
  ∧ glo <= SF2Q (binary_round_aux prec emax s m e l)
  ∧ SF2Q (binary_round_aux prec emax s m e l) <= ghi.
Proof.
  intros Hm Hloc He Hglo Hghi Rlo Rhi Blo Bhi.
  destruct (located_bounds _ _ _ _ Hloc) as [Bx _].
  pose proof (F2Q_nonneg m e Hm) as Hx.
  destruct s.
  - destruct (binary_round_aux_upper true m e l x (- glo) Hm Hloc He)
      as (Hv & Hform & Hu); [by apply in_format_opp|lra|lra|].
    pose proof (SFfinite_form _ _ Hform) as Hfin.
    rewrite (SF2Q_signed _ _ Hform).
    split; [done|]. split; [done|]. split; [lra|].
    destruct (Qlt_le_dec ghi 0) as [Hneg|Hpos].
    + pose proof (binary_round_aux_lower true m e l x (- ghi) Hm Hloc He
                    (in_format_opp _ Hghi) ltac:(lra) ltac:(lra) Hfin). lra.
    + pose proof (binary_round_aux_lower true m e l x 0 Hm Hloc He) as Hz.
      assert (in_format 0) as H0.
      { exists 0%Z, 0%Z. split; [by rewrite F2Q_0|]. rewrite fexp64_eq. simpl. lia. }
      specialize (Hz H0 ltac:(lra) ltac:(lra) Hfin). lra.
  - destruct (binary_round_aux_upper false m e l x ghi Hm Hloc He)
      as (Hv & Hform & Hu); [done|lra|lra|].
    pose proof (SFfinite_form _ _ Hform) as Hfin.
    rewrite (SF2Q_signed _ _ Hform).
    split; [done|]. split; [done|]. split; [|lra].
    destruct (Qlt_le_dec 0 glo) as [Hpos|Hneg].
    + pose proof (binary_round_aux_lower false m e l x glo Hm Hloc He
                    Hglo ltac:(lra) ltac:(lra) Hfin). lra.
    + pose proof (binary_round_aux_lower false m e l x 0 Hm Hloc He) as Hz.
      assert (in_format 0) as H0.
      { exists 0%Z, 0%Z. split; [by rewrite F2Q_0|]. rewrite fexp64_eq. simpl. lia. }
      specialize (Hz H0 ltac:(lra) ltac:(lra) Hfin). lra.
Qed.

(** ** Addition *)

Lemma iter_xO_pow2 m d : Z.pos (Pos.iter xO m d) = (Z.pos m * 2 ^ Z.pos d)%Z.
Proof.
  induction d as [|d IH] using Pos.peano_ind.
  - simpl. lia.
  - rewrite Pos.iter_succ, Pos2Z.inj_succ, Z.pow_succ_r by lia.
    rewrite (Pos2Z.inj_xO (Pos.iter xO m d)), IH. ring.
Qed.

Lemma shl_align_spec mx ex ex' :
  (snd (shl_align mx ex ex') = Z.min ex ex')
  ∧ Z.pos (fst (shl_align mx ex ex'))
    = (Z.pos mx * 2 ^ (ex - Z.min ex ex'))%Z.
Proof.
  unfold shl_align. destruct (ex' - ex)%Z as [|d|d] eqn:E; cbn [fst snd].
  - replace (Z.min ex ex') with ex by lia. rewrite Z.sub_diag. lia.
  - replace (Z.min ex ex') with ex by lia. rewrite Z.sub_diag. lia.
  - replace (Z.min ex ex') with ex' by lia. split; [done|].
    rewrite iter_xO_pow2. f_equal. f_equal. lia.
Qed.

Lemma F2Q_shl_align mx ex ex' :
  F2Q (Z.pos (fst (shl_align mx ex ex'))) (snd (shl_align mx ex ex'))
  == F2Q (Z.pos mx) ex.
Proof.
  destruct (shl_align_spec mx ex ex') as [-> ->].
  rewrite F2Q_shift by lia.
  replace (Z.min ex ex' + (ex - Z.min ex ex'))%Z with ex by lia. reflexivity.
Qed.

Lemma binary_round_sandwich (s : bool) p e glo ghi :
  in_format glo → in_format ghi → - bpow 1024 < glo → ghi < bpow 1024 →
  glo <= (if s then - F2Q (Z.pos p) e else F2Q (Z.pos p) e) →
  (if s then - F2Q (Z.pos p) e else F2Q (Z.pos p) e) <= ghi →
  valid_binary (binary_round prec emax s p e) = true
  ∧ SFfinite (binary_round prec emax s p e) = true
  ∧ glo <= SF2Q (binary_round prec emax s p e)
  ∧ SF2Q (binary_round prec emax s p e) <= ghi.
Proof.
  intros Hglo Hghi Rlo Rhi Blo Bhi. unfold binary_round.
  change (fexp prec emax (Z.pos (digits2_pos p) + e))
    with (fexp64 (Zdigits2 (Z.pos p) + e)).
  pose proof (shl_align_spec p e (fexp64 (Zdigits2 (Z.pos p) + e))) as [Ee Em].
  pose proof (F2Q_shl_align p e (fexp64 (Zdigits2 (Z.pos p) + e))) as Ev.
  destruct (shl_align p e (fexp64 (Zdigits2 (Z.pos p) + e))) as [mz ez].
  cbn [fst snd] in Ee, Em, Ev.
  apply (binary_round_aux_sandwich s (Z.pos mz) ez loc_Exact (F2Q (Z.pos p) e));
    try done.
  - cbn [located]. rewrite <- Ev. unfold F2Q.
    rewrite <- Qmult_assoc, (Qmult_comm (bpow ez)), bpow_opp. ring.
  - rewrite Em, Zdigits2_mul_pow2 by lia.
    replace (Zdigits2 (Z.pos p) + (e - Z.min e (fexp64 (Zdigits2 (Z.pos p) + e))) + ez)%Z
      with (Zdigits2 (Z.pos p) + e)%Z by lia.
    lia.
Qed.

Lemma binary_normalize_sandwich M e glo ghi :
  in_format glo → in_format ghi → - bpow 1024 < glo → ghi < bpow 1024 →
  glo <= F2Q M e → F2Q M e <= ghi →
  valid_binary (binary_normalize prec emax M e false) = true
  ∧ SFfinite (binary_normalize prec emax M e false) = true
  ∧ glo <= SF2Q (binary_normalize prec emax M e false)
  ∧ SF2Q (binary_normalize prec emax M e false) <= ghi.
Proof.
  intros Hglo Hghi Rlo Rhi Blo Bhi. destruct M as [|p|p]; cbn [binary_normalize].
  - rewrite F2Q_0 in Blo, Bhi. cbn. done.
  - by apply (binary_round_sandwich false).
  - apply (binary_round_sandwich true); try done.
    + rewrite <- F2Q_opp. done.
    + rewrite <- F2Q_opp. done.
Qed.

Lemma F2Q_plus m1 m2 e : F2Q (m1 + m2) e == F2Q m1 e + F2Q m2 e.
Proof. unfold F2Q. rewrite inject_Z_plus. ring. Qed.

Lemma F2Q_cond_Zopp (s : bool) m e :
  F2Q (cond_Zopp s m) e == (if s then - F2Q m e else F2Q m e).
Proof. destruct s; simpl; [apply F2Q_opp|reflexivity]. Qed.

Lemma SFadd_finite_value sx mx ex sy my ey :
  F2Q (cond_Zopp sx (Z.pos (fst (shl_align mx ex (Z.min ex ey))))
       + cond_Zopp sy (Z.pos (fst (shl_align my ey (Z.min ex ey)))))
      (Z.min ex ey)
  == SF2Q (S754_finite sx mx ex) + SF2Q (S754_finite sy my ey).
Proof.
  rewrite F2Q_plus, !F2Q_cond_Zopp. cbn [SF2Q]. rewrite !F2Q_cond_Zopp.
  revert sx sy.
  cut (F2Q (Z.pos (fst (shl_align mx ex (Z.min ex ey)))) (Z.min ex ey)
       == F2Q (Z.pos mx) ex
       ∧ F2Q (Z.pos (fst (shl_align my ey (Z.min ex ey)))) (Z.min ex ey)
         == F2Q (Z.pos my) ey).
  { intros [Hx' Hy'] sx sy. destruct sx, sy; rewrite Hx', Hy'; reflexivity. }
  pose proof (F2Q_shl_align mx ex (Z.min ex ey)) as Hx.
  pose proof (F2Q_shl_align my ey (Z.min ex ey)) as Hy.
  destruct (shl_align_spec mx ex (Z.min ex ey)) as [Ex _].
  destruct (shl_align_spec my ey (Z.min ex ey)) as [Ey _].
  rewrite Ex in Hx. rewrite Ey in Hy.
  replace (Z.min ex (Z.min ex ey)) with (Z.min ex ey) in Hx by lia.
  replace (Z.min ey (Z.min ex ey)) with (Z.min ex ey) in Hy by lia.
  done.
Qed.

(** The sum of two finite floats lies between any two numbers of the
    format, in range, that enclose the exact sum; so it is finite. *)
Lemma SFadd_sandwich a b glo ghi :
  SFfinite a = true → SFfinite b = true →
  in_format glo → in_format ghi → - bpow 1024 < glo → ghi < bpow 1024 →
  glo <= SF2Q a + SF2Q b → SF2Q a + SF2Q b <= ghi →
  SFfinite (SFadd prec emax a b) = true
  ∧ glo <= SF2Q (SFadd prec emax a b)
  ∧ SF2Q (SFadd prec emax a b) <= ghi.
Proof.
  intros Ha Hb Hglo Hghi Rlo Rhi Blo Bhi.
  destruct a as [sa| | |sa ma ea]; try done;
    destruct b as [sb| | |sb mb eb]; try done.
  - cbn [SF2Q] in Blo, Bhi.
    destruct sa, sb; cbn; split; try done; lra.
  - cbn [SFadd]. cbn [SF2Q] in Blo, Bhi |- *. split; [done|]. lra.
  - cbn [SFadd]. cbn [SF2Q] in Blo, Bhi |- *. split; [done|]. lra.
  - cbn [SFadd]. rewrite <- SFadd_finite_value in Blo, Bhi.
    destruct (binary_normalize_sandwich _ _ glo ghi Hglo Hghi Rlo Rhi Blo Bhi)
      as (_ & H1 & H2 & H3).
    done.
Qed.

(** ** Division *)

Lemma inject_Z_pos_lt (n : Z) : (0 < n)%Z → 0 < inject_Z n.
Proof. intros H. change 0 with (inject_Z 0). by rewrite <- Zlt_Qlt. Qed.

Lemma new_location_spec q nb k :
  (0 < nb)%Z → (0 ≤ k < nb)%Z →
  located q (new_location nb k) (inject_Z q + inject_Z k / inject_Z nb).
Proof.
  intros Hnb [Hk0 Hk]. pose proof (inject_Z_pos_lt nb Hnb) as Hpos.
  assert (Hlt : ∀ a b : Z, (a < b * nb)%Z → inject_Z a / inject_Z nb < inject_Z b).
  { intros a b H. apply Qlt_shift_div_r; [done|].
    rewrite <- inject_Z_mult, <- Zlt_Qlt. done. }
  assert (Hgt : ∀ a b : Z, (b * nb < a)%Z → inject_Z b < inject_Z a / inject_Z nb).
  { intros a b H. apply Qlt_shift_div_l; [done|].
    rewrite <- inject_Z_mult, <- Zlt_Qlt. done. }
  assert (Hhalf : ∀ a : Z, inject_Z a / inject_Z nb
                           == inject_Z (2 * a) / inject_Z nb * (1 # 2)).
  { intros a. rewrite inject_Z_mult. norm_inject. field. lra. }
  unfold new_location, new_location_even, new_location_odd.
  destruct (Z.eq_dec k 0%Z) as [->|Hne].
  { destruct (Z.even nb); cbn [Z.eqb located]; norm_inject; field; lra. }
  assert (0 < k)%Z as Hk1 by lia.
  pose proof (Hgt k 0%Z ltac:(lia)) as G0. pose proof (Hlt k 1%Z ltac:(lia)) as L1.
  norm_inject.
  destruct (Z.even nb) eqn:Ev; rewrite (proj2 (Z.eqb_neq k 0) Hne).
  - destruct (Z.compare_spec (2 * k) nb) as [E|L|G]; cbn [located].
    + rewrite Hhalf, E. field. lra.
    + pose proof (Hlt (2 * k)%Z 1%Z ltac:(lia)) as H. norm_inject.
      rewrite Hhalf in G0, L1 |- *. split; lra.
    + pose proof (Hgt (2 * k)%Z 1%Z ltac:(lia)) as H. norm_inject.
      rewrite Hhalf in G0, L1 |- *. split; lra.
  - assert (2 * k ≠ nb)%Z as Hodd.
    { intros <-. rewrite Z.even_mul in Ev. discriminate. }
    destruct (Z.compare_spec (2 * k + 1) nb) as [E|L|G]; cbn [located].
    + pose proof (Hlt (2 * k)%Z 1%Z ltac:(lia)) as H. norm_inject.
      rewrite Hhalf in G0, L1 |- *. split; lra.
    + pose proof (Hlt (2 * k)%Z 1%Z ltac:(lia)) as H. norm_inject.
      rewrite Hhalf in G0, L1 |- *. split; lra.
    + pose proof (Hgt (2 * k)%Z 1%Z ltac:(lia)) as H. norm_inject.
      rewrite Hhalf in G0, L1 |- *. split; lra.
Qed.

Lemma Zdigits2_lower q k : (0 ≤ k)%Z → (2 ^ k ≤ q)%Z → (k < Zdigits2 q)%Z.
Proof.
  intros Hk Hq.
  assert (0 < 2 ^ k)%Z by (apply Z.pow_pos_nonneg; lia).
  pose proof (Zdigits2_bounds q ltac:(lia)) as [_ B].
  destruct (Z.lt_ge_cases k (Zdigits2 q)) as [|Hge]; [done|].
  assert (2 ^ Zdigits2 q ≤ 2 ^ k)%Z.
  { apply Z.pow_le_mono_r; [lia|done]. }
  lia.
Qed.

Lemma SFdiv_core_spec mx ex my ey :
  ∃ q e' l,
    SFdiv_core_binary prec emax (Z.pos mx) ex (Z.pos my) ey = (q, e', l)
    ∧ (0 ≤ q)%Z
    ∧ located q l (F2Q (Z.pos mx) ex / F2Q (Z.pos my) ey * bpow (- e'))
    ∧ (e' ≤ fexp64 (Zdigits2 q + e'))%Z.
Proof.
  unfold SFdiv_core_binary.
  set (d1 := Zdigits2 (Z.pos mx)). set (d2 := Zdigits2 (Z.pos my)).
  change (fexp prec emax (d1 + ex - (d2 + ey)))
    with (fexp64 (d1 + ex - (d2 + ey))).
  set (e' := Z.min (fexp64 (d1 + ex - (d2 + ey))) (ex - ey)).
  set (s := (ex - ey - e')%Z).
  assert (0 ≤ s)%Z as Hs by lia.
  set (m' := match s with
             | 0%Z => Z.pos mx
             | Z.pos _ => Z.shiftl (Z.pos mx) s
             | Z.neg _ => 0%Z
             end).
  assert (m' = Z.pos mx * 2 ^ s)%Z as Em'.
  { subst m'. destruct s as [|p|p] eqn:E; [lia| |lia].
    by rewrite Z.shiftl_mul_pow2. }
  pose proof (Z_div_mod m' (Z.pos my) ltac:(lia)) as Hdiv.
  destruct (Z.div_eucl m' (Z.pos my)) as [q r]. destruct Hdiv as [Eq Hr].
  assert (0 < 2 ^ s)%Z as Hp by (apply Z.pow_pos_nonneg; lia).
  assert (0 ≤ q)%Z as Hq by nia.
  exists q, e', (new_location (Z.pos my) r).
  split; [reflexivity|]. split; [done|]. split.
  - eapply located_proper; [|apply (new_location_spec q (Z.pos my) r); lia].
    pose proof (inject_Z_pos_lt (Z.pos my) ltac:(lia)) as Hmy.
    pose proof (bpow_pos ey) as Hey. pose proof (bpow_pos e') as He'.
    assert (inject_Z q + inject_Z r / inject_Z (Z.pos my)
            == inject_Z m' / inject_Z (Z.pos my)) as ->.
    { rewrite Eq, inject_Z_plus, inject_Z_mult. field. lra. }
    rewrite Em', inject_Z_mult, <- bpow_Z by done. unfold F2Q.
    replace ex with (ey + (e' + s))%Z at 1 by lia.
    rewrite !bpow_plus, (Qpower_opp 2 e' : bpow (- e') == / bpow e').
    field. lra.
  - eapply Z.le_trans; [apply Z.le_min_l|]. apply fexp64_mono.
    destruct (Z.le_gt_cases (d1 + s - d2) 0) as [Hle|Hgt].
    { pose proof (Zdigits2_nonneg q). lia. }
    pose proof (Zdigits2_bounds (Z.pos mx) ltac:(lia)) as [B1 _].
    pose proof (Zdigits2_bounds (Z.pos my) ltac:(lia)) as [_ B2].
    fold d1 in B1. fold d2 in B2.
    assert (0 < d1)%Z by (apply Zdigits2_pos; lia).
    assert (0 < d2)%Z by (apply Zdigits2_pos; lia).
    set (k := (d1 + s - d2 - 1)%Z).
    assert (2 ^ (d1 - 1) * 2 ^ s = 2 ^ k * 2 ^ d2)%Z as Epow.
    { rewrite <- !Z.pow_add_r by lia. f_equal. lia. }
    assert (0 < 2 ^ k)%Z by (apply Z.pow_pos_nonneg; lia).
    assert (0 < 2 ^ d2)%Z by (apply Z.pow_pos_nonneg; lia).
    assert (2 ^ k ≤ q)%Z as Hqk by nia.
    pose proof (Zdigits2_lower q k ltac:(lia) Hqk). lia.
Qed.

(** The quotient of two finite floats, which need not be canonical, lies
    between any two numbers of the format, in range, that enclose the
    exact quotient; so it is finite. *)
Lemma SFdiv_sandwich sx mx ex sy my ey glo ghi :
  in_format glo → in_format ghi → - bpow 1024 < glo → ghi < bpow 1024 →
  glo <= SF2Q (S754_finite sx mx ex) / SF2Q (S754_finite sy my ey) →
  SF2Q (S754_finite sx mx ex) / SF2Q (S754_finite sy my ey) <= ghi →
  valid_binary (SFdiv prec emax (S754_finite sx mx ex) (S754_finite sy my ey))
  = true
  ∧ SFfinite (SFdiv prec emax (S754_finite sx mx ex) (S754_finite sy my ey))
    = true
  ∧ glo <= SF2Q (SFdiv prec emax (S754_finite sx mx ex) (S754_finite sy my ey))
  ∧ SF2Q (SFdiv prec emax (S754_finite sx mx ex) (S754_finite sy my ey)) <= ghi.
Proof.
  intros Hglo Hghi Rlo Rhi Blo Bhi. cbn [SFdiv].
  destruct (SFdiv_core_spec mx ex my ey) as (q & e' & l & -> & Hq & Hloc & He).
  apply (binary_round_aux_sandwich (xorb sx sy) q e' l
           (F2Q (Z.pos mx) ex / F2Q (Z.pos my) ey)); try done.
  - eapply Qle_trans; [exact Blo|]. apply Qle_lteq. right.
    cbn [SF2Q]. pose proof (F2Q_pos (Z.pos my) ey ltac:(lia)).
    destruct sx, sy; cbn [cond_Zopp xorb];
      change (Z.neg mx) with (- Z.pos mx)%Z; change (Z.neg my) with (- Z.pos my)%Z;
      rewrite ?F2Q_opp; field; lra.
  - eapply Qle_trans; [|exact Bhi]. apply Qle_lteq. right.
    cbn [SF2Q]. pose proof (F2Q_pos (Z.pos my) ey ltac:(lia)).
    destruct sx, sy; cbn [cond_Zopp xorb];
      change (Z.neg mx) with (- Z.pos mx)%Z; change (Z.neg my) with (- Z.pos my)%Z;
      rewrite ?F2Q_opp; field; lra.
Qed.

(** ** The order of the floats *)

Lemma valid_canonical s m e :
  valid_binary (S754_finite s m e) = true →
  fexp64 (Zdigits2 (Z.pos m) + e) = e ∧ (e ≤ 971)%Z.
Proof.
  cbn [valid_binary]. unfold bounded, canonical_mantissa.
  intros [H1 H2]%andb_true_iff. apply Z.eqb_eq in H1. apply Z.leb_le in H2.
  done.
Qed.

Lemma canonical_lt m1 e1 m2 e2 :
  fexp64 (Zdigits2 (Z.pos m1) + e1) = e1 →
  fexp64 (Zdigits2 (Z.pos m2) + e2) = e2 → (e1 < e2)%Z →
  F2Q (Z.pos m1) e1 < F2Q (Z.pos m2) e2.
Proof.
  intros C1 C2 Hlt.
  destruct (canonical_digits (Z.pos m1) e1 ltac:(lia) C1) as (D1 & M1 & _).
  destruct (canonical_digits (Z.pos m2) e2 ltac:(lia) C2) as (_ & _ & D2).
  destruct (F2Q_bounds (Z.pos m1) e1 ltac:(lia)) as [_ U1].
  destruct (F2Q_bounds (Z.pos m2) e2 ltac:(lia)) as [L2 _].
  eapply Qlt_le_trans; [exact U1|]. eapply Qle_trans; [|exact L2].
  apply bpow_le. lia.
Qed.

Lemma Qcompare_Lt a b : a < b → (a ?= b) = Lt.
Proof. apply Qlt_alt. Qed.

Lemma Qcompare_Gt a b : b < a → (a ?= b) = Gt.
Proof. apply Qgt_alt. Qed.

Lemma Qcompare_Eq a b : a == b → (a ?= b) = Eq.
Proof. apply Qeq_alt. Qed.

Lemma SFcompare_spec f g :
  valid_binary f = true → valid_binary g = true →
  SFfinite f = true → SFfinite g = true →
  SFcompare f g = Some (SF2Q f ?= SF2Q g).
Proof.
  intros Vf Vg Ff Fg.
  destruct f as [sf| | |sf mf ef]; try done;
    destruct g as [sg| | |sg mg eg]; try done; cbn [SFcompare SF2Q].
  - f_equal. symmetry. pose proof (F2Q_pos (Z.pos mg) eg ltac:(lia)) as Hp.
    destruct sg; cbn [cond_Zopp].
    + apply Qcompare_Gt. change (Z.neg mg) with (- Z.pos mg)%Z.
      rewrite F2Q_opp. lra.
    + by apply Qcompare_Lt.
  - f_equal. symmetry. pose proof (F2Q_pos (Z.pos mf) ef ltac:(lia)) as Hp.
    destruct sf; cbn [cond_Zopp].
    + apply Qcompare_Lt. change (Z.neg mf) with (- Z.pos mf)%Z.
      rewrite F2Q_opp. lra.
    + by apply Qcompare_Gt.
  - f_equal. symmetry.
    apply valid_canonical in Vf as [Cf _]. apply valid_canonical in Vg as [Cg _].
    pose proof (F2Q_pos (Z.pos mf) ef ltac:(lia)) as Hpf.
    pose proof (F2Q_pos (Z.pos mg) eg ltac:(lia)) as Hpg.
    change (Pos.compare_cont Eq mf mg) with (Pos.compare mf mg).
    destruct sf, sg; cbn [cond_Zopp];
      change (Z.neg mf) with (- Z.pos mf)%Z;
      change (Z.neg mg) with (- Z.pos mg)%Z; rewrite ?F2Q_opp.
    + destruct (Z.compare_spec ef eg) as [->|Hlt|Hgt].
      * destruct (Pos.compare_spec mf mg) as [->|Hlt|Hgt]; cbn [CompOpp].
        -- by apply Qcompare_Eq.
        -- apply Qcompare_Gt.
           pose proof (F2Q_lt (Z.pos mf) (Z.pos mg) eg ltac:(lia)). lra.
        -- apply Qcompare_Lt.
           pose proof (F2Q_lt (Z.pos mg) (Z.pos mf) eg ltac:(lia)). lra.
      * apply Qcompare_Gt. pose proof (canonical_lt _ _ _ _ Cf Cg Hlt). lra.
      * apply Qcompare_Lt. pose proof (canonical_lt _ _ _ _ Cg Cf Hgt). lra.
    + apply Qcompare_Lt. lra.
    + apply Qcompare_Gt. lra.
    + destruct (Z.compare_spec ef eg) as [->|Hlt|Hgt].
      * destruct (Pos.compare_spec mf mg) as [->|Hlt|Hgt].
        -- by apply Qcompare_Eq.
        -- apply Qcompare_Lt. apply F2Q_lt. lia.
        -- apply Qcompare_Gt. apply F2Q_lt. lia.
      * apply Qcompare_Lt. by apply canonical_lt.
      * apply Qcompare_Gt. by apply canonical_lt.
Qed.

(** A valid float that denotes a number denotes a number of the format,
    in range. *)
Lemma valid_in_format f :
  valid_binary f = true →
  in_format (SF2Q f) ∧ - bpow 1024 < SF2Q f ∧ SF2Q f < bpow 1024.
Proof.
  intros V. pose proof (bpow_pos 1024) as Hp.
  assert (in_format 0 ∧ - bpow 1024 < 0 ∧ 0 < bpow 1024) as H0.
  { split; [|lra]. exists 0%Z, 0%Z. split; [by rewrite F2Q_0|].
    rewrite fexp64_eq. simpl. lia. }
  destruct f as [sf| | |s m e]; cbn [SF2Q]; try done.
  apply valid_canonical in V as [C He].
  destruct (canonical_digits (Z.pos m) e ltac:(lia) C) as (D & _ & _).
  destruct (F2Q_bounds (Z.pos m) e ltac:(lia)) as [_ U].
  pose proof (F2Q_pos (Z.pos m) e ltac:(lia)) as Hpos.
  assert (bpow (Zdigits2 (Z.pos m) + e) <= bpow 1024) by (apply bpow_le; lia).
  split.
  - exists (cond_Zopp s (Z.pos m)), e. split; [reflexivity|].
    assert (Zdigits2 (cond_Zopp s (Z.pos m)) = Zdigits2 (Z.pos m)) as ->
      by by destruct s.
    rewrite C. lia.
  - destruct s; cbn [cond_Zopp]; change (Z.neg m) with (- Z.pos m)%Z;
      rewrite ?F2Q_opp; lra.
Qed.

End RoundingFacts.

(* ===================================================================== *)
(** * Facts about the statistics on floats *)

Module Binary64Facts.
Import Binary64 RoundingFacts.
Local Open Scope Q_scope.

Lemma finite_float_SF x : finite_float x = SFfinite (Prim2SF x).
Proof. reflexivity. Qed.

Lemma compare_exact x y :
  finite_float x = true → finite_float y = true →
  SFcompare (Prim2SF x) (Prim2SF y) = Some (exact x ?= exact y).
Proof. intros Hx Hy. apply SFcompare_spec; auto using Prim2SF_valid. Qed.

Lemma ltb_true x y :
  finite_float x = true → finite_float y = true →
  (x <? y)%float = true → exact x < exact y.
Proof.
  intros Hx Hy. rewrite ltb_spec. unfold SFltb. rewrite compare_exact by done.
  destruct (exact x ?= exact y) eqn:E; [done| |done]. intros _. by apply Qlt_alt.
Qed.

Lemma ltb_false x y :
  finite_float x = true → finite_float y = true →
  (x <? y)%float = false → exact y <= exact x.
Proof.
  intros Hx Hy. rewrite ltb_spec. unfold SFltb. rewrite compare_exact by done.
  destruct (exact x ?= exact y) eqn:E; [|done|]; intros _.
  - apply Qeq_alt in E. rewrite E. apply Qle_refl.
  - apply Qgt_alt in E. by apply Qlt_le_weak.
Qed.

Lemma leb_true x y :
  finite_float x = true → finite_float y = true →
  exact x <= exact y → (x <=? y)%float = true.
Proof.
  intros Hx Hy H. rewrite leb_spec. unfold SFleb. rewrite compare_exact by done.
  destruct (exact x ?= exact y) eqn:E; [done|done|].
  apply Qgt_alt in E. lra.
Qed.

Lemma Prim2SF_half_max :
  Prim2SF 0x1p1023 = S754_finite false 4503599627370496 971.
Proof. reflexivity. Qed.

Lemma Prim2SF_two : Prim2SF 2 = S754_finite false 4503599627370496 (-51).
Proof. reflexivity. Qed.

Lemma F2Q_half_max : F2Q 4503599627370496 971 == bpow 1023.
Proof. change 4503599627370496%Z with (2 ^ 52)%Z. by rewrite F2Q_pow2. Qed.

Lemma F2Q_two : F2Q 4503599627370496 (-51) == 2.
Proof. change 4503599627370496%Z with (2 ^ 52)%Z. by rewrite F2Q_pow2. Qed.

(** A sample below the bound is finite, and the number it denotes is below
    [2 ** 1023] in magnitude. *)
Lemma below_half_max_spec t :
  below_half_max t = true →
  finite_float t = true ∧ - bpow 1023 < exact t ∧ exact t < bpow 1023.
Proof.
  unfold below_half_max, exact. rewrite ltb_spec, abs_spec, Prim2SF_half_max.
  rewrite finite_float_SF. pose proof (Prim2SF_valid t) as V.
  pose proof (bpow_pos 1023) as Hp.
  destruct (Prim2SF t) as [s|s| |s m e]; cbn [SFabs SFfinite SF2Q].
  - intros _. split; [done|]. lra.
  - by destruct s.
  - done.
  - unfold SFltb. rewrite SFcompare_spec; [|exact V|done..].
    cbn [SF2Q cond_Zopp]. rewrite F2Q_half_max.
    destruct (F2Q (Z.pos m) e ?= bpow 1023) eqn:E; [done| |done]. intros _.
    apply Qlt_alt in E. pose proof (F2Q_pos (Z.pos m) e ltac:(lia)).
    split; [done|].
    destruct s; cbn [cond_Zopp]; change (Z.neg m) with (- Z.pos m)%Z;
      rewrite ?F2Q_opp; lra.
Qed.

Lemma in_format_exact t : in_format (exact t).
Proof. apply valid_in_format, Prim2SF_valid. Qed.

Lemma in_format_double g : in_format g → in_format (2 * g).
Proof.
  intros (m & e & E & H). exists m, (e + 1)%Z. split.
  - rewrite E. unfold F2Q. rewrite bpow_succ. ring.
  - rewrite fexp64_eq in *. lia.
Qed.

(** ** Rounding a fraction *)

Lemma exact_zero : exact PrimFloat.zero = 0.
Proof. reflexivity. Qed.

Lemma float_of_ratio_sandwich p d glo ghi :
  in_format glo → in_format ghi → - bpow 1024 < glo → ghi < bpow 1024 →
  glo <= Z.pos p # d → Z.pos p # d <= ghi →
  finite_float (Conv.float_of_ratio (N.pos p) d) = true
  ∧ glo <= exact (Conv.float_of_ratio (N.pos p) d)
  ∧ exact (Conv.float_of_ratio (N.pos p) d) <= ghi.
Proof.
  intros Hglo Hghi Rlo Rhi Blo Bhi. unfold Conv.float_of_ratio, exact.
  assert (SF2Q (S754_finite false p 0) / SF2Q (S754_finite false d 0)
          == Z.pos p # d) as E.
  { cbn [SF2Q cond_Zopp]. unfold F2Q. rewrite bpow_0, !Qmult_1_r.
    symmetry. apply Qmake_Qdiv. }
  rewrite <- E in Blo, Bhi.
  destruct (SFdiv_sandwich false p 0 false d 0 glo ghi Hglo Hghi Rlo Rhi Blo Bhi)
    as (V & F & L & U).
  rewrite finite_float_SF, Prim2SF_SF2Prim by done. done.
Qed.

Lemma float_of_Q_sandwich q glo ghi :
  in_format glo → in_format ghi → - bpow 1024 < glo → ghi < bpow 1024 →
  glo <= q → q <= ghi →
  finite_float (float_of_Q q) = true
  ∧ glo <= exact (float_of_Q q) ∧ exact (float_of_Q q) <= ghi.
Proof.
  intros Hglo Hghi Rlo Rhi Blo Bhi. destruct q as [n d].
  unfold float_of_Q. cbn [Qnum Qden]. destruct n as [|p|p].
  - rewrite exact_zero. split; [done|].
    assert (0 # d == 0) as E by reflexivity. rewrite E in Blo, Bhi. done.
  - by apply float_of_ratio_sandwich.
  - destruct (float_of_ratio_sandwich p d (- ghi) (- glo)) as (F & L & U);
      try (by apply in_format_opp); try lra.
    + assert (Z.neg p # d == - (Z.pos p # d)) as E by reflexivity. lra.
    + assert (Z.neg p # d == - (Z.pos p # d)) as E by reflexivity. lra.
    + assert (exact (- Conv.float_of_ratio (N.pos p) d)
              == - exact (Conv.float_of_ratio (N.pos p) d)) as E.
      { unfold exact. rewrite opp_spec.
        destruct (Prim2SF (Conv.float_of_ratio (N.pos p) d)) as [s|s| |s m e];
          cbn [SFopp SF2Q]; try reflexivity.
        destruct s; cbn [negb cond_Zopp]; change (Z.neg m) with (- Z.pos m)%Z;
          rewrite ?F2Q_opp; ring. }
      rewrite E. split; [|lra].
      rewrite finite_float_SF, opp_spec. rewrite finite_float_SF in F.
      by destruct (Prim2SF (Conv.float_of_ratio (N.pos p) d)).
Qed.

(** ** The mean *)

Lemma filter_not_finite xs :
  Forall (fun x => finite_float x = true) xs →
  filter (fun x => finite_float x = false) xs = [].
Proof.
  induction 1 as [|x xs Hx _ IH]; [done|].
  rewrite filter_cons, IH. destruct (decide _) as [E|]; [congruence|done].
Qed.

Lemma mean_sandwich x xs glo ghi :
  Forall (fun t => finite_float t = true) (x :: xs) →
  in_format glo → in_format ghi → - bpow 1024 < glo → ghi < bpow 1024 →
  Forall (fun t => glo <= exact t) (x :: xs) →
  Forall (fun t => exact t <= ghi) (x :: xs) →
  ∃ avg, mean (x :: xs) = Ok avg ∧ finite_float avg = true
         ∧ glo <= exact avg ∧ exact avg <= ghi.
Proof.
  intros Hfin Hglo Hghi Rlo Rhi Blo Bhi. unfold mean.
  rewrite filter_not_finite by done.
  destruct (StatisticsFacts.mean_bounds glo ghi (exact x) (exact <$> xs))
    as (q & Hq & Lq & Uq).
  { change (exact x :: (exact <$> xs)) with (exact <$> (x :: xs)).
    by apply Forall_fmap. }
  { change (exact x :: (exact <$> xs)) with (exact <$> (x :: xs)).
    by apply Forall_fmap. }
  change (exact <$> x :: xs) with (exact x :: (exact <$> xs)).
  rewrite Hq. cbn [mbind result_bind].
  destruct (float_of_Q_sandwich q glo ghi Hglo Hghi Rlo Rhi Lq Uq) as (F & L & U).
  rewrite F. eauto.
Qed.

(** ** The median *)

Lemma float_elem_of_insert_sorted x y l : y ∈ insert_sorted x l → y = x ∨ y ∈ l.
Proof.
  induction l as [|z l IH]; simpl.
  - intros ->%list_elem_of_singleton. by left.
  - destruct (z <? x)%float.
    + intros [->|H]%elem_of_cons; [right; by left|].
      destruct (IH H); [by left|right; by right].
    + intros [->|H]%elem_of_cons; [by left|by right].
Qed.

Lemma float_elem_of_sorted y xs : y ∈ sorted xs → y ∈ xs.
Proof.
  induction xs as [|x xs IH]; simpl; [done|].
  intros [->|H]%float_elem_of_insert_sorted; [by left|right; by apply IH].
Qed.

Lemma float_length_insert_sorted x l : length (insert_sorted x l) = S (length l).
Proof.
  induction l as [|z l IH]; simpl; [done|].
  destruct (z <? x)%float; simpl; by rewrite ?IH.
Qed.

Lemma float_length_sorted xs : length (sorted xs) = length xs.
Proof.
  induction xs as [|x xs IH]; simpl; [done|].
  by rewrite float_length_insert_sorted, IH.
Qed.

(** The float average of two samples between [glo] and [ghi], themselves
    below [2 ** 1023] in magnitude, lies between them. *)
Lemma average_sandwich a b glo ghi :
  finite_float a = true → finite_float b = true →
  in_format glo → in_format ghi → - bpow 1023 < glo → ghi < bpow 1023 →
  glo <= exact a → exact a <= ghi → glo <= exact b → exact b <= ghi →
  finite_float ((a + b) / 2)%float = true
  ∧ glo <= exact ((a + b) / 2)%float ∧ exact ((a + b) / 2)%float <= ghi.
Proof.
  intros Fa Fb Hglo Hghi Rlo Rhi La Ua Lb Ub.
  assert (bpow 1024 == 2 * bpow 1023) as E1024 by (by rewrite <- bpow_succ).
  destruct (SFadd_sandwich (Prim2SF a) (Prim2SF b) (2 * glo) (2 * ghi))
    as (Fs & Ls & Us); try done.
  { by apply in_format_double. }
  { by apply in_format_double. }
  { lra. }
  { lra. }
  { fold (exact a) (exact b). lra. }
  { fold (exact a) (exact b). lra. }
  change (SFadd prec emax) with SF64add in Fs, Ls, Us.
  rewrite <- add_spec in Fs, Ls, Us.
  rewrite finite_float_SF. unfold exact.
  rewrite div_spec, Prim2SF_two. unfold SF64div.
  destruct (Prim2SF (a + b)) as [s|s| |s m e]; try done.
  - cbn [SFdiv SFfinite SF2Q] in *. split; [done|]. lra.
  - assert (bpow 1023 < bpow 1024) by (apply bpow_lt; lia).
    destruct (SFdiv_sandwich s m e false 4503599627370496 (-51) glo ghi)
      as (_ & F & L & U); try done; try lra.
    + cbn [SF2Q cond_Zopp] in *. rewrite F2Q_two.
      apply Qle_shift_div_l; lra.
    + cbn [SF2Q cond_Zopp] in *. rewrite F2Q_two.
      apply Qle_shift_div_r; lra.
Qed.

Lemma median_sandwich x xs glo ghi :
  Forall (fun t => finite_float t = true) (x :: xs) →
  in_format glo → in_format ghi → - bpow 1023 < glo → ghi < bpow 1023 →
  Forall (fun t => glo <= exact t) (x :: xs) →
  Forall (fun t => exact t <= ghi) (x :: xs) →
  ∃ med, median (x :: xs) = Ok med ∧ finite_float med = true
         ∧ glo <= exact med ∧ exact med <= ghi.
Proof.
  intros Hfin Hglo Hghi Rlo Rhi Blo Bhi. unfold median.
  set (data := sorted (x :: xs)).
  assert (Hn : length data = S (length xs)) by apply float_length_sorted.
  assert (Hb : ∀ k a, data !! k = Some a →
               finite_float a = true ∧ glo <= exact a ∧ exact a <= ghi).
  { intros k a Hk. apply list_elem_of_lookup_2, float_elem_of_sorted in Hk.
    rewrite Forall_forall in Hfin, Blo, Bhi. auto. }
  set (n := length data) in *.
  destruct (n =? 0)%nat eqn:E0; [apply Nat.eqb_eq in E0; lia|].
  destruct (n mod 2 =? 1)%nat eqn:E1.
  - destruct (lookup_lt_is_Some_2 data (n / 2)%nat) as [a Ha].
    { apply Nat.div_lt; lia. }
    exists a. unfold py_index. rewrite Ha. split; [done|]. by eapply Hb.
  - apply Nat.eqb_neq in E1.
    assert (n mod 2 = 0)%nat as Heven.
    { pose proof (Nat.mod_upper_bound n 2). lia. }
    pose proof (Nat.div_mod_eq n 2) as Hdiv.
    destruct (lookup_lt_is_Some_2 data (n / 2 - 1)%nat) as [a Ha]; [lia|].
    destruct (lookup_lt_is_Some_2 data (n / 2)%nat) as [b Hb']; [lia|].
    exists ((a + b) / 2)%float. unfold py_index. rewrite Ha, Hb'.
    split; [done|].
    destruct (Hb _ _ Ha) as (Fa & La & Ua), (Hb _ _ Hb') as (Fb & Lb & Ub).
    by apply average_sandwich.
Qed.

(** ** The minimum and the maximum *)

Lemma float_fold_min_spec xs m :
  Forall (fun t => finite_float t = true) (m :: xs) →
  let lo := fold_left (fun m y => if (y <? m)%float then y else m) xs m in
  lo ∈ m :: xs ∧ exact lo <= exact m ∧ Forall (fun y => exact lo <= exact y) xs.
Proof.
  revert m. induction xs as [|y xs IH]; intros m Hfin; simpl.
  - split; [left|]. split; [apply Qle_refl|constructor].
  - apply Forall_cons in Hfin as [Fm Hfin]. apply Forall_cons in Hfin as [Fy Hfin].
    destruct (y <? m)%float eqn:E.
    + apply ltb_true in E; [|done..].
      destruct (IH y) as (H0 & H1 & H2); [by constructor|].
      split; [right; done|]. split; [lra|]. by constructor.
    + apply ltb_false in E; [|done..].
      destruct (IH m) as (H0 & H1 & H2); [by constructor|].
      split.
      { apply elem_of_cons in H0 as [->|H0]; [left|right; right; done]. }
      split; [done|]. constructor; [lra|done].
Qed.

Lemma float_fold_max_spec xs m :
  Forall (fun t => finite_float t = true) (m :: xs) →
  let hi := fold_left (fun m y => if (m <? y)%float then y else m) xs m in
  hi ∈ m :: xs ∧ exact m <= exact hi ∧ Forall (fun y => exact y <= exact hi) xs.
Proof.
  revert m. induction xs as [|y xs IH]; intros m Hfin; simpl.
  - split; [left|]. split; [apply Qle_refl|constructor].
  - apply Forall_cons in Hfin as [Fm Hfin]. apply Forall_cons in Hfin as [Fy Hfin].
    destruct (m <? y)%float eqn:E.
    + apply ltb_true in E; [|done..].
      destruct (IH y) as (H0 & H1 & H2); [by constructor|].
      split; [right; done|]. split; [lra|]. by constructor.
    + apply ltb_false in E; [|done..].
      destruct (IH m) as (H0 & H1 & H2); [by constructor|].
      split.
      { apply elem_of_cons in H0 as [->|H0]; [left|right; right; done]. }
      split; [done|]. constructor; [lra|done].
Qed.

Lemma py_min_spec x xs :
  Forall (fun t => finite_float t = true) (x :: xs) →
  ∃ lo, py_min (x :: xs) = Ok lo ∧ lo ∈ x :: xs
        ∧ Forall (fun y => exact lo <= exact y) (x :: xs).
Proof.
  intros Hfin. eexists. split; [reflexivity|].
  destruct (float_fold_min_spec xs x Hfin) as (H0 & H1 & H2).
  split; [done|]. by constructor.
Qed.

Lemma py_max_spec x xs :
  Forall (fun t => finite_float t = true) (x :: xs) →
  ∃ hi, py_max (x :: xs) = Ok hi ∧ hi ∈ x :: xs
        ∧ Forall (fun y => exact y <= exact hi) (x :: xs).
Proof.
  intros Hfin. eexists. split; [reflexivity|].
  destruct (float_fold_max_spec xs x Hfin) as (H0 & H1 & H2).
  split; [done|]. by constructor.
Qed.

End Binary64Facts.

(* ===================================================================== *)
(** * The aggregator: properties *)

Import StatisticsFacts.

(** What [print_statistics] prints on a non-empty list, given the values of
    the statistics. *)
Lemma print_statistics_nonempty x xs language avg med lo hi :
  mean (x :: xs) = Ok avg → median (x :: xs) = Ok med →
  py_min (x :: xs) = Ok lo → py_max (x :: xs) = Ok hi →
  print_statistics (x :: xs) language
  = ([StatisticsHeader language; SuccessfulRuns (S (length xs));
      AverageTime avg; MedianTime med; MinTime lo; MaxTime hi]
     ++ match xs with
        | [] => []
        | _ :: _ =>
            match variance (x :: xs) with
            | Ok var => [StandardDeviation var]
            | Raise _ => []
            end
        end, Ok tt).
Proof.
  intros Havg Hmed Hlo Hhi. unfold print_statistics.
  rewrite Havg, Hmed, Hlo, Hhi.
  destruct xs as [|y ys]; [reflexivity|].
  destruct (variance_ok x y ys) as [var Hvar]. rewrite Hvar. reflexivity.
Qed.

(** C6.  On an empty sequence [print_statistics] prints the no-data message
    and no statistic at all; on a single sample it prints the count, the
    mean, the median, the minimum and the maximum, all equal to the sample,
    and no standard deviation. *)
Theorem C6_no_data_and_single_sample (language : string) :
  print_statistics [] language = ([NoTimesRecorded language], Ok tt)
  ∧ ∀ x : Q, ∃ avg,
      (avg == x)%Q
      ∧ print_statistics [x] language
        = ([StatisticsHeader language; SuccessfulRuns 1; AverageTime avg;
            MedianTime x; MinTime x; MaxTime x], Ok tt).
Proof.
  split; [reflexivity|]. intros x.
  exists (sum [x] / len [x])%Q. split.
  - unfold sum, len. simpl. field.
  - reflexivity.
Qed.

(** On exact rationals: for two samples or more, [print_statistics] prints
    all seven lines, and the values satisfy min ≤ median ≤ max and
    min ≤ mean ≤ max. *)
Lemma print_statistics_bounds_exact (times : list Q) (language : string) :
  (2 ≤ length times)%nat →
  ∃ avg med lo hi var,
    print_statistics times language
    = ([StatisticsHeader language; SuccessfulRuns (length times);
        AverageTime avg; MedianTime med; MinTime lo; MaxTime hi;
        StandardDeviation var], Ok tt)
    ∧ (lo <= med)%Q ∧ (med <= hi)%Q ∧ (lo <= avg)%Q ∧ (avg <= hi)%Q.
Proof.
  destruct times as [|x [|y ys]]; [simpl; lia..|]. intros _.
  destruct (py_min_lower x (y :: ys)) as (lo & Hlo & Blo).
  destruct (py_max_upper x (y :: ys)) as (hi & Hhi & Bhi).
  destruct (mean_bounds lo hi x (y :: ys) Blo Bhi) as (avg & Havg & A1 & A2).
  destruct (median_bounds lo hi x (y :: ys) Blo Bhi) as (med & Hmed & M1 & M2).
  destruct (variance_ok x y ys) as [var Hvar].
  exists avg, med, lo, hi, var.
  rewrite (print_statistics_nonempty _ _ _ _ _ _ _ Havg Hmed Hlo Hhi), Hvar.
  done.
Qed.

Example print_statistics_four_samples :
  print_statistics [5#1; 1#1; 3#1; 2#1] "Java"
  = ([StatisticsHeader "Java"; SuccessfulRuns 4; AverageTime (11 # 4);
      MedianTime (5 # 2); MinTime 1; MaxTime 5;
      StandardDeviation (573440 # 196608)], Ok tt).
Proof. vm_compute. reflexivity. Qed.

(* ===================================================================== *)
(** * The reported statistics, on floats *)

Import Binary64Facts.

Lemma print_statistics_head_values x xs language avg med lo hi :
  Binary64.mean (x :: xs) = Ok avg → Binary64.median (x :: xs) = Ok med →
  Binary64.py_min (x :: xs) = Ok lo → Binary64.py_max (x :: xs) = Ok hi →
  Binary64.print_statistics_head (x :: xs) language
  = ([Binary64.Header language; Binary64.Runs (S (length xs));
      Binary64.Average avg; Binary64.Median med; Binary64.Min lo;
      Binary64.Max hi], Ok tt).
Proof.
  intros Havg Hmed Hlo Hhi. unfold Binary64.print_statistics_head.
  by rewrite Havg, Hmed, Hlo, Hhi.
Qed.

(** C8, as the code has it.  In the arithmetic of the interpreter, for two
    samples or more that are finite and below [2 ** 1023] in magnitude,
    [print_statistics] prints the mean, the median, the minimum and the
    maximum, and the values it prints satisfy min ≤ median ≤ max and
    min ≤ mean ≤ max. *)
Theorem C8_median_and_mean_within_range (times : list float) (language : string) :
  (2 ≤ length times)%nat →
  Forall (fun t => Binary64.below_half_max t = true) times →
  ∃ avg med lo hi,
    Binary64.print_statistics_head times language
    = ([Binary64.Header language; Binary64.Runs (length times);
        Binary64.Average avg; Binary64.Median med; Binary64.Min lo;
        Binary64.Max hi], Ok tt)
    ∧ (lo <=? med)%float = true ∧ (med <=? hi)%float = true
    ∧ (lo <=? avg)%float = true ∧ (avg <=? hi)%float = true.
Proof.
  destruct times as [|x xs]; [simpl; lia|]. intros _ Hsmall.
  assert (Hspec : Forall (fun t => finite_float t = true
                            ∧ (- Binary64.bpow 1023 < Binary64.exact t)%Q
                            ∧ (Binary64.exact t < Binary64.bpow 1023)%Q) (x :: xs)).
  { eapply Forall_impl; [exact Hsmall|]. intros t. apply below_half_max_spec. }
  assert (Hfin : Forall (fun t => finite_float t = true) (x :: xs)).
  { eapply Forall_impl; [exact Hspec|]. by intros t [? _]. }
  destruct (py_min_spec x xs Hfin) as (lo & Hlo & Ilo & Blo).
  destruct (py_max_spec x xs Hfin) as (hi & Hhi & Ihi & Bhi).
  rewrite Forall_forall in Hspec.
  destruct (Hspec lo Ilo) as (Flo & Rlo & _).
  destruct (Hspec hi Ihi) as (Fhi & _ & Rhi).
  assert (Binary64.bpow 1023 < Binary64.bpow 1024)%Q as Hlt
    by (apply RoundingFacts.bpow_lt; lia).
  destruct (mean_sandwich x xs (Binary64.exact lo) (Binary64.exact hi))
    as (avg & Havg & Favg & Lavg & Uavg);
    [done|apply in_format_exact|apply in_format_exact|lra|lra|done|done|].
  destruct (median_sandwich x xs (Binary64.exact lo) (Binary64.exact hi))
    as (med & Hmed & Fmed & Lmed & Umed);
    [done|apply in_format_exact|apply in_format_exact|done|done|done|done|].
  exists avg, med, lo, hi.
  rewrite (print_statistics_head_values _ _ _ _ _ _ _ Havg Hmed Hlo Hhi).
  split; [done|]. by rewrite !leb_true.
Qed.

Lemma C8_median_and_mean_within_range_witness :
  (2 ≤ length [5; 1; 3; 2]%float)%nat
  ∧ Forall (fun t => Binary64.below_half_max t = true) [5; 1; 3; 2]%float
  ∧ ∃ avg med lo hi,
      Binary64.print_statistics_head [5; 1; 3; 2]%float "Java"
      = ([Binary64.Header "Java"; Binary64.Runs 4;
          Binary64.Average avg; Binary64.Median med; Binary64.Min lo;
          Binary64.Max hi], Ok tt)
      ∧ (lo <=? med)%float = true ∧ (med <=? hi)%float = true
      ∧ (lo <=? avg)%float = true ∧ (avg <=? hi)%float = true.
Proof.
  assert (H1 : (2 ≤ length [5; 1; 3; 2]%float)%nat) by (simpl; lia).
  assert (H2 : Forall (fun t => Binary64.below_half_max t = true)
                 [5; 1; 3; 2]%float).
  { repeat (constructor; [vm_compute; reflexivity|]). constructor. }
  split; [exact H1|]. split; [exact H2|].
  exact (C8_median_and_mean_within_range [5; 1; 3; 2]%float "Java" H1 H2).
Defined.

Example print_statistics_head_four_samples :
  Binary64.print_statistics_head [5; 1; 3; 2]%float "Java"
  = ([Binary64.Header "Java"; Binary64.Runs 4; Binary64.Average 2.75;
      Binary64.Median 2.5; Binary64.Min 1; Binary64.Max 5], Ok tt).
Proof. vm_compute. reflexivity. Qed.

(** C8, counterexample.  Two samples of 1.7e308: their sum overflows, so the
    median that the library computes as [(a + b) / 2] is [inf], above the
    maximum.  The mean, computed exactly and rounded once, is the sample. *)
Lemma C8_median_above_max_on_overflow :
  Binary64.print_statistics_head
    [0x1.e42d130773b76p+1023; 0x1.e42d130773b76p+1023]%float "Java"
  = ([Binary64.Header "Java"; Binary64.Runs 2;
      Binary64.Average 0x1.e42d130773b76p+1023; Binary64.Median infinity;
      Binary64.Min 0x1.e42d130773b76p+1023;
      Binary64.Max 0x1.e42d130773b76p+1023], Ok tt)
  ∧ (infinity <=? 0x1.e42d130773b76p+1023)%float = false
  ∧ Binary64.below_half_max 0x1.e42d130773b76p+1023 = false.
Proof. repeat split; vm_compute; reflexivity. Qed.

(* ===================================================================== *)
(** * Facts about binary64 differences *)

Module FloatFacts.




End FloatFacts.

(* ===================================================================== *)
(** * Facts about the comparator *)

Module ComparatorFacts.
Import FloatFacts.



(** The verdict of line 222 is the conjunction of the three tests. *)
Lemma results_match_true j r :
  results_match j r = true
  ↔ below_tolerance (abs_diff (f_measure j) (f_measure r)) = true
    ∧ below_tolerance (abs_diff (precision j) (precision r)) = true
    ∧ below_tolerance (abs_diff (recall j) (recall r)) = true.
Proof. unfold results_match. rewrite !andb_true_iff. tauto. Qed.

Lemma classification_snippet mk snippet :
  (∀ s, match mk s with
        | ResultsMatch | Differences _ _ _ => False
        | _ => True
        end) →
  classification (snippet_line mk snippet) = [].
Proof.
  intros Hmk. destruct snippet as [s|]; [|done]. simpl.
  destruct (nonempty s); [|done]. simpl.
  specialize (Hmk (preview 60 s)). by destruct (mk (preview 60 s)).
Qed.

(** Each iteration prints one verdict. *)
Lemma classification_compare_pair cur i j r :
  classification (compare_pair cur i j r) = [results_match j r].
Proof.
  unfold compare_pair, classification. rewrite !omap_app.
  fold (classification (snippet_line CandidateLine (candidate j))).
  fold (classification (snippet_line ReferenceLine (reference j))).
  rewrite !classification_snippet by done.
  destruct (level j) as [lv|]; simpl.
  - destruct (decide (Some lv ≠ cur)); simpl; by destruct (results_match j r).
  - by destruct (results_match j r).
Qed.

Lemma classification_compare_pairs cur i pairs :
  classification (compare_pairs cur i pairs)
  = (fun p => results_match p.1 p.2) <$> pairs.
Proof.
  revert cur i. induction pairs as [|[j r] pairs IH]; intros cur i; [done|].
  simpl compare_pairs. unfold classification in *. rewrite omap_app.
  fold (classification (compare_pair cur i j r)).
  rewrite classification_compare_pair, IH. done.
Qed.


(** What the comparison prints for sequences of equal length. *)
Lemma accuracy_comparison_equal_length java_results rust_results :
  length java_results = length rust_results →
  accuracy_comparison java_results rust_results
  = (AccuracyHeader :: compare_pairs None 1 (zip java_results rust_results),
     Ok (java_results, rust_results)).
Proof.
  intros Hlen. unfold accuracy_comparison. rewrite decide_True by done.
  simpl. by rewrite app_nil_r.
Qed.

(** What it prints for sequences of different lengths: the header only. *)
Lemma accuracy_comparison_length_mismatch java_results rust_results :
  length java_results ≠ length rust_results →
  accuracy_comparison java_results rust_results
  = ([AccuracyHeader], Ok ([], [])).
Proof.
  intros Hlen. unfold accuracy_comparison. by rewrite decide_False.
Qed.

End ComparatorFacts.

(* ===================================================================== *)
(** * Facts about the level aggregates *)

Module AggregateFacts.
Import ComparatorFacts.

Section Totals.
Variable g : level_stat → nat.

Lemma total_comm (z1 z2 : level_stat) (y : nat) :
  (g z1 + (g z2 + y) = g z2 + (g z1 + y))%nat.
Proof. lia. Qed.

(** Replacing the entry of a key changes the total by the difference of
    the entries. *)
Lemma total_insert (m : gmap (option Z) level_stat) k s' :
  (total g (<[k := s']> m) + from_option g 0 (m !! k) = g s' + total g m)%nat.
Proof.
  unfold total. destruct (m !! k) as [s|] eqn:Hk; simpl.
  - rewrite <- (insert_delete_eq m k s').
    rewrite (map_fold_insert_L _ _ k s' (delete k m));
      [|intros; apply total_comm|apply lookup_delete_eq].
    rewrite (map_fold_delete_L _ _ k s m);
      [|intros; apply total_comm|done].
    lia.
  - rewrite (map_fold_insert_L _ _ k s' m);
      [|intros; apply total_comm|done].
    lia.
Qed.
End Totals.

Lemma total_matched_update m pair :
  total_matched (update_level_stats m pair)
  = (total_matched m + if f_close pair then 1 else 0)%nat.
Proof.
  destruct pair as [j r]. unfold update_level_stats, f_close. simpl.
  pose proof (total_insert matched m (level j)) as H.
  unfold total in H. unfold total_matched.
  match goal with |- context [<[_ := ?s]> m] => specialize (H s) end.
  simpl in H.
  destruct (m !! level j) as [s|]; simpl in *;
    destruct (below_tolerance _); lia.
Qed.

Lemma total_examples_update m pair :
  total_examples (update_level_stats m pair) = S (total_examples m).
Proof.
  destruct pair as [j r]. unfold update_level_stats. simpl.
  pose proof (total_insert count m (level j)) as H.
  unfold total in H. unfold total_examples.
  match goal with |- context [<[_ := ?s]> m] => specialize (H s) end.
  simpl in H.
  destruct (m !! level j) as [s|]; simpl in *; lia.
Qed.

Lemma total_matched_fold pairs m :
  total_matched (fold_left update_level_stats pairs m)
  = (total_matched m + length (filter (fun p => f_close p = true) pairs))%nat.
Proof.
  revert m. induction pairs as [|p pairs IH]; intros m; simpl; [lia|].
  rewrite IH, total_matched_update, filter_cons.
  destruct (f_close p); simpl; lia.
Qed.

Lemma total_examples_fold pairs m :
  total_examples (fold_left update_level_stats pairs m)
  = (total_examples m + length pairs)%nat.
Proof.
  revert m. induction pairs as [|p pairs IH]; intros m; simpl; [lia|].
  rewrite IH, total_examples_update. lia.
Qed.

(** The totals of the summary count the aligned pairs, and those whose
    primary scores are within the tolerance. *)
Lemma total_matched_build java_results rust_results :
  total_matched (build_level_stats java_results rust_results)
  = length (filter (fun p => f_close p = true) (zip java_results rust_results)).
Proof.
  unfold build_level_stats. rewrite total_matched_fold.
  unfold total_matched. by rewrite map_fold_empty.
Qed.

Lemma total_examples_build java_results rust_results :
  total_examples (build_level_stats java_results rust_results)
  = length (zip java_results rust_results).
Proof.
  unfold build_level_stats. rewrite total_examples_fold.
  unfold total_examples. by rewrite map_fold_empty.
Qed.



End AggregateFacts.

(* ===================================================================== *)
(** * The comparator and the report: properties *)

Import ComparatorFacts AggregateFacts.

(** C2, on the code.  The two outputs differ in the precision only (1.0
    against 0.9).  The comparison prints the differences for the pair, as
    the test on the three fields requires; the summary that follows counts
    the pair as matched, 1 of 1 at level 1 and 100% overall, because its
    test looks at the primary score only. *)
Theorem C2_summary_tests_primary_score_only :
  output (main 4300 [] [] sample_text sample_text_b)
  = [NoTimesRecorded "Java"; NoTimesRecorded "Rust";
     ComparingBanner; AccuracyHeader;
     LevelHeader 1 (Some "Basic Text ---"); ExampleHeader 1;
     CandidateLine "the cat sat"; ReferenceLine "the cat sat on the mat";
     JavaScores 0x1.3333333333333p-1%float 1%float 0x1.999999999999ap-2%float;
     RustScores 0x1.3333333333333p-1%float 0x1.ccccccccccccdp-1%float
       0x1.999999999999ap-2%float;
     Differences 0%float 0x1.9999999999998p-4%float 0%float;
     FinalReportBanner; ScenarioSummaryHeader;
     LevelSummary (Some 1) (RecordedName (Some "Basic Text ---")) 1
       [0x1.3333333333333p-1%float] 100%float 1;
     OverallSummary 1 1 100%float;
     FMeasureStatistics [0x1.3333333333333p-1%float];
     Notes].
Proof. vm_compute. reflexivity. Qed.

(** [print_statistics] never raises. *)
Lemma print_statistics_returns times language :
  outcome (print_statistics times language) = Ok tt.
Proof.
  destruct times as [|x xs]; [done|].
  destruct (py_min_lower x xs) as (lo & Hlo & Blo).
  destruct (py_max_upper x xs) as (hi & Hhi & Bhi).
  destruct (mean_bounds lo hi x xs Blo Bhi) as (avg & Havg & _).
  destruct (median_bounds lo hi x xs Blo Bhi) as (med & Hmed & _).
  by rewrite (print_statistics_nonempty _ _ _ _ _ _ _ Havg Hmed Hlo Hhi).
Qed.

(** C5, as the code has it.  When the two extracted sequences differ in
    length, the comparison compares no pair: it prints its two headers,
    says nothing about the mismatch and returns two empty sequences.  The
    statistics printed before it are unaffected, and the report that
    follows has the performance summary and no scenario summary. *)
Theorem C5_length_mismatch_skips_comparison (max_str_digits : nat)
    (java_times rust_times : list Q) (java_stdout rust_stdout : string)
    (java_results rust_results : list scenario_result) :
  extract_results max_str_digits java_stdout = Ok java_results →
  extract_results max_str_digits rust_stdout = Ok rust_results →
  length java_results ≠ length rust_results →
  compare_results max_str_digits java_stdout rust_stdout
  = ([ComparingBanner; AccuracyHeader], Ok ([], []))
  ∧ output (main max_str_digits java_times rust_times java_stdout rust_stdout)
    = output (print_statistics java_times "Java")
      ++ output (print_statistics rust_times "Rust")
      ++ [ComparingBanner; AccuracyHeader; FinalReportBanner]
      ++ output (performance_summary java_times rust_times)
      ++ (if is_ok (outcome (performance_summary java_times rust_times))
          then [Notes] else []).
Proof.
  intros Hj Hr Hlen.
  assert (Hcmp : compare_results max_str_digits java_stdout rust_stdout
                 = ([ComparingBanner; AccuracyHeader], Ok ([], []))).
  { unfold compare_results. rewrite Hj, Hr. simpl.
    by rewrite accuracy_comparison_length_mismatch. }
  split; [done|].
  unfold main. rewrite Hcmp.
  pose proof (print_statistics_returns java_times "Java") as Pj.
  pose proof (print_statistics_returns rust_times "Rust") as Pr.
  destruct (print_statistics java_times "Java") as [oj rj].
  destruct (print_statistics rust_times "Rust") as [or rr].
  destruct (performance_summary java_times rust_times) as [op [[]|e]];
    unfold outcome, output in *; simpl in *; subst; simpl;
    by rewrite ?app_nil_r, <- ?app_assoc.
Qed.

Lemma C5_length_mismatch_skips_comparison_witness :
  compare_results 4300 sample_text "" = ([ComparingBanner; AccuracyHeader], Ok ([], []))
  ∧ output (main 4300 [1#1; 3#1] [2#1] sample_text "")
    = output (print_statistics [1#1; 3#1] "Java")
      ++ output (print_statistics [2#1] "Rust")
      ++ [ComparingBanner; AccuracyHeader; FinalReportBanner]
      ++ output (performance_summary [1#1; 3#1] [2#1])
      ++ (if is_ok (outcome (performance_summary [1#1; 3#1] [2#1]))
          then [Notes] else []).
Proof.
  eapply (C5_length_mismatch_skips_comparison 4300 [1#1; 3#1] [2#1]
            sample_text "").
  - vm_compute; reflexivity.
  - vm_compute; reflexivity.
  - simpl. lia.
Defined.

(** C5, counterexample: one record against none.  The comparison prints
    its two headers and returns normally; nothing reports the mismatch,
    in the comparison or in the report that [main] goes on to print. *)
Lemma C5_length_mismatch_not_reported :
  (∃ j, extract_results 4300 sample_text = Ok [j])
  ∧ extract_results 4300 "" = Ok []
  ∧ compare_results 4300 sample_text ""
    = ([ComparingBanner; AccuracyHeader], Ok ([], []))
  ∧ main 4300 [] [] sample_text ""
    = ([NoTimesRecorded "Java"; NoTimesRecorded "Rust"; ComparingBanner;
        AccuracyHeader; FinalReportBanner; Notes], Ok tt).
Proof.
  split; [eexists; vm_compute; reflexivity|].
  repeat split; vm_compute; reflexivity.
Qed.

(* ===================================================================== *)
(** * Further properties of the extractor *)

(** What one line does to the list of records. *)
Lemma scan_line_results max_str_digits st line st' :
  scan_line max_str_digits st line = Ok st' →
  if numeric_results_line line
  then ∃ rec, results st' = results st ++ [rec]
  else results st' = results st.
Proof.
  intros Hscan. unfold numeric_results_line.
  destruct (is_results_line line) eqn:Hres; cbn [andb].
  - destruct (3 <=? length (findall_decimal line))%nat eqn:Hlen.
    + apply Nat.leb_le in Hlen.
      destruct (findall_decimal line) as [|a [|b [|c rest]]] eqn:Hn;
        simpl in Hlen; try lia.
      destruct (scan_results_triple max_str_digits st line a b c rest Hres Hn)
        as (f & p & r & _ & _ & _ & Hscan').
      rewrite Hscan' in Hscan. injection Hscan as <-. eauto.
    + apply Nat.leb_gt in Hlen.
      rewrite (scan_results_short max_str_digits st line Hres Hlen) in Hscan.
      by injection Hscan as <-.
  - apply scan_line_effect in Hscan. destruct Hscan; try done. congruence.
Qed.

(** X1.  When the extraction returns, it has appended to the list exactly
    one record for each results line with three numbers or more: the
    records already there are kept in front, and the text yields as many
    records as it has such lines. *)
Theorem X1_record_count (max_str_digits : nat) (st st' : extractor_state)
    (lines : list string) :
  scan_lines max_str_digits st lines = Ok st' →
  ∃ recs, results st' = results st ++ recs
          ∧ length recs
            = length (filter (fun l => numeric_results_line l = true) lines).
Proof.
  unfold scan_lines. revert st.
  induction lines as [|l ls IH]; intros st; simpl.
  - intros [= <-]. exists []. by rewrite app_nil_r.
  - destruct (scan_line max_str_digits st l) as [st1|] eqn:E; simpl; [|done].
    intros Hrun. destruct (IH st1 Hrun) as (recs & Hrecs & Hlen).
    apply scan_line_results in E. rewrite filter_cons.
    destruct (numeric_results_line l).
    + destruct E as [rec E]. exists (rec :: recs).
      rewrite Hrecs, E, <- app_assoc. split; [done|].
      rewrite decide_True by done. simpl. by rewrite Hlen.
    + exists recs. rewrite Hrecs, E. split; [done|].
      by rewrite decide_False by done.
Qed.

Lemma X1_record_count_witness :
  ∃ st', scan_lines 4300 initial_state (lines_of two_results_text) = Ok st'
  ∧ ∃ recs, results st' = results initial_state ++ recs
            ∧ length recs
              = length (filter (fun l => numeric_results_line l = true)
                          (lines_of two_results_text))
            ∧ length recs = 2%nat.
Proof.
  assert (Hrun : ∃ st', scan_lines 4300 initial_state (lines_of two_results_text)
                        = Ok st')
    by (eexists; vm_compute; reflexivity).
  destruct Hrun as [st' Hrun]. exists st'. split; [exact Hrun|].
  destruct (X1_record_count 4300 initial_state st' _ Hrun) as (recs & H1 & H2).
  exists recs. split; [exact H1|]. split; [exact H2|].
  rewrite H2. vm_compute. reflexivity.
Defined.

(** X2.  The level and the example are a running context: over lines none
    of which is a level line, the level and its name stay what they were
    and every record appended carries them; likewise for the example
    number over lines none of which is an example line. *)
Theorem X2_context_persists (max_str_digits : nat) (st st' : extractor_state)
    (lines : list string) :
  scan_lines max_str_digits st lines = Ok st' →
  (Forall (fun l => is_level_line l = false) lines →
   current_level st' = current_level st
   ∧ current_level_name st' = current_level_name st
   ∧ ∃ recs, results st' = results st ++ recs
             ∧ Forall (fun r => level r = current_level st
                                ∧ level_name r = current_level_name st) recs)
  ∧ (Forall (fun l => is_example_line l = false) lines →
     current_example st' = current_example st
     ∧ ∃ recs, results st' = results st ++ recs
               ∧ Forall (fun r => example_num r = current_example st) recs).
Proof.
  intros Hrun. split; intros Hno.
  - pose (I := fun s : extractor_state =>
      current_level s = current_level st
      ∧ current_level_name s = current_level_name st
      ∧ ∃ recs, results s = results st ++ recs
                ∧ Forall (fun r => level r = current_level st
                                   ∧ level_name r = current_level_name st) recs).
    cut (I st'); [done|].
    apply (scan_lines_invariant max_str_digits I lines) with (st := st);
      [| |done].
    + intros s l s' Hin (I1 & I2 & recs & I3 & I4) Heff.
      rewrite Forall_forall in Hno. specialize (Hno l Hin). unfold I.
      destruct Heff; simpl; eauto; [congruence|].
      repeat split; try done. exists (recs ++ [new_result s f p r]).
      rewrite I3, <- app_assoc. split; [done|].
      apply Forall_app. split; [done|]. repeat constructor; simpl; done.
    + repeat split. exists []. by rewrite app_nil_r.
  - pose (I := fun s : extractor_state =>
      current_example s = current_example st
      ∧ ∃ recs, results s = results st ++ recs
                ∧ Forall (fun r => example_num r = current_example st) recs).
    cut (I st'); [done|].
    apply (scan_lines_invariant max_str_digits I lines) with (st := st);
      [| |done].
    + intros s l s' Hin (I1 & recs & I3 & I4) Heff.
      rewrite Forall_forall in Hno. specialize (Hno l Hin). unfold I.
      destruct Heff; simpl; eauto; [congruence|].
      split; [done|]. exists (recs ++ [new_result s f p r]).
      rewrite I3, <- app_assoc. split; [done|].
      apply Forall_app. split; [done|]. repeat constructor; simpl; done.
    + split; [done|]. exists []. by rewrite app_nil_r.
Qed.

Lemma X2_context_persists_witness :
  ∃ st',
    scan_lines 4300 (set_example 7 (set_level 2 "Long Text" initial_state))
      ["Candidate: a b"; "Result: 0.5000 0.5000 0.5000"; "";
       "Result: 0.2500 0.2500 0.2500"] = Ok st'
    ∧ current_level st' = Some 2
    ∧ current_example st' = Some 7
    ∧ ∃ recs, results st' = recs
              ∧ Forall (fun r => level r = Some 2
                                 ∧ level_name r = Some "Long Text") recs.
Proof.
  assert (Hrun : ∃ st',
    scan_lines 4300 (set_example 7 (set_level 2 "Long Text" initial_state))
      ["Candidate: a b"; "Result: 0.5000 0.5000 0.5000"; "";
       "Result: 0.2500 0.2500 0.2500"] = Ok st')
    by (eexists; vm_compute; reflexivity).
  destruct Hrun as [st' Hrun]. exists st'. split; [exact Hrun|].
  destruct (X2_context_persists 4300 _ st' _ Hrun) as [Hlevel Hexample].
  destruct Hlevel as (H1 & _ & recs & H3 & H4).
  { repeat (constructor; [vm_compute; reflexivity|]). constructor. }
  destruct Hexample as (H5 & _).
  { repeat (constructor; [vm_compute; reflexivity|]). constructor. }
  split; [exact H1|]. split; [exact H5|].
  exists recs. split; [exact H3|exact H4].
Defined.

(** What one line that is no candidate line does to the candidate snippet:
    it keeps it, or hands it to the record it emits and clears it. *)
Lemma scan_line_candidate max_str_digits st line st' :
  scan_line max_str_digits st line = Ok st' →
  is_candidate_line line = false →
  (results st' = results st ∧ current_candidate st' = current_candidate st)
  ∨ (∃ rec, results st' = results st ++ [rec]
            ∧ candidate rec = current_candidate st
            ∧ current_candidate st' = None).
Proof.
  unfold scan_line, is_candidate_line.
  destruct (level_shaped line).
  { destruct (search_level line) as [[num name]|].
    - destruct (py_int max_str_digits num); simpl; intros [= <-]; by left.
    - intros [= <-]; by left. }
  destruct (example_shaped line).
  { destruct (py_index (split_ws line) 1); simpl; [|done].
    destruct (py_int max_str_digits (rstrip_colon a)); simpl; intros [= <-].
    by left. }
  destruct (candidate_shaped line); [done|].
  destruct (reference_shaped line).
  { destruct (py_index (split1 "Reference:" line) 1); simpl; intros [= <-].
    by left. }
  destruct (has_results_label line); [|intros [= <-]; by left].
  destruct (3 <=? length (findall_decimal line))%nat; [|intros [= <-]; by left].
  destruct (py_index (findall_decimal line) 0 ≫= py_float); simpl; [|done].
  destruct (py_index (findall_decimal line) 1 ≫= py_float); simpl; [|done].
  destruct (py_index (findall_decimal line) 2 ≫= py_float); simpl; [|done].
  intros [= <-] _. right. eauto.
Qed.

Lemma scan_line_reference max_str_digits st line st' :
  scan_line max_str_digits st line = Ok st' →
  is_reference_line line = false →
  (results st' = results st ∧ current_reference st' = current_reference st)
  ∨ (∃ rec, results st' = results st ++ [rec]
            ∧ reference rec = current_reference st
            ∧ current_reference st' = None).
Proof.
  unfold scan_line, is_reference_line.
  destruct (level_shaped line).
  { destruct (search_level line) as [[num name]|].
    - destruct (py_int max_str_digits num); simpl; intros [= <-]; by left.
    - intros [= <-]; by left. }
  destruct (example_shaped line).
  { destruct (py_index (split_ws line) 1); simpl; [|done].
    destruct (py_int max_str_digits (rstrip_colon a)); simpl; intros [= <-].
    by left. }
  destruct (candidate_shaped line).
  { destruct (py_index (split1 "Candidate:" line) 1); simpl; intros [= <-].
    by left. }
  destruct (reference_shaped line); [done|].
  destruct (has_results_label line); [|intros [= <-]; by left].
  destruct (3 <=? length (findall_decimal line))%nat; [|intros [= <-]; by left].
  destruct (py_index (findall_decimal line) 0 ≫= py_float); simpl; [|done].
  destruct (py_index (findall_decimal line) 1 ≫= py_float); simpl; [|done].
  destruct (py_index (findall_decimal line) 2 ≫= py_float); simpl; [|done].
  intros [= <-] _. right. eauto.
Qed.

Lemma snippet_once_scan {A} (proj : scenario_result → option A)
    (cur : extractor_state → option A) max_str_digits lines :
  (∀ s l s', l ∈ lines → scan_line max_str_digits s l = Ok s' →
     (results s' = results s ∧ cur s' = cur s)
     ∨ (∃ rec, results s' = results s ++ [rec] ∧ proj rec = cur s
               ∧ cur s' = None)) →
  ∀ st st', scan_lines max_str_digits st lines = Ok st' →
  ∃ recs, results st' = results st ++ recs
          ∧ snippet_once (cur st) proj (cur st') recs.
Proof.
  unfold scan_lines. induction lines as [|l ls IH]; intros Hstep st st'; simpl.
  - intros [= <-]. exists []. by rewrite app_nil_r.
  - destruct (scan_line max_str_digits st l) as [st1|] eqn:E; simpl; [|done].
    intros Hrun.
    destruct (IH (fun s l' s' Hin => Hstep s l' s' (list_elem_of_further _ _ _ Hin))
                st1 st' Hrun) as (recs & Hrecs & Honce).
    destruct (Hstep st l st1 (list_elem_of_here _ _) E)
      as [[H1 H2]|(rec & H1 & H2 & H3)].
    + exists recs. rewrite Hrecs, H1. split; [done|]. by rewrite <- H2.
    + exists (rec :: recs). rewrite Hrecs, H1, <- app_assoc.
      split; [done|]. simpl. split; [done|].
      rewrite H3 in Honce. destruct recs as [|r rs]; simpl in Honce.
      * split; [constructor|done].
      * destruct Honce as (Hr & Hrs & Hfinal). split; [by constructor|done].
Qed.

(** X3.  A snippet is attributed to one record at most.  Over lines none
    of which sets the candidate snippet, the first record appended has the
    candidate that was pending and every later record has none; the same
    holds of the reference snippet. *)
Theorem X3_snippet_goes_to_one_record (max_str_digits : nat)
    (st st' : extractor_state) (lines : list string) :
  scan_lines max_str_digits st lines = Ok st' →
  (Forall (fun l => is_candidate_line l = false) lines →
   ∃ recs, results st' = results st ++ recs
           ∧ snippet_once (current_candidate st) candidate
               (current_candidate st') recs)
  ∧ (Forall (fun l => is_reference_line l = false) lines →
     ∃ recs, results st' = results st ++ recs
             ∧ snippet_once (current_reference st) reference
                 (current_reference st') recs).
Proof.
  intros Hrun. split; intros Hno; rewrite Forall_forall in Hno.
  - apply (snippet_once_scan candidate current_candidate max_str_digits lines);
      [|done].
    intros s l s' Hin Hscan. eapply scan_line_candidate; eauto.
  - apply (snippet_once_scan reference current_reference max_str_digits lines);
      [|done].
    intros s l s' Hin Hscan. eapply scan_line_reference; eauto.
Qed.

Lemma X3_snippet_goes_to_one_record_witness :
  ∃ st',
    scan_lines 4300 (set_candidate "the cat sat" initial_state)
      ["Result: 0.5000 0.5000 0.5000"; "Result: 0.2500 0.2500 0.2500"] = Ok st'
    ∧ ∃ r1 r2, results st' = [r1; r2]
               ∧ candidate r1 = Some "the cat sat" ∧ candidate r2 = None.
Proof.
  eexists. split; [vm_compute; reflexivity|].
  match goal with
  | |- ∃ r1 r2, results ?s = _ ∧ _ =>
      pose proof (X3_snippet_goes_to_one_record 4300
                    (set_candidate "the cat sat" initial_state) s
                    ["Result: 0.5000 0.5000 0.5000";
                     "Result: 0.2500 0.2500 0.2500"]) as H
  end.
  destruct H as [Hc _]; [vm_compute; reflexivity|].
  destruct Hc as (recs & H1 & H2).
  { repeat (constructor; [vm_compute; reflexivity|]). constructor. }
  simpl in H1. subst recs. destruct H2 as (Hr1 & Hr2 & _).
  eexists. eexists. split; [reflexivity|]. split; [exact Hr1|].
  by inversion Hr2.
Defined.

(* ===================================================================== *)
(** * Further properties of the comparator *)

Lemma example_numbers_compare_pair cur i j r :
  example_numbers (compare_pair cur i j r) = [i].
Proof.
  unfold compare_pair, snippet_line, example_numbers.
  destruct (level j) as [lv|]; [destruct (decide (Some lv ≠ cur))|];
    (destruct (candidate j) as [c|]; [destruct (nonempty c)|]);
    (destruct (reference j) as [t|]; [destruct (nonempty t)|]);
    destruct (results_match j r); reflexivity.
Qed.

Lemma example_numbers_compare_pairs cur i pairs :
  example_numbers (compare_pairs cur i pairs) = seq i (length pairs).
Proof.
  revert cur i. induction pairs as [|[j r] pairs IH]; intros cur i; [done|].
  simpl compare_pairs. unfold example_numbers in *. rewrite omap_app.
  fold (example_numbers (compare_pair cur i j r)).
  rewrite example_numbers_compare_pair, IH. done.
Qed.

(** X4.  The comparison numbers the examples by their position: for two
    sequences of equal length [n] it prints the headers "Example 1" to
    "Example n" in this order, whatever example numbers the records
    carry. *)
Theorem X4_examples_numbered_by_position (java_results rust_results : list scenario_result) :
  length java_results = length rust_results →
  example_numbers (output (accuracy_comparison java_results rust_results))
  = seq 1 (length java_results).
Proof.
  intros Hlen. rewrite accuracy_comparison_equal_length by done.
  unfold output. simpl fst.
  change (example_numbers (AccuracyHeader :: ?l)) with (example_numbers l).
  rewrite example_numbers_compare_pairs, length_zip. f_equal. lia.
Qed.

Lemma X4_examples_numbered_by_position_witness :
  ∃ r, extract_results 4300
         ("Example 41:" ++ nl ++ "Result: 0.5000 0.5000 0.5000")%string = Ok [r]
       ∧ example_num r = Some 41
       ∧ example_numbers (output (accuracy_comparison [r] [r])) = [1%nat].
Proof.
  eexists. split; [vm_compute; reflexivity|]. split; [reflexivity|].
  match goal with
  | |- example_numbers (output (accuracy_comparison ?a ?b)) = _ =>
      exact (X4_examples_numbered_by_position a b eq_refl)
  end.
Defined.

(* ===================================================================== *)
(** * Further properties of the level aggregates *)

Lemma update_level_stats_lookup m p lv :
  update_level_stats m p !! lv
  = if decide (level p.1 = lv)
    then Some (bump_level_stat (default new_level_stat (m !! lv)) p)
    else m !! lv.
Proof.
  destruct p as [j r]. unfold update_level_stats. simpl.
  destruct (decide (level j = lv)) as [<-|Hne].
  - by rewrite lookup_insert_eq.
  - by rewrite lookup_insert_ne.
Qed.

Lemma fold_bump_stat pairs s :
  fold_left bump_level_stat pairs s
  = {| count := count s + length pairs;
       f_scores := f_scores s ++ ((fun p => f_measure p.1) <$> pairs);
       matched := matched s
                  + length (filter (fun p => f_close p = true) pairs) |}.
Proof.
  revert s. induction pairs as [|p ps IH]; intros s; simpl.
  - destruct s. simpl. by rewrite Nat.add_0_r, app_nil_r, Nat.add_0_r.
  - rewrite IH. unfold bump_level_stat at 1 2 3. simpl.
    rewrite filter_cons, <- app_assoc. simpl.
    destruct (f_close p); simpl; f_equal; lia.
Qed.

Lemma fold_update_level_stats_lookup pairs m lv :
  fold_left update_level_stats pairs m !! lv
  = match pairs_of_level lv pairs with
    | [] => m !! lv
    | ps => Some (fold_left bump_level_stat ps (default new_level_stat (m !! lv)))
    end.
Proof.
  unfold pairs_of_level. revert m.
  induction pairs as [|p ps IH]; intros m; simpl; [done|].
  rewrite IH, update_level_stats_lookup, filter_cons.
  destruct (decide (level p.1 = lv)); simpl.
  - by destruct (filter _ ps).
  - done.
Qed.

(** The entry of a level, from the pairs of that level. *)
Lemma build_level_stats_lookup java_results rust_results lv :
  build_level_stats java_results rust_results !! lv
  = match pairs_of_level lv (zip java_results rust_results) with
    | [] => None
    | ps => Some (stat_of_pairs ps)
    end.
Proof.
  unfold build_level_stats. rewrite fold_update_level_stats_lookup.
  rewrite lookup_empty.
  destruct (pairs_of_level lv (zip java_results rust_results)) as [|p ps] eqn:E;
    [done|].
  by rewrite fold_bump_stat.
Qed.

(** X5.  [level_stats] has an entry for a level exactly when some compared
    pair has it as the level of its Java record, and the entry adds up
    the pairs of that level: their number, the primary scores of their
    Java records in order, and the number of those whose primary scores
    are within the tolerance.  So the matched count never exceeds the
    count, and no entry is empty. *)
Theorem X5_level_stats_entries (java_results rust_results : list scenario_result)
    (lv : option Z) :
  build_level_stats java_results rust_results !! lv
  = match pairs_of_level lv (zip java_results rust_results) with
    | [] => None
    | ps => Some (stat_of_pairs ps)
    end
  ∧ ∀ s, build_level_stats java_results rust_results !! lv = Some s →
         (1 ≤ count s)%nat ∧ (matched s ≤ count s)%nat
         ∧ length (f_scores s) = count s.
Proof.
  split; [apply build_level_stats_lookup|].
  intros s. rewrite build_level_stats_lookup.
  destruct (pairs_of_level lv (zip java_results rust_results)) as [|p ps];
    [done|].
  intros [= <-]. unfold stat_of_pairs. cbn [count matched f_scores].
  rewrite length_fmap. split; [simpl; lia|]. split; [|done].
  apply length_filter.
Qed.

Lemma X5_level_stats_entries_witness :
  ∃ j r,
    extract_results 4300 sample_text = Ok [j]
    ∧ extract_results 4300 sample_text_b = Ok [r]
    ∧ build_level_stats [j] [r] !! Some 1 = Some (stat_of_pairs [(j, r)])
    ∧ build_level_stats [j] [r] !! Some 2 = None
    ∧ ∀ s, build_level_stats [j] [r] !! Some 1 = Some s →
           (1 ≤ count s)%nat ∧ (matched s ≤ count s)%nat
           ∧ length (f_scores s) = count s.
Proof.
  eexists. eexists.
  split; [vm_compute; reflexivity|].
  split; [vm_compute; reflexivity|].
  match goal with
  | |- build_level_stats ?a ?b !! _ = _ ∧ _ =>
      pose proof (X5_level_stats_entries a b (Some 1)) as [H1 H2];
      pose proof (X5_level_stats_entries a b (Some 2)) as [H3 _]
  end.
  split; [exact H1|]. split; [exact H3|exact H2].
Defined.

(** X6.  The totals of the summary: the number of examples is the length
    of the shorter sequence, and the number of matched examples is at most
    that. *)
Theorem X6_totals (java_results rust_results : list scenario_result) :
  total_examples (build_level_stats java_results rust_results)
  = (length java_results `min` length rust_results)%nat
  ∧ (total_matched (build_level_stats java_results rust_results)
     ≤ total_examples (build_level_stats java_results rust_results))%nat.
Proof.
  rewrite total_examples_build, total_matched_build, length_zip.
  split; [done|]. rewrite <- (length_zip java_results rust_results).
  apply length_filter.
Qed.

Lemma level_stats_has_level java_results rust_results lv :
  is_Some (build_level_stats java_results rust_results !! lv)
  ↔ ∃ p, p ∈ zip java_results rust_results ∧ level p.1 = lv.
Proof.
  rewrite build_level_stats_lookup. unfold pairs_of_level.
  destruct (filter _ (zip java_results rust_results)) as [|p ps] eqn:E.
  - split; [by intros [? ?]|]. intros (p & Hin & Hlv).
    assert (p ∈ filter (fun p => level p.1 = lv) (zip java_results rust_results))
      as H by by apply list_elem_of_filter.
    rewrite E in H. by apply not_elem_of_nil in H.
  - split; [|eauto]. intros _. exists p.
    assert (p ∈ filter (fun p => level p.1 = lv) (zip java_results rust_results))
      as H by (rewrite E; left).
    apply list_elem_of_filter in H. tauto.
Qed.

Lemma level_keys_elem (m : gmap (option Z) level_stat) lv :
  lv ∈ (map_to_list m).*1 ↔ is_Some (m !! lv).
Proof.
  rewrite list_elem_of_fmap. split.
  - intros ([k s] & -> & Hin). apply elem_of_map_to_list in Hin. eauto.
  - intros [s Hs]. exists (lv, s). split; [done|]. by apply elem_of_map_to_list.
Qed.

(** The keys cannot be sorted exactly when [None] is one of them and some
    number is another. *)
Lemma level_keys_unsortable (m : gmap (option Z) level_stat) :
  None ∈ (map_to_list m).*1 ∧ (2 ≤ length (map_to_list m).*1)%nat
  ↔ is_Some (m !! None) ∧ ∃ z : Z, is_Some (m !! Some z).
Proof.
  rewrite level_keys_elem, length_fmap, length_map_to_list.
  split; intros [HNone H]; (split; [done|]).
  - assert (size (delete None m) ≠ 0)%nat as Hsz.
    { rewrite map_size_delete_Some by done. lia. }
    apply map_size_ne_0_lookup in Hsz as [[z|] Hz].
    + exists z. apply lookup_delete_is_Some in Hz. tauto.
    + apply lookup_delete_is_Some in Hz. tauto.
  - destruct H as [z Hz].
    assert (size (delete None m) ≠ 0)%nat as Hsz.
    { apply (map_size_ne_0_lookup_2 _ (Some z)).
      apply lookup_delete_is_Some. done. }
    rewrite map_size_delete_Some in Hsz by done. lia.
Qed.

(** X7.  The scenario summary cannot handle records without a level among
    records with one.  For two non-empty sequences: when the Java records
    that are compared include one without level and one with a level, the
    summary prints its header and raises [TypeError], from sorting [None]
    with numbers; otherwise it returns normally. *)
Theorem X7_summary_raises_on_mixed_levels (j r : scenario_result)
    (java_rest rust_rest : list scenario_result) :
  (mixed_levels (zip (j :: java_rest) (r :: rust_rest)) →
   scenario_summary (j :: java_rest) (r :: rust_rest)
   = ([ScenarioSummaryHeader], Raise TypeError))
  ∧ (¬ mixed_levels (zip (j :: java_rest) (r :: rust_rest)) →
     outcome (scenario_summary (j :: java_rest) (r :: rust_rest)) = Ok tt).
Proof.
  set (A := j :: java_rest). set (B := r :: rust_rest).
  assert (Hiff : mixed_levels (zip A B)
                 ↔ None ∈ (map_to_list (build_level_stats A B)).*1
                   ∧ (2 ≤ length (map_to_list (build_level_stats A B)).*1)%nat).
  { rewrite level_keys_unsortable, level_stats_has_level. unfold mixed_levels.
    split; intros [H1 H2]; (split; [done|]).
    - destruct H2 as (p & Hin & Hlv). destruct (level p.1) as [z|] eqn:E; [|done].
      exists z. apply level_stats_has_level. eauto.
    - destruct H2 as [z Hz]. apply level_stats_has_level in Hz as (p & Hin & Hlv).
      exists p. split; [done|]. by rewrite Hlv. }
  unfold scenario_summary, sorted_levels. fold A B. split; intros Hmix.
  - subst A B. cbv zeta. rewrite decide_True by by apply Hiff. reflexivity.
  - subst A B. cbv zeta. rewrite decide_False by by rewrite <- Hiff. reflexivity.
Qed.

Lemma X7_summary_raises_on_mixed_levels_witness :
  ∃ j1 j2,
    extract_results 4300
      ("Result: 0.5000 0.5000 0.5000" ++ nl ++ "--- Level 1: Basic Text ---"
       ++ nl ++ "Result: 0.2500 0.2500 0.2500")%string = Ok [j1; j2]
    ∧ level j1 = None ∧ level j2 = Some 1
    ∧ scenario_summary [j1; j2] [j1; j2]
      = ([ScenarioSummaryHeader], Raise TypeError)
    ∧ outcome (scenario_summary [j2; j2] [j1; j2]) = Ok tt.
Proof.
  eexists. eexists. split; [vm_compute; reflexivity|].
  split; [reflexivity|]. split; [reflexivity|].
  match goal with
  | |- scenario_summary [?a; ?b] _ = _ ∧ _ =>
      pose proof (X7_summary_raises_on_mixed_levels a a [b] [b]) as [H1 _];
      pose proof (X7_summary_raises_on_mixed_levels b a [b] [b]) as [_ H2]
  end.
  split.
  - apply H1. split.
    + eexists. split; [left|reflexivity].
    + eexists. split; [right; left|discriminate].
  - apply H2. intros [(p & Hin & Hlv) _].
    apply elem_of_cons in Hin as [->|Hin]; [discriminate|].
    apply list_elem_of_singleton in Hin as ->. discriminate.
Defined.

(* ===================================================================== *)
(** * Swapping the two sequences *)








(* ===================================================================== *)
(** * Comparing a sequence with itself *)

(** A score is within the tolerance of itself exactly when it is finite:
    the difference of an infinity or a NaN with itself is a NaN, which is
    below nothing. *)
Lemma below_tolerance_self x :
  below_tolerance (abs_diff x x) = finite_float x.
Proof.
  unfold below_tolerance, abs_diff, finite_float.
  rewrite ltb_spec, abs_spec, sub_spec.
  assert (Ht : ∃ m e, Prim2SF tolerance = S754_finite false m e)
    by (vm_compute; eauto).
  destruct Ht as (mt & et & ->).
  destruct (Prim2SF x) as [s|s| |s m e]; unfold SF64sub, SFsub.
  - by destruct s.
  - by destruct s.
  - done.
  - rewrite Z.sub_diag. done.
Qed.

(** X8.  Comparing a sequence with itself: the pair at an index is printed
    as matching exactly when the three scores of the record are finite.  A
    record with an infinite score (a number too large for a float) differs
    from itself. *)
Theorem X8_sequence_against_itself (rs : list scenario_result) :
  classification (output (accuracy_comparison rs rs))
  = (fun r => finite_float (f_measure r) && finite_float (precision r)
              && finite_float (recall r)) <$> rs.
Proof.
  rewrite accuracy_comparison_equal_length by done.
  unfold output. simpl fst.
  change (classification (AccuracyHeader :: ?l)) with (classification l).
  rewrite classification_compare_pairs.
  induction rs as [|r rs IH]; [done|].
  change (zip (r :: rs) (r :: rs)) with ((r, r) :: zip rs rs).
  rewrite !fmap_cons, IH. f_equal.
  unfold results_match. simpl. by rewrite !below_tolerance_self.
Qed.

(* ===================================================================== *)
(** * The names of the levels in the summary *)

Lemma fold_update_level_names_lookup rs names lv :
  fold_left update_level_names rs names !! lv
  = match names !! lv with
    | Some name => Some name
    | None =>
        if decide (lv = 0) then None
        else level_name <$> head (filter (fun r => level r = Some lv) rs)
    end.
Proof.
  revert names. induction rs as [|r rs IH]; intros names; simpl.
  - destruct (names !! lv); [done|]. by destruct (decide (lv = 0)).
  - rewrite IH, filter_cons. unfold update_level_names.
    destruct (level r) as [z|] eqn:Hz.
    + destruct (decide (z ≠ 0 ∧ names !! z = None)) as [[Hz0 Hnone]|Hn].
      * destruct (decide (z = lv)) as [->|Hne].
        -- rewrite lookup_insert_eq, Hnone.
           rewrite (decide_False (P := lv = 0)) by done.
           by rewrite (decide_True (P := Some lv = Some lv)).
        -- rewrite lookup_insert_ne by done.
           rewrite (decide_False (P := Some z = Some lv)) by congruence. done.
      * destruct (decide (Some z = Some lv)) as [[= ->]|Hne]; [|done].
        destruct (names !! lv) eqn:E; [done|].
        destruct (decide (lv = 0)); [done|]. exfalso. apply Hn. done.
    + by rewrite (decide_False (P := None = Some lv)).
Qed.

(** X9.  The name of a level in the summary is the level name of the first
    Java record of that level; level 0 is never given a name, so level 0
    and the records without level are labelled by the default
    "Level {level}". *)
Theorem X9_level_names_first_wins (java_results : list scenario_result) (lv : Z) :
  build_level_names java_results !! lv
  = (if decide (lv = 0) then None
     else level_name <$> head (filter (fun r => level r = Some lv) java_results))
  ∧ label_of (build_level_names java_results) (Some 0) = DefaultName (Some 0)
  ∧ label_of (build_level_names java_results) None = DefaultName None.
Proof.
  unfold build_level_names, label_of. simpl.
  rewrite !fold_update_level_names_lookup, !lookup_empty.
  split; [done|]. split; [|done].
  by rewrite decide_True.
Qed.

(* ===================================================================== *)
(** * Further properties of the statistics and of the performance summary *)

Section PositiveTimes.
Local Open Scope Q_scope.







End PositiveTimes.






(* ===================================================================== *)
(** * The builds and the timed runs: properties *)

Lemma run_iterations_spec runs i n times :
  run_iterations runs i n times
  = (iteration_event runs <$> seq i n,
     times ++ (elapsed_ms <$> filter succeeded (runs <$> seq i n))).
Proof.
  revert i times. induction n as [|n IH]; intros i times.
  - simpl. by rewrite app_nil_r.
  - cbn [run_iterations seq]. rewrite !fmap_cons, filter_cons.
    unfold iteration_event at 1.
    destruct (decide (succeeded (runs i))) as [Hok|Hko].
    + rewrite (decide_True (P := returncode (process (runs i)) = 0)) by done.
      rewrite IH, fmap_cons. by rewrite <- app_assoc.
    + rewrite (decide_False (P := returncode (process (runs i)) = 0)) by done.
      by rewrite IH.
Qed.

(** X12.  The timed runs.  When the program to run is there, every one of
    the [iterations] iterations is reported, in order, by its time or by
    its failure, a failed iteration does not stop the loop, and the times
    returned are the elapsed times of the iterations that exited with code
    0, in order; so there are at most [iterations] of them.  When it is
    not there, nothing is run and no time is returned. *)
Theorem X12_run_keeps_successful_iterations (language : string)
    (iterations : nat) (binary_exists : bool) (runs : nat → timed_run) :
  run language iterations binary_exists runs
  = (if binary_exists
     then (Running language iterations
             :: (iteration_event runs <$> seq 0 iterations),
           elapsed_ms <$> filter succeeded (runs <$> seq 0 iterations))
     else ([NotCompiled language], []))
  ∧ (length (run language iterations binary_exists runs).2 ≤ iterations)%nat.
Proof.
  assert (Heq : run language iterations binary_exists runs
    = (if binary_exists
       then (Running language iterations
               :: (iteration_event runs <$> seq 0 iterations),
             elapsed_ms <$> filter succeeded (runs <$> seq 0 iterations))
       else ([NotCompiled language], []))).
  { unfold run. destruct binary_exists; [|done].
    by rewrite run_iterations_spec. }
  split; [exact Heq|]. rewrite Heq. destruct binary_exists; simpl; [|lia].
  rewrite length_fmap.
  etrans; [apply length_filter|]. by rewrite length_fmap, length_seq.
Qed.



(** After two successful builds, a Rust binary that is not there makes the
    program stop with [FileNotFoundError] inside [compare_results]: the
    timed runs test for the binary, the comparison does not. *)
Lemma missing_rust_binary_raises (max_str_digits : nat) (w : world) :
  (compile_java (java_file_exists w) (javac w)).2 = true →
  (compile_rust (rust_dir_exists w) (cargo_build w)).2 = true →
  rust_binary_exists w = false →
  ∃ out, main_from_start max_str_digits w
         = (out ++ [Report ComparingBanner], Raise FileNotFoundError).
Proof.
  intros Hj Hr Hb. unfold main_from_start.
  destruct (compile_java _ _) as [out_j ok_j]. simpl in Hj. subst ok_j.
  destruct (compile_rust _ _) as [out_r ok_r]. simpl in Hr. subst ok_r.
  cbn [negb]. rewrite Hb.
  destruct (run_java 10 _ _) as [out_rj java_times].
  destruct (run_rust 10 false _) as [out_rr rust_times] eqn:Hrr.
  unfold run_rust, run in Hrr. injection Hrr as <- <-.
  unfold start_process, main_with_runs.
  pose proof (print_statistics_returns java_times "Java") as Hpj.
  pose proof (print_statistics_returns [] "Rust") as Hpr.
  destruct (print_statistics java_times "Java") as [oj rj].
  destruct (print_statistics [] "Rust") as [orr rr].
  unfold outcome in Hpj, Hpr. simpl in Hpj, Hpr. subst rj rr.
  cbn [mbind io_bind lift print app].
  match goal with
  | |- ∃ out, (?l, _) = _ =>
      assert (∃ o, l = o ++ [Report ComparingBanner])%list as [o ->]
  end.
  { rewrite !fmap_app, !app_assoc. eexists. reflexivity. }
  by exists o.
Qed.

(** X14.  When every iteration of a program fails, no time is returned for
    it; the statistics then print the no-data line for it, and the
    performance summary prints nothing, whatever the times of the other
    program. *)
Theorem X14_all_iterations_failed (language : string) (iterations : nat)
    (binary_exists : bool) (runs : nat → timed_run) :
  (∀ i, (i < iterations)%nat → ¬ succeeded (runs i)) →
  (run language iterations binary_exists runs).2 = []
  ∧ print_statistics (run language iterations binary_exists runs).2 language
    = ([NoTimesRecorded language], Ok tt)
  ∧ ∀ other_times,
      performance_summary (run language iterations binary_exists runs).2
        other_times = ([], Ok tt)
      ∧ performance_summary other_times
          (run language iterations binary_exists runs).2 = ([], Ok tt).
Proof.
  intros Hfail.
  assert (Hnil : (run language iterations binary_exists runs).2 = []).
  { unfold run. destruct binary_exists; [|done].
    rewrite run_iterations_spec. simpl.
    destruct (filter succeeded (runs <$> seq 0 iterations)) as [|r rs] eqn:E;
      [done|].
    assert (r ∈ filter succeeded (runs <$> seq 0 iterations)) as Hin
      by (rewrite E; left).
    apply list_elem_of_filter in Hin as [Hok Hin].
    apply list_elem_of_fmap in Hin as (i & -> & Hi).
    apply elem_of_seq in Hi. exfalso. apply (Hfail i); [lia|done]. }
  rewrite Hnil. split; [done|]. split; [done|].
  intros other. split; [done|]. by destruct other.
Qed.

Lemma X14_all_iterations_failed_witness :
  (run "Java" 3 true
     (fun _ => {| start := 0; finish := 1;
                  process := {| returncode := 1; stdout := "";
                                stderr := "boom" |} |})).2 = []
  ∧ print_statistics
      (run "Java" 3 true
         (fun _ => {| start := 0; finish := 1;
                      process := {| returncode := 1; stdout := "";
                                    stderr := "boom" |} |})).2 "Java"
    = ([NoTimesRecorded "Java"], Ok tt).
Proof.
  destruct (X14_all_iterations_failed "Java" 3 true
              (fun _ => {| start := 0; finish := 1;
                           process := {| returncode := 1; stdout := "";
                                         stderr := "boom" |} |}))
    as (H1 & H2 & _).
  - intros i _. unfold succeeded. simpl. lia.
  - split; [exact H1|exact H2].
Defined.

(* ===================================================================== *)
(** * What the comparison shows of a record *)

Lemma length_substring_0 n s :
  String.length (String.substring 0 n s) = (n `min` String.length s)%nat.
Proof.
  revert s. induction n as [|n IH]; intros [|c s]; simpl; try done.
  by rewrite IH.
Qed.

Lemma length_preview n s :
  String.length (preview n s)
  = (if (n <? String.length s)%nat then n + 3 else String.length s)%nat.
Proof.
  unfold preview. destruct (n <? String.length s)%nat eqn:E; [|done].
  apply Nat.ltb_lt in E.
  assert (Happ : ∀ a b : string,
    String.length (a +:+ b) = (String.length a + String.length b)%nat).
  { intros a b. induction a as [|c a IH]; [done|].
    change (String c a +:+ b) with (String c (a +:+ b)). simpl. by rewrite IH. }
  rewrite Happ, length_substring_0. simpl. lia.
Qed.

Lemma snippet_line_elem mk snippet e :
  e ∈ snippet_line mk snippet →
  ∃ s, snippet = Some s ∧ nonempty s = true ∧ e = mk (preview 60 s).
Proof.
  unfold snippet_line. destruct snippet as [s|]; [|by intros ?%not_elem_of_nil].
  destruct (nonempty s) eqn:E; [|by intros ?%not_elem_of_nil].
  intros ->%list_elem_of_singleton. eauto.
Qed.

Lemma compare_pair_candidate cur i j r text :
  CandidateLine text ∈ compare_pair cur i j r →
  ∃ s, candidate j = Some s ∧ nonempty s = true ∧ text = preview 60 s.
Proof.
  unfold compare_pair. rewrite !elem_of_app.
  intros [H|[H|[H|[H|[H|H]]]]].
  - destruct (level j); [destruct (decide _)|];
      repeat (apply elem_of_cons in H as [H|H]; [done|]);
      by apply not_elem_of_nil in H.
  - apply list_elem_of_singleton in H. done.
  - apply snippet_line_elem in H as (s & Hs & Hne & [= ->]). eauto.
  - apply snippet_line_elem in H as (s & Hs & Hne & ?). done.
  - repeat (apply elem_of_cons in H as [H|H]; [done|]).
    by apply not_elem_of_nil in H.
  - apply list_elem_of_singleton in H. by destruct (results_match j r).
Qed.

Lemma compare_pairs_candidate cur i pairs text :
  CandidateLine text ∈ compare_pairs cur i pairs →
  ∃ p s, p ∈ pairs ∧ candidate p.1 = Some s ∧ nonempty s = true
         ∧ text = preview 60 s.
Proof.
  revert cur i. induction pairs as [|[j r] pairs IH]; intros cur i; simpl.
  - by intros ?%not_elem_of_nil.
  - rewrite elem_of_app. intros [H|H].
    + apply compare_pair_candidate in H as (s & ? & ? & ?).
      exists (j, r), s. split; [left|done].
    + apply IH in H as (p & s & ? & ?). exists p, s. split; [by right|done].
Qed.

(** X15.  A candidate snippet is shown only when the Java record has a
    non-empty one, and what is shown is that snippet when it has 60
    characters or fewer, and otherwise its first 60 characters followed by
    "...": between 1 and 63 characters. *)
Theorem X15_snippet_shown_is_cut (java_results rust_results : list scenario_result)
    (text : string) :
  CandidateLine text ∈ output (accuracy_comparison java_results rust_results) →
  ∃ j s, j ∈ java_results ∧ candidate j = Some s
         ∧ text = (if (60 <? String.length s)%nat
                   then String.substring 0 60 s +:+ "..." else s)
         ∧ (1 ≤ String.length text ≤ 63)%nat.
Proof.
  unfold accuracy_comparison, output.
  destruct (decide (length java_results = length rust_results)); simpl.
  - rewrite app_nil_r. intros [H|H]%elem_of_cons; [done|].
    apply compare_pairs_candidate in H as ([j r] & s & Hin & Hs & Hne & ->).
    exists j, s. split.
    { apply (list_elem_of_fmap_2 fst) in Hin. rewrite fst_zip in Hin by lia.
      done. }
    split; [done|]. split; [done|].
    rewrite length_preview.
    destruct (60 <? String.length s)%nat eqn:E; [lia|].
    apply Nat.ltb_ge in E. destruct s; [done|]. simpl in *. lia.
  - intros H. repeat (apply elem_of_cons in H as [H|H]; [done|]).
    by apply not_elem_of_nil in H.
Qed.

Lemma X15_snippet_shown_is_cut_witness :
  ∃ j, extract_results 4300 sample_text = Ok [j]
       ∧ CandidateLine "the cat sat" ∈ output (accuracy_comparison [j] [j])
       ∧ ∃ s, candidate j = Some s
              ∧ "the cat sat" = (if (60 <? String.length s)%nat
                                 then String.substring 0 60 s +:+ "..." else s)
              ∧ (1 ≤ String.length "the cat sat" ≤ 63)%nat.
Proof.
  eexists. split; [vm_compute; reflexivity|].
  match goal with
  | |- ?e ∈ output (accuracy_comparison ?a ?b) ∧ _ =>
      assert (Hin : e ∈ output (accuracy_comparison a b))
        by (vm_compute; do 3 right; left);
      destruct (X15_snippet_shown_is_cut a b _ Hin)
        as (j' & s & Hj & Hs & Htext & Hlen)
  end.
  split; [exact Hin|].
  apply list_elem_of_singleton in Hj. subst j'.
  exists s. split; [exact Hs|]. split; [exact Htext|exact Hlen].
Defined.

Lemma level_headers_compare_pair cur i j r :
  level_headers (compare_pair cur i j r)
  = match level j with
    | Some lv => if decide (Some lv ≠ cur) then [(lv, level_name j)] else []
    | None => []
    end.
Proof.
  unfold compare_pair, snippet_line, level_headers.
  destruct (level j) as [lv|]; [destruct (decide (Some lv ≠ cur))|];
    (destruct (candidate j) as [c|]; [destruct (nonempty c)|]);
    (destruct (reference j) as [t|]; [destruct (nonempty t)|]);
    destruct (results_match j r); reflexivity.
Qed.

Lemma adjacent_distinct_cons a levels :
  adjacent_distinct levels → (∀ b, head levels = Some b → a ≠ b) →
  adjacent_distinct (a :: levels).
Proof.
  intros Hl Hhead [|k] x y; simpl.
  - intros [= <-] Hy. apply Hhead. by destruct levels.
  - apply Hl.
Qed.

Lemma level_headers_app out1 out2 :
  level_headers (out1 ++ out2) = level_headers out1 ++ level_headers out2.
Proof. apply omap_app. Qed.

Lemma level_headers_compare_pairs cur i pairs :
  adjacent_distinct (level_headers (compare_pairs cur i pairs)).*1
  ∧ (∀ lv, head (level_headers (compare_pairs cur i pairs)).*1 = Some lv →
           Some lv ≠ cur)
  ∧ (∀ lv, lv ∈ (level_headers (compare_pairs cur i pairs)).*1 →
           ∃ p, p ∈ pairs ∧ level p.1 = Some lv).
Proof.
  revert cur i. induction pairs as [|[j r] pairs IH]; intros cur i.
  - simpl. split; [by intros k a b ?|]. split; [done|].
    by intros lv ?%not_elem_of_nil.
  - simpl compare_pairs.
    rewrite level_headers_app, level_headers_compare_pair, fmap_app.
    destruct (IH (next_level cur j) (S i)) as (IH1 & IH2 & IH3).
    set (rest := (level_headers
                    (compare_pairs (next_level cur j) (S i) pairs)).*1) in *.
    assert (Hrest : ∀ lv, lv ∈ rest →
                          ∃ p, p ∈ (j, r) :: pairs ∧ level p.1 = Some lv).
    { intros lv (p & Hin & Hlv)%IH3. exists p. split; [by right|done]. }
    unfold next_level in *. destruct (level j) as [lv|] eqn:Hlv.
    + destruct (decide (Some lv ≠ cur)) as [Hne|He].
      * simpl. split; [|split].
        -- apply adjacent_distinct_cons; [done|].
           intros b Hb Heq. subst b. by apply (IH2 lv).
        -- intros ? [= <-]. done.
        -- intros lv' [->|Hin]%elem_of_cons; [|by apply Hrest].
           exists (j, r). split; [left|done].
      * simpl. apply dec_stable in He. subst cur.
        split; [done|]. split; [done|]. done.
    + simpl. split; [done|]. split; [done|]. done.
Qed.

(** X16.  A level header is printed only when the level changes: no two
    headers that follow one another name the same level, and every header
    names the level of some Java record.  Records without level print no
    header. *)
Theorem X16_level_header_on_change (java_results rust_results : list scenario_result) :
  adjacent_distinct
    (level_headers (output (accuracy_comparison java_results rust_results))).*1
  ∧ ∀ lv, lv ∈ (level_headers
                  (output (accuracy_comparison java_results rust_results))).*1 →
          ∃ j, j ∈ java_results ∧ level j = Some lv.
Proof.
  unfold accuracy_comparison, output.
  destruct (decide (length java_results = length rust_results)); simpl.
  - rewrite app_nil_r.
    destruct (level_headers_compare_pairs None 1 (zip java_results rust_results))
      as (H1 & _ & H3).
    split; [exact H1|].
    intros lv ([j r] & Hin & Hlv)%H3. exists j. split; [|done].
    apply (list_elem_of_fmap_2 fst) in Hin. rewrite fst_zip in Hin by lia. done.
  - split; [by intros k a b ?|]. by intros lv ?%not_elem_of_nil.
Qed.

(* ===================================================================== *)
(** * When the extraction raises *)

(** X17.  An exception of the extraction ends the program.  When
    [extract_results] raises on the output of Java, or returns on it and
    raises on the output of Rust, [main] stops with that exception after
    the two blocks of statistics and the banner of the comparison: no pair
    is compared and the final report is not printed. *)
Theorem X17_extraction_error_stops_main (max_str_digits : nat)
    (java_times rust_times : list Q) (java_stdout rust_stdout : string)
    (e : exn) :
  extract_results max_str_digits java_stdout = Raise e
  ∨ (is_ok (extract_results max_str_digits java_stdout) = true
     ∧ extract_results max_str_digits rust_stdout = Raise e) →
  main max_str_digits java_times rust_times java_stdout rust_stdout
  = (output (print_statistics java_times "Java")
     ++ output (print_statistics rust_times "Rust") ++ [ComparingBanner],
     Raise e).
Proof.
  intros Hraise.
  assert (Hcmp : compare_results max_str_digits java_stdout rust_stdout
                 = ([ComparingBanner], Raise e)).
  { unfold compare_results. destruct Hraise as [->|[Hok ->]]; [done|].
    by destruct (extract_results max_str_digits java_stdout). }
  unfold main. rewrite Hcmp.
  pose proof (print_statistics_returns java_times "Java") as Pj.
  pose proof (print_statistics_returns rust_times "Rust") as Pr.
  destruct (print_statistics java_times "Java") as [oj rj].
  destruct (print_statistics rust_times "Rust") as [or rr].
  unfold outcome, output in *. simpl in *. subst. simpl.
  by rewrite ?app_nil_r, <- ?app_assoc.
Qed.

Lemma X17_extraction_error_stops_main_witness :
  main 4300 [] [2#1] sample_text "Example one:"
  = (output (print_statistics [] "Java")
     ++ output (print_statistics [2#1] "Rust") ++ [ComparingBanner],
     Raise ValueError).
Proof.
  apply X17_extraction_error_stops_main.
  right. split; vm_compute; reflexivity.
Defined.

(* ===================================================================== *)
(** * The level numbers *)

Lemma digit_not_int_space c : is_digit c = true → is_int_space c = false.
Proof. destruct c as [[] [] [] [] [] [] [] []]; vm_compute; done. Qed.

Lemma digit_value_nonneg c : is_digit c = true → 0 ≤ digit_value c.
Proof. destruct c as [[] [] [] [] [] [] [] []]; vm_compute; done. Qed.

Lemma span_run_cons f c a :
  span f (String c a) = (String c a, "") → f c = true ∧ span f a = (a, "").
Proof.
  simpl. destruct (f c); [|done].
  destruct (span f a) as [a' b']. by intros [= -> ->].
Qed.

Lemma rstrip_by_none f a :
  span (fun c => negb (f c)) a = (a, "") → rstrip_by f a = a.
Proof.
  induction a as [|c a IH]; [done|].
  intros [Hc Ha]%span_run_cons. simpl. rewrite (IH Ha).
  apply negb_true_iff in Hc. rewrite Hc. by destruct a.
Qed.

Lemma span_weaken (f g : ascii → bool) a :
  (∀ c, f c = true → g c = true) → span f a = (a, "") → span g a = (a, "").
Proof.
  intros Hfg. induction a as [|c a IH]; [done|].
  intros [Hc Ha]%span_run_cons. simpl. rewrite (Hfg c Hc), (IH Ha). done.
Qed.

Lemma int_digits_nonneg s acc prev v :
  0 ≤ acc → int_digits acc prev s = Some v → 0 ≤ v.
Proof.
  revert acc prev. induction s as [|c s IH]; intros acc prev Hacc; simpl.
  - destruct prev; [|done]. by intros [= <-].
  - destruct (is_digit c) eqn:Hc.
    + apply IH. pose proof (digit_value_nonneg c Hc). lia.
    + destruct (Ascii.eqb c "_"); [|done]. destruct prev; [|done]. by apply IH.
Qed.

(** [int] of a run of digits is not negative. *)
Lemma py_int_digits_nonneg max_str_digits ds v :
  span is_digit ds = (ds, "") → nonempty ds = true →
  py_int max_str_digits ds = Ok v → 0 ≤ v.
Proof.
  intros Hrun Hne. unfold py_int.
  assert (Hl : lstrip_by is_int_space ds = ds).
  { destruct ds as [|c ds]; [done|]. apply span_run_cons in Hrun as [Hc _].
    simpl. by rewrite (digit_not_int_space c Hc). }
  assert (Hr : rstrip_by is_int_space ds = ds).
  { apply rstrip_by_none.
    eapply span_weaken; [|exact Hrun]. intros c Hc.
    by rewrite (digit_not_int_space c Hc). }
  rewrite Hl, Hr. destruct ds as [|c ds]; [done|].
  apply span_run_cons in Hrun as [Hc _].
  assert (Hsign : (let '(neg, body) :=
                     match String c ds with
                     | String "-" b => (true, b)
                     | String "+" b => (false, b)
                     | _ => (false, String c ds)
                     end in (neg, body)) = (false, String c ds)).
  { revert Hc. destruct c as [[] [] [] [] [] [] [] []]; vm_compute; done. }
  revert Hsign.
  destruct (match String c ds with
            | String "-" b => (true, b)
            | String "+" b => (false, b)
            | _ => (false, String c ds)
            end) as [neg body].
  intros [= -> ->].
  destruct (int_digits 0 false (String c ds)) as [w|] eqn:Hw; [|done].
  destruct (_ && _); [done|]. intros [= <-].
  by eapply int_digits_nonneg; [|exact Hw].
Qed.

Lemma match_level_at_digits s num name :
  match_level_at s = Some (num, name) →
  span is_digit num = (num, "") ∧ nonempty num = true.
Proof.
  unfold match_level_at, mbind, option_bind.
  destruct (strip_prefix "Level " s) as [r|]; [|done].
  destruct (span is_digit r) as [ds r1] eqn:E.
  destruct (nonempty ds) eqn:Hne; [|done].
  destruct (strip_prefix ": " r1) as [r2|]; [|done].
  destruct (span _ r2) as [nm rest]. destruct (nonempty nm); [|done].
  intros [= <- <-]. split; [by eapply span_fst_run|done].
Qed.

Lemma search_level_digits s num name :
  search_level s = Some (num, name) →
  span is_digit num = (num, "") ∧ nonempty num = true.
Proof.
  induction s as [|c s IH].
  - done.
  - cbn [search_level].
    destruct (match_level_at (String c s)) as [[n m]|] eqn:E; [|exact IH].
    intros [= <- <-]. by eapply match_level_at_digits.
Qed.

(** The level of the state never becomes negative. *)
Lemma scan_line_level_nonneg max_str_digits st line st' :
  scan_line max_str_digits st line = Ok st' →
  (∀ v, current_level st = Some v → 0 ≤ v) →
  (∀ v, current_level st' = Some v → 0 ≤ v)
  ∧ ∀ rec, results st' = results st ++ [rec] → level rec = current_level st.
Proof.
  unfold scan_line. intros Hscan Hst.
  destruct (level_shaped line).
  { destruct (search_level line) as [[num name]|] eqn:Hs.
    - destruct (py_int max_str_digits num) as [lv|] eqn:Hlv; simpl in Hscan;
        [|done].
      injection Hscan as <-. simpl. split.
      + intros v [= <-]. apply search_level_digits in Hs as [H1 H2].
        by eapply py_int_digits_nonneg.
      + intros rec Hrec. exfalso.
        apply (f_equal length) in Hrec. rewrite length_app in Hrec.
        simpl in Hrec. lia.
    - injection Hscan as <-. split; [done|]. intros rec Hrec. exfalso.
      apply (f_equal length) in Hrec. rewrite length_app in Hrec.
      simpl in Hrec. lia. }
  assert (Hkeep : ∀ s : extractor_state,
            current_level s = current_level st → results s = results st →
            (∀ v, current_level s = Some v → 0 ≤ v)
            ∧ ∀ rec, results s = results st ++ [rec] →
                     level rec = current_level st).
  { intros s H1 H2. rewrite H1. split; [done|]. intros rec Hrec. exfalso.
    rewrite H2 in Hrec. apply (f_equal length) in Hrec.
    rewrite length_app in Hrec. simpl in Hrec. lia. }
  destruct (example_shaped line).
  { destruct (py_index (split_ws line) 1); simpl in Hscan; [|done].
    destruct (py_int max_str_digits (rstrip_colon a)); simpl in Hscan; [|done].
    injection Hscan as <-. by apply Hkeep. }
  destruct (candidate_shaped line).
  { destruct (py_index (split1 "Candidate:" line) 1); simpl in Hscan; [|done].
    injection Hscan as <-. by apply Hkeep. }
  destruct (reference_shaped line).
  { destruct (py_index (split1 "Reference:" line) 1); simpl in Hscan; [|done].
    injection Hscan as <-. by apply Hkeep. }
  destruct (has_results_label line); [|injection Hscan as <-; by apply Hkeep].
  destruct (3 <=? length (findall_decimal line))%nat;
    [|injection Hscan as <-; by apply Hkeep].
  destruct (py_index (findall_decimal line) 0 ≫= py_float); simpl in Hscan;
    [|done].
  destruct (py_index (findall_decimal line) 1 ≫= py_float); simpl in Hscan;
    [|done].
  destruct (py_index (findall_decimal line) 2 ≫= py_float); simpl in Hscan;
    [|done].
  injection Hscan as <-. simpl. split; [done|].
  intros rec Hrec. apply app_inv_head in Hrec. by injection Hrec as <-.
Qed.

(** X18.  The level of a record is never negative: it is [None] or the
    number that a run of digits denotes.  (The example number has no such
    bound: [int] accepts a sign.) *)
Theorem X18_levels_not_negative (max_str_digits : nat) (output : string)
    (rs : list scenario_result) :
  extract_results max_str_digits output = Ok rs →
  Forall (fun r => ∀ v, level r = Some v → 0 ≤ v) rs.
Proof.
  unfold extract_results, scan_lines.
  destruct (for_each (scan_line max_str_digits) initial_state (lines_of output))
    as [st'|] eqn:Hrun; simpl; [|done].
  intros [= <-].
  cut ((∀ v, current_level st' = Some v → 0 ≤ v)
       ∧ Forall (fun r => ∀ v, level r = Some v → 0 ≤ v) (results st')); [tauto|].
  revert Hrun.
  assert (Hinit : (∀ v, current_level initial_state = Some v → 0 ≤ v)
                  ∧ Forall (fun r => ∀ v, level r = Some v → 0 ≤ v)
                      (results initial_state)) by (split; [done|constructor]).
  revert Hinit. generalize initial_state as st.
  induction (lines_of output) as [|l ls IH]; intros st Hst; simpl.
  - by intros [= <-].
  - destruct (scan_line max_str_digits st l) as [st1|] eqn:E; simpl; [|done].
    apply IH. destruct Hst as [H1 H2].
    destruct (scan_line_level_nonneg _ _ _ _ E H1) as [H3 H4].
    split; [done|].
    pose proof (scan_line_results _ _ _ _ E) as Hres.
    destruct (numeric_results_line l).
    + destruct Hres as [rec Hrec]. rewrite Hrec. apply Forall_app.
      split; [done|]. constructor; [|constructor].
      rewrite (H4 rec Hrec). done.
    + by rewrite Hres.
Qed.

Lemma X18_levels_not_negative_witness :
  ∃ j, extract_results 4300 sample_text = Ok [j]
       ∧ Forall (fun r => ∀ v, level r = Some v → 0 ≤ v) [j].
Proof.
  eexists. split; [vm_compute; reflexivity|].
  eapply (X18_levels_not_negative 4300 sample_text).
  vm_compute. reflexivity.
Defined.
